(** * SkillSync backend: collaboration consistency and real-time delivery

    A shallow embedding of the parts of the SkillSync backend that keep the
    per-user aggregates (active-project count, reputation score) and push
    events to live connections:

    - [services/reputation.service.js]      (module [Reputation])
    - [controllers/project.controller.js]   (module [ProjectController])
    - [controllers/notification.controller.js] (module [NotificationController])
    - [socket/socket.js]                    (module [Socket])
    - [services/matching.service.js] and the inline copy of its formula in
      [controllers/user.controller.js]      (modules [Matching], [Ranking])
    - the listing routes of [controllers/notification.controller.js]
      (module [NotificationRoutes]) and [getProjectDetails] of
      [controllers/project.controller.js]   (module [ProjectQueries])

    The Prisma client is modelled as a small state-and-exception monad over
    an in-memory store; an [await]ed call is a bind, a rejected promise is a
    [Throw], and [try]/[catch] is [try_catch]. The handlers of the project
    controller are also given as the trees of their awaited calls (module
    [ProjectSteps]), for the runs in which requests overlap. A JavaScript
    string is the string of the bytes of its UTF-8 encoding. *)

From Stdlib Require Import ZArith QArith Qround Qabs Lqa String Ascii Lia Sorted.
From stdpp Require Import gmap strings list fin_maps pretty.

Local Open Scope string_scope.
Local Open Scope list_scope.
Local Open Scope Z_scope.

(** ** JavaScript helpers *)

Module Js.

(** A JavaScript string is modelled by the bytes of its UTF-8 encoding. *)

(** [!s] for a value that is a string or [undefined]. *)
Definition falsy (v : option string) : bool :=
  match v with
  | None => true
  | Some s => bool_decide (s = "")
  end.

(** [!s] for a string. *)
Definition empty (s : string) : bool := bool_decide (s = "").

(** [String.prototype.trim] strips the white space and the line
    terminators of ECMAScript. In UTF-8 these are one byte (U+0009 to
    U+000D, U+0020), two bytes (U+00A0 is C2 A0) or three bytes (U+1680 is
    E1 9A 80; U+2000 to U+200A, U+2028, U+2029 and U+202F are E2 80 80 to
    E2 80 8A, E2 80 A8, E2 80 A9 and E2 80 AF; U+205F is E2 81 9F; U+3000
    is E3 80 80; U+FEFF is EF BB BF). *)
Definition is_space (c : ascii) : bool :=
  let n := nat_of_ascii c in
  bool_decide (n = 32 ∨ n = 9 ∨ n = 10 ∨ n = 11 ∨ n = 12 ∨ n = 13)%nat.

Definition is_space2 (c1 c2 : ascii) : bool :=
  bool_decide (nat_of_ascii c1 = 194 ∧ nat_of_ascii c2 = 160)%nat.

Definition is_space3 (c1 c2 c3 : ascii) : bool :=
  let n1 := nat_of_ascii c1 in
  let n2 := nat_of_ascii c2 in
  let n3 := nat_of_ascii c3 in
  bool_decide
    ((n1 = 225 ∧ n2 = 154 ∧ n3 = 128)
     ∨ (n1 = 226 ∧ n2 = 128 ∧ (128 ≤ n3 ≤ 138 ∨ n3 = 168 ∨ n3 = 169 ∨ n3 = 175))
     ∨ (n1 = 226 ∧ n2 = 129 ∧ n3 = 159)
     ∨ (n1 = 227 ∧ n2 = 128 ∧ n3 = 128)
     ∨ (n1 = 239 ∧ n2 = 187 ∧ n3 = 191))%nat.

Fixpoint trimStart (s : string) : string :=
  match s with
  | String c1 s1 =>
    if is_space c1 then trimStart s1
    else
      match s1 with
      | String c2 s2 =>
        if is_space2 c1 c2 then trimStart s2
        else
          match s2 with
          | String c3 s3 => if is_space3 c1 c2 c3 then trimStart s3 else s
          | EmptyString => s
          end
      | EmptyString => s
      end
  | EmptyString => EmptyString
  end.

(** The string is cut where what follows is white space only. No white
    space character starts with a continuation byte, so the cut never
    falls inside a character. *)
Fixpoint trimEnd (s : string) : string :=
  match s with
  | String c s' => if empty (trimStart s) then EmptyString else String c (trimEnd s')
  | EmptyString => EmptyString
  end.

Definition trim (s : string) : string := trimEnd (trimStart s).

(** [s.length], the number of UTF-16 code units: one for a character of
    up to three bytes, two for a character of four bytes. *)
Definition code_units (c : ascii) : nat :=
  let n := nat_of_ascii c in
  if bool_decide (128 ≤ n < 192)%nat then 0%nat
  else if bool_decide (240 ≤ n)%nat then 2%nat
  else 1%nat.

Fixpoint length (s : string) : nat :=
  match s with
  | String c s' => (code_units c + length s')%nat
  | EmptyString => 0%nat
  end.

(** [Math.max(0, x)] on integers. *)
Definition max0 (x : Z) : Z := Z.max 0 x.

End Js.

(** ** The store and the process state *)

Module Store.

Inductive Status := active | completed.
Inductive Role := leader | member.

#[global] Instance Status_eq_dec : EqDecision Status.
Proof. solve_decision. Defined.

(** Rows carry the columns the modelled code reads or writes; ids are the
    keys of the tables. Columns that are only copied through (deadline,
    timestamps, department, year) are left out. *)
Record User := mkUser {
  name : string;
  reputationScore : Z;
  activeProjectCount : Z }.

Record Project := mkProject {
  title : string;
  description : string;
  domain : string;
  createdBy : string;
  status : Status }.

Record ReputationLog := mkReputationLog {
  userId : string;
  projectId : string;
  change : Z;
  reason : string }.

Record Message := mkMessage {
  senderId : string;
  receiverId : string;
  content : string;
  isRead : bool }.

Record Notification := mkNotification {
  n_userId : string;
  n_type : string;
  n_title : string;
  n_message : string;
  n_isRead : bool }.

(** Modelled from the spec: prisma/schema.prisma is not among the sources.
    The tables and columns are the ones the handlers read and write and
    the data model of the spec lists. [members] is keyed by the compound
    unique key [projectId_userId] that the handlers query by. The two
    append-only tables are lists in insertion order. The relations that
    the handlers [include] (a project's creator and members, a member's
    user, a message's sender and receiver) are foreign keys: a row that
    points at a missing row is refused with P2003. *)
Record DB := mkDB {
  users : gmap string User;
  projects : gmap string Project;
  members : gmap (string * string) Role;
  reputationLog : list ReputationLog;
  messages : gmap string Message;
  notifications : list Notification }.

(** Events pushed to clients, and what the handlers keep per socket. *)
Inductive Event :=
| userOnline (u : string)
| userOffline (u : string)
| newMessage (id : string) (m : Message)
| messageSent (id : string) (m : Message)
| messageRead (messageId : string) (readBy : option string)
| readConfirmed (messageId : string)
| userTyping (u : string) (isTyping : bool)
| onlineStatus (u : string) (isOnline : bool)
| newNotification (n : Notification)
| error (message : string).

Record SocketState := mkSocket {
  socket_userId : option string;
  rooms : gset string }.

(** The whole process: the database, the scripted outages of the store
    (the k-th store call from now fails iff the k-th flag is [true]; an
    empty script is a healthy store), the counter the store draws fresh
    row ids from, the [onlineUsers] map of socket.js, the connected
    sockets, and the events emitted so far as (socket id, event). *)
Record World := mkWorld {
  db : DB;
  faults : list bool;
  nextId : nat;
  onlineUsers : gmap string string;
  sockets : gmap string SocketState;
  outbox : list (string * Event) }.

Definition set_db (d : DB) (w : World) : World :=
  mkWorld d (faults w) (nextId w) (onlineUsers w) (sockets w) (outbox w).
Definition set_faults (fs : list bool) (w : World) : World :=
  mkWorld (db w) fs (nextId w) (onlineUsers w) (sockets w) (outbox w).
Definition set_nextId (n : nat) (w : World) : World :=
  mkWorld (db w) (faults w) n (onlineUsers w) (sockets w) (outbox w).
Definition set_onlineUsers (o : gmap string string) (w : World) : World :=
  mkWorld (db w) (faults w) (nextId w) o (sockets w) (outbox w).
Definition set_sockets (s : gmap string SocketState) (w : World) : World :=
  mkWorld (db w) (faults w) (nextId w) (onlineUsers w) s (outbox w).
Definition set_outbox (o : list (string * Event)) (w : World) : World :=
  mkWorld (db w) (faults w) (nextId w) (onlineUsers w) (sockets w) o.

Definition set_users (f : gmap string User → gmap string User) (d : DB) : DB :=
  mkDB (f (users d)) (projects d) (members d) (reputationLog d) (messages d)
       (notifications d).
Definition set_projects (f : gmap string Project → gmap string Project) (d : DB) : DB :=
  mkDB (users d) (f (projects d)) (members d) (reputationLog d) (messages d)
       (notifications d).
Definition set_members
    (f : gmap (string * string) Role → gmap (string * string) Role) (d : DB) : DB :=
  mkDB (users d) (projects d) (f (members d)) (reputationLog d) (messages d)
       (notifications d).
Definition set_reputationLog (f : list ReputationLog → list ReputationLog) (d : DB) : DB :=
  mkDB (users d) (projects d) (members d) (f (reputationLog d)) (messages d)
       (notifications d).
Definition set_messages (f : gmap string Message → gmap string Message) (d : DB) : DB :=
  mkDB (users d) (projects d) (members d) (reputationLog d) (f (messages d))
       (notifications d).
Definition set_notifications (f : list Notification → list Notification) (d : DB) : DB :=
  mkDB (users d) (projects d) (members d) (reputationLog d) (messages d)
       (f (notifications d)).

(** *** Exceptions and the monad *)

Inductive Err :=
| JsError (message : string)        (* throw new Error(message) *)
| TypeError                         (* a property read on null *)
| PrismaKnownError (code : string)  (* P2002 unique, P2003 foreign key, P2025 not found *)
| PrismaValidationError             (* a data key that is no column *)
| StoreUnavailable.                 (* the store did not answer *)

Inductive Res (A : Type) :=
| Ok (a : A)
| Throw (e : Err).
Arguments Ok {A} a.
Arguments Throw {A} e.

Definition M (A : Type) : Type := World → Res A * World.

#[global] Instance M_ret : MRet M := λ A a w, (Ok a, w).
#[global] Instance M_bind : MBind M := λ A B k m w,
  match m w with
  | (Ok a, w') => k a w'
  | (Throw e, w') => (Throw e, w')
  end.

Definition throw {A} (e : Err) : M A := λ w, (Throw e, w).

(** [try { body } catch (e) { handler(e) }] *)
Definition try_catch {A} (body : M A) (handler : Err → M A) : M A := λ w,
  match body w with
  | (Ok a, w') => (Ok a, w')
  | (Throw e, w') => handler e w'
  end.

(** One round trip to the store. A scripted outage makes the call throw
    without touching the database. *)
Definition prisma {A} (q : DB → Res A * DB) : M A := λ w,
  match faults w with
  | true :: fs => (Throw StoreUnavailable, set_faults fs w)
  | false :: fs => let '(r, d) := q (db w) in (r, set_db d (set_faults fs w))
  | [] => let '(r, d) := q (db w) in (r, set_db d w)
  end.

(** The store picks the id of a new row. *)
Definition fresh : M string := λ w,
  (Ok (pretty (nextId w)), set_nextId (S (nextId w)) w).

Fixpoint run_batch (ops : list (M unit)) : M unit :=
  match ops with
  | [] => mret tt
  | op :: rest => op ≫= λ _, run_batch rest
  end.

(** [prisma.$transaction([...])]: the queries run in order inside one
    database transaction, followed by the commit; when any of them (or
    the commit) throws, the database is rolled back to where it was. *)
Definition transaction (ops : list (M unit)) : M unit := λ w,
  match (run_batch ops ≫= λ _, prisma (λ d, (Ok tt, d))) w with
  | (Ok _, w') => (Ok tt, w')
  | (Throw e, w') => (Throw e, set_db (db w) w')
  end.

Definition void {A} (m : M A) : M unit := m ≫= λ _, mret tt.

(** *** Queries *)

Definition P2002 := PrismaKnownError "P2002".
Definition P2003 := PrismaKnownError "P2003".
Definition P2025 := PrismaKnownError "P2025".

Definition user_findUnique (id : string) : M (option User) :=
  prisma (λ d, (Ok (users d !! id), d)).

(** [prisma.user.update({ where: { id }, data })], returning the updated row. *)
Definition user_update (id : string) (data : User → User) : M User :=
  prisma (λ d,
    match users d !! id with
    | Some u => (Ok (data u), set_users <[id := data u]> d)
    | None => (Throw P2025, d)
    end).

Definition increment_reputationScore (a : Z) (u : User) : User :=
  mkUser (name u) (reputationScore u + a) (activeProjectCount u).
Definition assign_reputationScore (v : Z) (u : User) : User :=
  mkUser (name u) v (activeProjectCount u).
Definition increment_activeProjectCount (a : Z) (u : User) : User :=
  mkUser (name u) (reputationScore u) (activeProjectCount u + a).
Definition decrement_activeProjectCount (a : Z) (u : User) : User :=
  mkUser (name u) (reputationScore u) (activeProjectCount u - a).

Definition project_create (p : Project) : M (string * Project) :=
  fresh ≫= λ id,
  prisma (λ d,
    match projects d !! id, users d !! createdBy p with
    | Some _, _ => (Throw P2002, d)
    | None, None => (Throw P2003, d)
    | None, Some _ => (Ok (id, p), set_projects <[id := p]> d)
    end).

Definition project_findUnique (id : string) : M (option Project) :=
  prisma (λ d, (Ok (projects d !! id), d)).

(** The [userId]s of the membership rows of a project. *)
Definition members_of (d : DB) (pid : string) : list string :=
  (λ kv : string * string * Role, kv.1.2) <$>
    filter (λ kv : string * string * Role, kv.1.1 = pid)
           (map_to_list (members d)).

(** [findUnique({ where: { id }, include: { members: true } })] *)
Definition project_findUnique_members (id : string)
    : M (option (Project * list string)) :=
  prisma (λ d, (Ok ((λ p, (p, members_of d id)) <$> projects d !! id), d)).

Definition project_update (id : string) (data : Project → Project) : M Project :=
  prisma (λ d,
    match projects d !! id with
    | Some p => (Ok (data p), set_projects <[id := data p]> d)
    | None => (Throw P2025, d)
    end).

Definition assign_status (s : Status) (p : Project) : Project :=
  mkProject (title p) (description p) (domain p) (createdBy p) s.

Definition projectMember_findUnique (pid uid : string) : M (option Role) :=
  prisma (λ d, (Ok (members d !! (pid, uid)), d)).

Definition projectMember_create (pid uid : string) (r : Role) : M unit :=
  prisma (λ d,
    match members d !! (pid, uid), projects d !! pid, users d !! uid with
    | Some _, _, _ => (Throw P2002, d)
    | None, Some _, Some _ => (Ok tt, set_members <[(pid, uid) := r]> d)
    | None, _, _ => (Throw P2003, d)
    end).

Definition projectMember_delete (pid uid : string) : M unit :=
  prisma (λ d,
    match members d !! (pid, uid) with
    | Some _ => (Ok tt, set_members (delete (pid, uid)) d)
    | None => (Throw P2025, d)
    end).

(** *** String filters

    Prisma sends [{ startsWith: value }] to PostgreSQL as
    [LIKE value || '%'] and does not escape [value]: in it, as in any
    LIKE pattern, [%] stands for any text, [_] for any one character and
    a backslash takes the character after it literally. *)

Definition is_continuation (c : ascii) : bool :=
  bool_decide (128 ≤ nat_of_ascii c < 192)%nat.

(** The bytes of the character whose first byte is [c]. *)
Definition char_bytes (c : ascii) : nat :=
  let n := nat_of_ascii c in
  if bool_decide (n < 192)%nat then 1%nat
  else if bool_decide (n < 224)%nat then 2%nat
  else if bool_decide (n < 240)%nat then 3%nat
  else 4%nat.

Fixpoint drop_bytes (n : nat) (s : string) : string :=
  match n, s with
  | S n', String _ s' => drop_bytes n' s'
  | _, _ => s
  end.

(** The text after its first character. *)
Definition drop_char (s : string) : option string :=
  match s with
  | String c s' =>
    if is_continuation c then None
    else Some (drop_bytes (char_bytes c - 1) s')
  | EmptyString => None
  end.

Definition backslash : ascii := ascii_of_nat 92.

(** [text LIKE pattern]. A pattern that ends in a lone backslash is an
    error in PostgreSQL; [startsWith] never builds one. *)
Fixpoint like (pattern : string) : string → bool :=
  match pattern with
  | EmptyString => λ text, Js.empty text
  | String p pattern' =>
    if bool_decide (p = "%"%char) then
      fix any (text : string) : bool :=
        like pattern' text
        || match text with
           | String _ text' => any text'
           | EmptyString => false
           end
    else if bool_decide (p = "_"%char) then
      λ text,
        match drop_char text with
        | Some text' => like pattern' text'
        | None => false
        end
    else if bool_decide (p = backslash) then
      match pattern' with
      | String q pattern'' =>
        λ text,
          match text with
          | String c text' => bool_decide (c = q) && like pattern'' text'
          | EmptyString => false
          end
      | EmptyString => λ _, false
      end
    else
      λ text,
        match text with
        | String c text' => bool_decide (c = p) && like pattern' text'
        | EmptyString => false
        end
  end.

Definition startsWith (text value : string) : bool := like (value +:+ "%") text.

Definition reputationLog_findFirst (where_ : ReputationLog → bool)
    : M (option ReputationLog) :=
  prisma (λ d, (Ok (List.find where_ (reputationLog d)), d)).

Definition reputationLog_create (l : ReputationLog) : M unit :=
  prisma (λ d, (Ok tt, set_reputationLog (λ ls, ls ++ [l]) d)).

Definition reputationLog_findMany (where_ : ReputationLog → bool)
    : M (list ReputationLog) :=
  prisma (λ d, (Ok (List.filter where_ (reputationLog d)), d)).

Definition message_create (m : Message) : M (string * Message * User * User) :=
  fresh ≫= λ id,
  prisma (λ d,
    match messages d !! id, users d !! senderId m, users d !! receiverId m with
    | Some _, _, _ => (Throw P2002, d)
    | None, Some s, Some r => (Ok (id, m, s, r), set_messages <[id := m]> d)
    | None, _, _ => (Throw P2003, d)
    end).

Definition assign_isRead (b : bool) (m : Message) : Message :=
  mkMessage (senderId m) (receiverId m) (content m) b.

Definition message_update (id : string) (data : Message → Message) : M Message :=
  prisma (λ d,
    match messages d !! id with
    | Some m => (Ok (data m), set_messages <[id := data m]> d)
    | None => (Throw P2025, d)
    end).

(** Modelled from the spec: the Notification model of prisma/schema.prisma,
    which is not among the sources, has the columns of the spec's data
    model (userId, type, title, message, isRead, createdAt) and no other.
    This is [prisma.notification.create({ data })]; [extra] lists the keys
    that the caller spread into [data] besides those columns, and a key
    that is no column is an unknown argument, which the client rejects. *)
Definition notification_create (n : Notification) (extra : list string)
    : M Notification :=
  prisma (λ d,
    match extra with
    | [] => (Ok n, set_notifications (λ ns, ns ++ [n]) d)
    | _ :: _ => (Throw PrismaValidationError, d)
    end).

End Store.

(** ** services/reputation.service.js *)

Module Reputation.
Import Store.

Record RateResult := mkRateResult {
  message : string;
  adjustment : Z;
  newReputation : Z }.

Definition already_rated : string :=
  "You have already rated this teammate for this project".

(** The immediate adjustment of a rating, the [if]/[else if] chain of
    rateTeammate. *)
Definition adjustment_of (rating : Z) : Z :=
  if rating <? 2 then -15
  else if rating <=? 3 then -5
  else if rating <=? 4 then 5
  else 10.

(** [`Rating from user ${raterId}`] and [`Rating from user ${raterId}: ${rating}/5`] *)
Definition reason_prefix (raterId : string) : string :=
  "Rating from user " +:+ raterId.
Definition reason_of (raterId : string) (rating : Z) : string :=
  "Rating from user " +:+ raterId +:+ ": " +:+ pretty rating +:+ "/5".

(** [rating] ranges over the integers, for which [Number.isInteger] holds;
    any other number is rejected by the same first guard. *)
Definition rateTeammate (raterId ratedUserId projectId : string) (rating : Z)
    : M RateResult :=
  if (rating <? 1) || (rating >? 5)
  then throw (JsError "Rating must be an integer between 1 and 5")
  else
    existingRating ← reputationLog_findFirst (λ l,
      bool_decide (userId l = ratedUserId)
      && bool_decide (Store.projectId l = projectId)
      && startsWith (reason l) (reason_prefix raterId));
    match existingRating with
    | Some _ => throw (JsError already_rated)
    | None =>
      let adjustment := adjustment_of rating in
      updatedUser ← user_update ratedUserId (increment_reputationScore adjustment);
      _ ← (if reputationScore updatedUser <? 0
           then void (user_update ratedUserId (assign_reputationScore 0))
           else mret tt);
      _ ← reputationLog_create
            (mkReputationLog ratedUserId projectId adjustment
                             (reason_of raterId rating));
      mret (mkRateResult "Rating recorded successfully" adjustment
              (Js.max0 (reputationScore updatedUser + adjustment)))
    end.

(** [getReputationHistory]: the rows of a user, newest first. *)
Definition getReputationHistory (uid : string) : M (list ReputationLog) :=
  rows ← reputationLog_findMany (λ l, bool_decide (userId l = uid));
  mret (List.rev rows).

End Reputation.

(** ** controllers/project.controller.js *)

Module ProjectController.
Import Store.

Inductive Json :=
| JError (error : string)
| JMessage (message : string)
| JCreated (message : string) (id : string) (project : Project)
| JCompleted (message : string) (projectId : string).

Record Response := mkResponse {
  statusCode : nat;
  json : Json }.

(** [req.user.userId] and the fields of [req.body]; a field is a string or
    absent. *)
Record CreateReq := mkCreateReq {
  c_userId : string;
  c_title : option string;
  c_description : option string;
  c_domain : option string }.

Record ProjectReq := mkProjectReq {
  p_userId : string;
  p_projectId : option string }.

Definition cap_reached : string :=
  "You have reached the maximum limit of 2 active projects".
Definition internal_error : Response :=
  mkResponse 500 (JError "Internal server error").

(** The handlers of this module are the handlers run from request to
    response with no other request served in between: every awaited call
    is answered at once. Module [ProjectSteps] has the same handlers with
    their awaits as the points where other requests run. *)

(** The [try { ... } catch (err) { res.status(500)... }] around every
    handler body. *)
Definition handler (body : M Response) : World → Response * World := λ w,
  match body w with
  | (Ok r, w') => (r, w')
  | (Throw _, w') => (internal_error, w')
  end.

Definition createProject (req : CreateReq) : World → Response * World :=
  handler (
    match c_title req, c_description req, c_domain req with
    | Some title, Some description, Some domain =>
      if Js.empty title || Js.empty description || Js.empty domain
      then mret (mkResponse 400 (JError "Title, description and domain are required"))
      else
        currentUser ← user_findUnique (c_userId req);
        match currentUser with
        | None => throw TypeError
        | Some currentUser =>
          if activeProjectCount currentUser >=? 2
          then mret (mkResponse 400 (JError cap_reached))
          else
            created ← project_create
              (mkProject (Js.trim title) (Js.trim description) (Js.trim domain)
                         (c_userId req) active);
            _ ← projectMember_create created.1 (c_userId req) leader;
            _ ← user_update (c_userId req) (increment_activeProjectCount 1);
            mret (mkResponse 201
                    (JCreated "Project created successfully" created.1 created.2))
        end
    | _, _, _ =>
      mret (mkResponse 400 (JError "Title, description and domain are required"))
    end).

Definition joinProject (req : ProjectReq) : World → Response * World :=
  handler (
    if Js.falsy (p_projectId req)
    then mret (mkResponse 400 (JError "projectId is required"))
    else
      let projectId := default "" (p_projectId req) in
      currentUser ← user_findUnique (p_userId req);
      match currentUser with
      | None => throw TypeError
      | Some currentUser =>
        if activeProjectCount currentUser >=? 2
        then mret (mkResponse 400 (JError cap_reached))
        else
          project ← project_findUnique projectId;
          if match project with
             | None => true
             | Some p => bool_decide (status p ≠ active)
             end
          then mret (mkResponse 400 (JError "Project not found or not active"))
          else
            existingMember ← projectMember_findUnique projectId (p_userId req);
            match existingMember with
            | Some _ =>
              mret (mkResponse 400 (JError "You are already a member of this project"))
            | None =>
              _ ← projectMember_create projectId (p_userId req) member;
              _ ← user_update (p_userId req) (increment_activeProjectCount 1);
              mret (mkResponse 200 (JMessage "Successfully joined the project"))
            end
      end).

Definition leaveProject (req : ProjectReq) : World → Response * World :=
  handler (
    if Js.falsy (p_projectId req)
    then mret (mkResponse 400 (JError "projectId is required"))
    else
      let projectId := default "" (p_projectId req) in
      membership ← projectMember_findUnique projectId (p_userId req);
      match membership with
      | None => mret (mkResponse 404 (JError "You are not a member of this project"))
      | Some _ =>
        project ← project_findUnique projectId;
        _ ← projectMember_delete projectId (p_userId req);
        match project with
        | None => throw TypeError
        | Some p =>
          _ ← (if bool_decide (status p = active)
               then void (user_update (p_userId req) (decrement_activeProjectCount 1))
               else mret tt);
          mret (mkResponse 200 (JMessage "Successfully left the project"))
        end
      end).

Definition completed_message : string :=
  "Project marked as completed. All members’ active project counts updated.".

Definition completeProject (req : ProjectReq) : World → Response * World :=
  handler (
    if Js.falsy (p_projectId req)
    then mret (mkResponse 400 (JError "projectId is required"))
    else
      let projectId := default "" (p_projectId req) in
      project ← project_findUnique_members projectId;
      match project with
      | None => mret (mkResponse 404 (JError "Project not found"))
      | Some (project, project_members) =>
        if bool_decide (createdBy project ≠ p_userId req)
        then mret (mkResponse 403
                     (JError "Only the project creator can mark it as completed"))
        else if bool_decide (status project = completed)
        then mret (mkResponse 400 (JError "Project is already completed"))
        else
          let memberUpdates :=
            (λ userId, void (user_update userId (decrement_activeProjectCount 1)))
              <$> project_members in
          _ ← transaction
                (void (project_update projectId (assign_status completed))
                 :: memberUpdates);
          mret (mkResponse 200 (JCompleted completed_message projectId))
      end).

End ProjectController.

(** ** controllers/notification.controller.js *)

Module NotificationController.
Import Store.

(** The exported helper: the row is stored; a failure is logged and
    swallowed, the caller gets [null]. *)
Definition createNotification (userId type title message : string)
    : M (option Notification) :=
  try_catch
    (notification ← notification_create
       (mkNotification userId type title message false) [];
     mret (Some notification))
    (λ _, mret None).

End NotificationController.

(** ** socket/socket.js *)

Module Socket.
Import Store.

(** What [jwt.verify] makes of a token: a payload, whose [userId] may be
    missing, or an exception. *)
Inductive Token :=
| validToken (userId : option string)
| invalidToken.

Definition jwt_verify (token : Token) : M (option string) :=
  match token with
  | validToken userId => mret userId
  | invalidToken => throw (JsError "invalid token")
  end.

(** The fifth argument of [createNotification], spread into the row. *)
Inductive Metadata :=
| MetaObject (keys : list string)
| MetaString (s : string).

(** The own enumerable keys that [...metadata] copies: the keys of an
    object, the indices of a string. *)
Definition spread_keys (metadata : Metadata) : list string :=
  match metadata with
  | MetaObject keys => keys
  | MetaString s => (λ i : nat, pretty i) <$> seq 0 (Js.length s)
  end.

Fixpoint replace_underscore (s : string) : string :=
  match s with
  | String c s' =>
    if bool_decide (c = "_"%char) then String " "%char s'
    else String c (replace_underscore s')
  | EmptyString => EmptyString
  end.

Definition upper (c : ascii) : ascii :=
  let n := nat_of_ascii c in
  if bool_decide (97 ≤ n ≤ 122)%nat then ascii_of_nat (n - 32) else c.

Fixpoint ascii_upper (s : string) : string :=
  match s with
  | String c s' => String (upper c) (ascii_upper s')
  | EmptyString => EmptyString
  end.

Fixpoint is_ascii (s : string) : bool :=
  match s with
  | String c s' => bool_decide (nat_of_ascii c < 128)%nat && is_ascii s'
  | EmptyString => true
  end.

Definition room_of (userId : string) : string := "user:" +:+ userId.

(** *** socket.io primitives *)

Definition emit_to (targets : list string) (ev : Event) : M unit := λ w,
  (Ok tt, set_outbox (outbox w ++ ((λ sid, (sid, ev)) <$> targets)) w).

Definition socket_emit (sid : string) (ev : Event) : M unit :=
  emit_to [sid] ev.

Definition io_emit (ev : Event) : M unit := λ w,
  emit_to (elements (dom (sockets w))) ev w.

Definition in_room (w : World) (room : string) : list string :=
  (filter (λ kv : string * SocketState, room ∈ rooms kv.2)
          (map_to_list (sockets w))).*1.

Definition io_to_emit (room : string) (ev : Event) : M unit := λ w,
  emit_to (in_room w room) ev w.

Definition get_userId (sid : string) : M (option string) := λ w,
  (Ok (sockets w !! sid ≫= socket_userId), w).

Definition set_userId (sid userId : string) : M unit := λ w,
  (Ok tt, set_sockets (alter (λ s, mkSocket (Some userId) (rooms s)) sid (sockets w)) w).

Definition socket_join (sid room : string) : M unit := λ w,
  (Ok tt, set_sockets
            (alter (λ s, mkSocket (socket_userId s) ({[room]} ∪ rooms s)) sid
                   (sockets w)) w).

Definition onlineUsers_get (userId : string) : M (option string) := λ w,
  (Ok (onlineUsers w !! userId), w).
Definition onlineUsers_set (userId sid : string) : M unit := λ w,
  (Ok tt, set_onlineUsers (<[userId := sid]> (onlineUsers w)) w).
Definition onlineUsers_delete (userId : string) : M unit := λ w,
  (Ok tt, set_onlineUsers (delete userId (onlineUsers w)) w).

(** The guard-and-emit steps that sendMessage, markAsRead, typing and
    stopTyping share: look the user up in [onlineUsers] and, when a socket
    id is there, emit to the user's room. *)
Definition deliver (userId : string) (ev : Event) : M unit :=
  receiverSocketId ← onlineUsers_get userId;
  if Js.falsy receiverSocketId then mret tt
  else io_to_emit (room_of userId) ev.

(** *** Handlers *)

Definition run (m : M unit) : World → World := λ w, (m w).2.

(** [io.on('connection', ...)]: a new socket, in the room of its own id. *)
Definition connection (sid : string) : World → World := λ w,
  set_sockets (<[sid := mkSocket None {[sid]}]> (sockets w)) w.

(** [socket.on('disconnect', ...)]. socket.io has taken the socket out of
    its rooms and out of the server before the handler runs; the handler
    still reads [socket.userId] from the socket object. *)
Definition on_disconnect (userId : option string) : M unit :=
  if Js.falsy userId then mret tt
  else
    let userId := default "" userId in
    _ ← onlineUsers_delete userId;
    io_emit (userOffline userId).

Definition disconnect (sid : string) : M unit := λ w,
  match sockets w !! sid with
  | None => (Ok tt, w)
  | Some s =>
    on_disconnect (socket_userId s) (set_sockets (delete sid (sockets w)) w)
  end.

Definition authenticate (sid : string) (token : Token) : World → World :=
  run (try_catch
    (userId ← jwt_verify token;
     if Js.falsy userId then disconnect sid
     else
       let userId := default "" userId in
       _ ← set_userId sid userId;
       _ ← onlineUsers_set userId sid;
       _ ← socket_join sid (room_of userId);
       io_emit (userOnline userId))
    (λ _, disconnect sid)).

Section CaseMapping.

(** [String.prototype.toUpperCase] follows the case mapping of Unicode.
    On ASCII text that is a-z to A-Z, which is written out; what it makes
    of a text with other characters is the parameter [unicode_upper]. *)
Variable unicode_upper : string → string.

Definition toUpperCase (s : string) : string :=
  if is_ascii s then ascii_upper s else unicode_upper s.

(** The module-level [createNotification] of socket.js (parameter [io] is
    the server, always passed). *)
Definition createNotification (userId type message : string) (metadata : Metadata)
    : M Notification :=
  try_catch
    (notification ← notification_create
       (mkNotification userId type (toUpperCase (replace_underscore type))
                       message false)
       (spread_keys metadata);
     _ ← io_to_emit (room_of userId) (newNotification notification);
     mret notification)
    (λ error, throw error).

(** The payload of 'sendMessage' as the client sent it. [d_receiverId] is
    a string or absent; [d_content] is a string, or [None] for a content
    that is absent or no string, on which [content.trim()] throws. The
    payload itself may be absent. *)
Record SendMessageData := mkSendMessageData {
  d_receiverId : option string;
  d_content : option string }.

(** The async function registered for 'sendMessage'. The destructuring of
    the payload and the guard are outside its [try]: an exception there
    rejects the promise of the handler and no event is emitted. The guard
    evaluates [content.trim()] only when the two tests before it are
    false. *)
Definition sendMessage_handler (sid : string) (data : option SendMessageData)
    : M unit :=
  match data with
  | None => throw TypeError
  | Some data =>
    socket_userId ← get_userId sid;
    if Js.falsy socket_userId || Js.falsy (d_receiverId data)
    then socket_emit sid (error "Invalid message data")
    else
      match d_content data with
      | None => throw TypeError
      | Some content =>
        if Js.empty (Js.trim content)
        then socket_emit sid (error "Invalid message data")
        else
          let userId := default "" socket_userId in
          let receiverId := default "" (d_receiverId data) in
          try_catch
            (message ← message_create
               (mkMessage userId receiverId (Js.trim content) false);
             let '(id, row, sender, receiver) := message in
             _ ← deliver receiverId (newMessage id row);
             _ ← socket_emit sid (messageSent id row);
             _ ← createNotification receiverId "message_received"
                   ("New message from " +:+ name sender) (MetaString userId);
             mret tt)
            (λ _, socket_emit sid (error "Failed to send message"))
      end
  end.

Definition sendMessage (sid : string) (data : option SendMessageData)
    : World → World :=
  run (sendMessage_handler sid data).

End CaseMapping.

Definition markAsRead (sid : string) (messageId : string) : World → World :=
  run (
    try_catch
      (updated ← message_update messageId (assign_isRead true);
       socket_userId ← get_userId sid;
       _ ← deliver (senderId updated) (messageRead messageId socket_userId);
       socket_emit sid (readConfirmed messageId))
      (λ _, socket_emit sid (error "Failed to update read status"))).

Definition typing_event (isTyping : bool) (sid : string) (receiverId : option string)
    : World → World :=
  run (
    socket_userId ← get_userId sid;
    if Js.falsy socket_userId || Js.falsy receiverId then mret tt
    else deliver (default "" receiverId)
                 (userTyping (default "" socket_userId) isTyping)).

Definition typing := typing_event true.
Definition stopTyping := typing_event false.

Definition isOnline (sid : string) (targetUserId : string) : World → World :=
  run (
    entry ← onlineUsers_get targetUserId;
    socket_emit sid (onlineStatus targetUserId (bool_decide (is_Some entry)))).

End Socket.

(** ** services/matching.service.js and controllers/user.controller.js *)

Module Matching.

Section Numbers.

(** JavaScript numbers are IEEE-754 doubles. A number is modelled by the
    rational it denotes, and an arithmetic operation by the exact
    operation followed by [fl], the rounding of a rational to a double,
    which is a parameter of the definitions. *)
Variable fl : Q → Q.

Definition js_div (a b : Q) : Q := fl (a / b).
Definition js_mul (a b : Q) : Q := fl (a * b).

(** [Math.round]: the closest integer, a tie going up. *)
Definition Math_round (x : Q) : Z := Qfloor (x + (1 # 2)).

(** [[...a].filter(id => b.has(id)).length] *)
Definition intersection_length (a b : gset string) : Z :=
  Z.of_nat (length (filter (λ id, id ∈ b) (elements a))).

Definition calculateSkillMatchPercent (mySkillIds candidateSkillIds : gset string) : Z :=
  let intersection := intersection_length mySkillIds candidateSkillIds in
  let union :=
    Z.of_nat (size mySkillIds) + Z.of_nat (size candidateSkillIds) - intersection in
  if 0 <? union
  then Math_round (js_mul (js_div (inject_Z intersection) (inject_Z union)) 100)
  else 0.

(** [Math.max(0, 100 - (activeProjectCount * 40))] *)
Definition calculateRecentActivityScore (activeProjectCount : Z) : Z :=
  Z.max 0 (100 - activeProjectCount * 40).

(** The skill-match step of [getRecommendedUsers] in user.controller.js,
    which builds the two id sets from the skill rows and repeats the
    formula inline. *)
Definition skillMatchPercent (mySkills userSkills : list string) : Z :=
  let mySkillIds : gset string := list_to_set mySkills in
  let userSkillIds : gset string := list_to_set userSkills in
  let intersectionSkills := intersection_length mySkillIds userSkillIds in
  let unionSkills :=
    Z.of_nat (size mySkillIds) + Z.of_nat (size userSkillIds) - intersectionSkills in
  if 0 <? unionSkills
  then Math_round (js_mul (js_div (inject_Z intersectionSkills) (inject_Z unionSkills)) 100)
  else 0.

End Numbers.

End Matching.

(** ** controllers/project.controller.js, await by await

    Node serves requests on one thread and switches between them at every
    [await]. Here a handler is the tree of its awaited store calls; a
    request in flight is such a tree, and the server answers the pending
    call of one request at a time. *)

Module ProjectSteps.
Import Store ProjectController.

(** [Await call k] has issued [call], one round trip to the store, and
    goes on with [k] on what comes back; [Done r] has returned or
    thrown. *)
Inductive Prog (A : Type) : Type :=
| Done (r : Res A)
| Await {X : Type} (call : M X) (k : Res X → Prog A).
Arguments Done {A} r.
Arguments Await {A X} call k.

Fixpoint bind {A B} (p : Prog A) (k : A → Prog B) : Prog B :=
  match p with
  | Done (Ok a) => k a
  | Done (Throw e) => Done (Throw e)
  | Await call k' => Await call (λ r, bind (k' r) k)
  end.

#[global] Instance Prog_ret : MRet Prog := λ A a, Done (Ok a).
#[global] Instance Prog_bind : MBind Prog := λ A B k p, bind p k.

(** [await call] *)
Definition await {X} (call : M X) : Prog X := Await call Done.

Definition throw {A} (e : Err) : Prog A := Done (Throw e).

Fixpoint try_catch {A} (body : Prog A) (handler : Err → Prog A) : Prog A :=
  match body with
  | Done (Ok a) => Done (Ok a)
  | Done (Throw e) => handler e
  | Await call k => Await call (λ r, try_catch (k r) handler)
  end.

Definition void {A} (p : Prog A) : Prog unit := p ≫= λ _, mret tt.

Definition handler (body : Prog Response) : Prog Response :=
  try_catch body (λ _, mret internal_error).

Definition createProject (req : CreateReq) : Prog Response :=
  handler (
    match c_title req, c_description req, c_domain req with
    | Some title, Some description, Some domain =>
      if Js.empty title || Js.empty description || Js.empty domain
      then mret (mkResponse 400 (JError "Title, description and domain are required"))
      else
        currentUser ← await (user_findUnique (c_userId req));
        match currentUser with
        | None => throw TypeError
        | Some currentUser =>
          if activeProjectCount currentUser >=? 2
          then mret (mkResponse 400 (JError cap_reached))
          else
            created ← await (project_create
              (mkProject (Js.trim title) (Js.trim description) (Js.trim domain)
                         (c_userId req) active));
            _ ← await (projectMember_create created.1 (c_userId req) leader);
            _ ← await (user_update (c_userId req) (increment_activeProjectCount 1));
            mret (mkResponse 201
                    (JCreated "Project created successfully" created.1 created.2))
        end
    | _, _, _ =>
      mret (mkResponse 400 (JError "Title, description and domain are required"))
    end).

Definition joinProject (req : ProjectReq) : Prog Response :=
  handler (
    if Js.falsy (p_projectId req)
    then mret (mkResponse 400 (JError "projectId is required"))
    else
      let projectId := default "" (p_projectId req) in
      currentUser ← await (user_findUnique (p_userId req));
      match currentUser with
      | None => throw TypeError
      | Some currentUser =>
        if activeProjectCount currentUser >=? 2
        then mret (mkResponse 400 (JError cap_reached))
        else
          project ← await (project_findUnique projectId);
          if match project with
             | None => true
             | Some p => bool_decide (status p ≠ active)
             end
          then mret (mkResponse 400 (JError "Project not found or not active"))
          else
            existingMember ← await (projectMember_findUnique projectId (p_userId req));
            match existingMember with
            | Some _ =>
              mret (mkResponse 400 (JError "You are already a member of this project"))
            | None =>
              _ ← await (projectMember_create projectId (p_userId req) member);
              _ ← await (user_update (p_userId req) (increment_activeProjectCount 1));
              mret (mkResponse 200 (JMessage "Successfully joined the project"))
            end
      end).

Definition leaveProject (req : ProjectReq) : Prog Response :=
  handler (
    if Js.falsy (p_projectId req)
    then mret (mkResponse 400 (JError "projectId is required"))
    else
      let projectId := default "" (p_projectId req) in
      membership ← await (projectMember_findUnique projectId (p_userId req));
      match membership with
      | None => mret (mkResponse 404 (JError "You are not a member of this project"))
      | Some _ =>
        project ← await (project_findUnique projectId);
        _ ← await (projectMember_delete projectId (p_userId req));
        match project with
        | None => throw TypeError
        | Some p =>
          _ ← (if bool_decide (status p = active)
               then void (await (user_update (p_userId req)
                                   (decrement_activeProjectCount 1)))
               else mret tt);
          mret (mkResponse 200 (JMessage "Successfully left the project"))
        end
      end).

(** The member updates are built from the members that the first await
    returned; the transaction is one awaited call. *)
Definition completeProject (req : ProjectReq) : Prog Response :=
  handler (
    if Js.falsy (p_projectId req)
    then mret (mkResponse 400 (JError "projectId is required"))
    else
      let projectId := default "" (p_projectId req) in
      project ← await (project_findUnique_members projectId);
      match project with
      | None => mret (mkResponse 404 (JError "Project not found"))
      | Some (project, project_members) =>
        if bool_decide (createdBy project ≠ p_userId req)
        then mret (mkResponse 403
                     (JError "Only the project creator can mark it as completed"))
        else if bool_decide (status project = completed)
        then mret (mkResponse 400 (JError "Project is already completed"))
        else
          let memberUpdates :=
            (λ userId, Store.void (user_update userId (decrement_activeProjectCount 1)))
              <$> project_members in
          _ ← await (transaction
                (Store.void (project_update projectId (assign_status completed))
                 :: memberUpdates));
          mret (mkResponse 200 (JCompleted completed_message projectId))
      end).

(** *** Running requests *)

(** One request served with no other in between: every call is answered
    as soon as it is issued. *)
Fixpoint uninterrupted {A} (p : Prog A) (w : World) : Res A * World :=
  match p with
  | Done r => (r, w)
  | Await call k => let '(r, w') := call w in uninterrupted (k r) w'
  end.

(** The requests in flight. In one step the store answers the pending
    call of request [i], which runs on to its next await or to its
    response; a request that has responded stays as it is. *)
Definition step (i : nat) (pool : list (Prog Response)) (w : World)
    : list (Prog Response) * World :=
  match pool !! i with
  | Some (Await call k) => let '(r, w') := call w in (<[i := k r]> pool, w')
  | _ => (pool, w)
  end.

(** The run of the requests in the order in which the store answers. *)
Fixpoint interleave (schedule : list nat) (pool : list (Prog Response)) (w : World)
    : list (Prog Response) * World :=
  match schedule with
  | [] => (pool, w)
  | i :: schedule' => let '(pool', w') := step i pool w in interleave schedule' pool' w'
  end.

(** The response of a request that is done. *)
Definition response (p : Prog Response) : option Response :=
  match p with
  | Done (Ok r) => Some r
  | _ => None
  end.

End ProjectSteps.

(** * Further handlers of the same files *)

(** ** controllers/notification.controller.js: the route handlers *)

Module NotificationRoutes.
Import Store.

(** [prisma.$transaction([...])] whose results are used: the queries run
    in order, then the commit; a throw rolls the database back. *)
Definition transaction_of {A} (queries : M A) : M A := λ w,
  match (queries ≫= λ a, prisma (λ d, (Ok a, d))) w with
  | (Ok a, w') => (Ok a, w')
  | (Throw e, w') => (Throw e, set_db (db w) w')
  end.

(** [findMany({ where, orderBy: { createdAt: 'desc' }, skip, take })]: the
    table is in insertion order, so newest first is the reverse. *)
Definition notification_findMany (where_ : Notification → bool) (skip take : Z)
    : M (list Notification) :=
  prisma (λ d,
    (Ok (List.firstn (Z.to_nat take)
           (List.skipn (Z.to_nat skip)
              (List.rev (List.filter where_ (notifications d))))), d)).

Definition notification_count (where_ : Notification → bool) : M Z :=
  prisma (λ d, (Ok (Z.of_nat (length (List.filter where_ (notifications d)))), d)).

(** [updateMany({ where, data })] *)
Definition notification_updateMany (where_ : Notification → bool)
    (data : Notification → Notification) : M unit :=
  prisma (λ d,
    (Ok tt, set_notifications
              (List.map (λ n, if where_ n then data n else n)) d)).

Definition assign_n_isRead (b : bool) (n : Notification) : Notification :=
  mkNotification (n_userId n) (n_type n) (n_title n) (n_message n) b.

(** [req.user.userId] and [req.query]. [page] and [limit] are the numbers
    [Number(page)] and [Number(limit)] of an integer query value, or
    absent. *)
Record Query := mkQuery {
  q_userId : string;
  q_page : option Z;
  q_limit : option Z;
  q_unreadOnly : option string }.

Record Pagination := mkPagination {
  page : Z;
  limit : Z;
  total : Z;
  hasMore : bool }.

Inductive Json :=
| JError (error : string)
| JMessage (message : string)
| JNotifications (notifications : list Notification) (unreadCount : Z)
                 (pagination : Pagination).

Record Response := mkResponse {
  statusCode : nat;
  json : Json }.

Definition internal_error : Response :=
  mkResponse 500 (JError "Internal server error").

Definition handler (body : M Response) : World → Response * World := λ w,
  match body w with
  | (Ok r, w') => (r, w')
  | (Throw _, w') => (internal_error, w')
  end.

(** [Math.min(Math.max(Number(limit), 1), 50)] and
    [(Math.max(Number(page), 1) - 1) * take] *)
Definition take_of (limit : Z) : Z := Z.min (Z.max limit 1) 50.
Definition skip_of (page limit : Z) : Z := (Z.max page 1 - 1) * take_of limit.

(** The [where] object of getNotifications. *)
Definition where_of (userId : string) (unreadOnly : string) (n : Notification) : bool :=
  bool_decide (n_userId n = userId)
  && (if bool_decide (unreadOnly = "true") then negb (n_isRead n) else true).

Definition unread_of (userId : string) (n : Notification) : bool :=
  bool_decide (n_userId n = userId) && negb (n_isRead n).

(** The rows are returned whole; the [select] of the source leaves the
    [userId] column out of the answer. *)
Definition getNotifications (req : Query) : World → Response * World :=
  handler (
    let page := default 1 (q_page req) in
    let limit := default 20 (q_limit req) in
    let unreadOnly := default "false" (q_unreadOnly req) in
    let take := take_of limit in
    let skip := skip_of page limit in
    let where_ := where_of (q_userId req) unreadOnly in
    result ← transaction_of
      (notifications ← notification_findMany where_ skip take;
       total ← notification_count where_;
       unreadCount ← notification_count (unread_of (q_userId req));
       mret (notifications, total, unreadCount));
    let '(notifications, total, unreadCount) := result in
    mret (mkResponse 200
            (JNotifications notifications unreadCount
               (mkPagination page take total
                  (bool_decide (Z.of_nat (length notifications) = take)))))).

Definition markAllAsRead (userId : string) : World → Response * World :=
  handler (
    _ ← notification_updateMany (unread_of userId) (assign_n_isRead true);
    mret (mkResponse 200 (JMessage "All notifications marked as read"))).

End NotificationRoutes.

(** ** controllers/project.controller.js: getProjectDetails *)

Module ProjectQueries.
Import Store.

Inductive Json :=
| JError (error : string)
| JDetails (project : Project) (members : list string) (isMember : bool)
           (memberCount : nat).

Record Response := mkResponse {
  statusCode : nat;
  json : Json }.

Definition internal_error : Response :=
  mkResponse 500 (JError "Internal server error").

Definition handler (body : M Response) : World → Response * World := λ w,
  match body w with
  | (Ok r, w') => (r, w')
  | (Throw _, w') => (internal_error, w')
  end.

(** [req.params.projectId] is a path segment, always a string. Of each
    member the answer keeps the [userId]. *)
Definition getProjectDetails (userId projectId : string) : World → Response * World :=
  handler (
    project ← project_findUnique_members projectId;
    match project with
    | None => mret (mkResponse 404 (JError "Project not found"))
    | Some (project, project_members) =>
      let isMember := existsb (λ m, bool_decide (m = userId)) project_members in
      mret (mkResponse 200
              (JDetails project project_members isMember (length project_members)))
    end).

End ProjectQueries.

(** ** services/matching.service.js: getRecommendedUsers *)

Module Ranking.
Import Store.

(** [Array.prototype.sort(compare)], which is stable. [after a b] is
    [compare(a, b) > 0]: [b] has to come before [a]. *)
Fixpoint sort_insert {A} (after : A → A → bool) (x : A) (l : list A) : list A :=
  match l with
  | [] => [x]
  | y :: l' => if after x y then y :: sort_insert after x l' else x :: l
  end.

Definition sort {A} (after : A → A → bool) (l : list A) : list A :=
  foldr (sort_insert after) [] l.

(** A row of the user table with its included relations: the ids of the
    user's skills and of the user's domains. *)
Record Profile := mkProfile {
  id : string;
  name : string;
  reputationScore : Z;
  isAvailable : bool;
  activeProjectCount : Z;
  skills : list string;
  domains : list string }.

Record Scored := mkScored {
  s_id : string;
  s_name : string;
  s_reputationScore : Z;
  s_isAvailable : bool;
  s_activeProjectCount : Z;
  skillMatchPercent : Z;
  domainMatchPercent : Z;
  recentActivityScore : Z;
  rankingScore : Q }.

Section Numbers.

Variable fl : Q → Q.

Definition js_add (a b : Q) : Q := fl (a + b).

Definition calculateDomainMatchPercent (myDomainIds candidateDomainIds : gset string) : Z :=
  let intersection := Matching.intersection_length myDomainIds candidateDomainIds in
  let union :=
    Z.of_nat (size myDomainIds) + Z.of_nat (size candidateDomainIds) - intersection in
  if 0 <? union
  then Matching.Math_round
         (Matching.js_mul fl
            (Matching.js_div fl (inject_Z intersection) (inject_Z union)) 100)
  else 0.

(** The candidate pool: [findMany] with the [where], [orderBy] and [take]
    of the source, on the table in the order the database holds it. *)
Definition candidates_of (table : list Profile) (currentUserId : string) : list Profile :=
  List.firstn 100
    (sort (λ a b, reputationScore a <? reputationScore b)
       (filter (λ u, id u ≠ currentUserId ∧ isAvailable u = true
                     ∧ 70 ≤ reputationScore u) table)).

(** The literals 0.5, 0.3 and 0.2 are the doubles nearest to them. *)
Definition score (mySkillIds myDomainIds : gset string) (candidate : Profile) : Scored :=
  let candidateSkillIds : gset string := list_to_set (skills candidate) in
  let candidateDomainIds : gset string := list_to_set (domains candidate) in
  let skillMatchPercent :=
    Matching.calculateSkillMatchPercent fl mySkillIds candidateSkillIds in
  let domainMatchPercent := calculateDomainMatchPercent myDomainIds candidateDomainIds in
  let recentActivityScore :=
    Matching.calculateRecentActivityScore (activeProjectCount candidate) in
  let rankingScore :=
    js_add
      (js_add
         (Matching.js_mul fl (fl (1 # 2)) (inject_Z (reputationScore candidate)))
         (Matching.js_mul fl (fl (3 # 10)) (inject_Z skillMatchPercent)))
      (Matching.js_mul fl (fl (2 # 10)) (inject_Z recentActivityScore)) in
  mkScored (id candidate) (name candidate) (reputationScore candidate)
    (isAvailable candidate) (activeProjectCount candidate)
    skillMatchPercent domainMatchPercent recentActivityScore
    (Matching.js_div fl
       (inject_Z (Matching.Math_round (Matching.js_mul fl rankingScore 10))) 10).

(** [b.rankingScore - a.rankingScore > 0]; the difference of two doubles
    is positive exactly when the first is the larger. *)
Definition ranks_after (a b : Scored) : bool :=
  negb (Qle_bool (rankingScore b) (rankingScore a)).

(** The two reads are given as the user table; a missing current user is
    the [Error] of the source. *)
Definition getRecommendedUsers (table : list Profile) (currentUserId : string)
    : Res (list Scored) :=
  match List.find (λ u, bool_decide (id u = currentUserId)) table with
  | None => Throw (JsError "Current user not found")
  | Some currentUser =>
    let mySkillIds : gset string := list_to_set (skills currentUser) in
    let myDomainIds : gset string := list_to_set (domains currentUser) in
    let candidates := candidates_of table currentUserId in
    let scoredCandidates := score mySkillIds myDomainIds <$> candidates in
    Ok (List.firstn 20 (sort ranks_after scoredCandidates))
  end.

End Numbers.

End Ranking.

(** * Vocabulary of the statements *)

Module Spec.
Import Store.

(** One element of [memberUpdates] in completeProject. *)
Definition memberUpdate (uid : string) : M unit :=
  void (user_update uid (decrement_activeProjectCount 1)).

(** The users table after one decrement for each id of a list. *)
Definition decrement_all (l : list string) (m : gmap string User) : gmap string User :=
  foldl (λ m uid, alter (decrement_activeProjectCount 1) uid m) m l.

(** [d'] is [d] after the completion of project [pid]: the row of the
    project has status completed and its other columns as before, every
    member of it has a user row whose count went down by exactly one and
    whose other columns are as before, and nothing else changed. *)
Definition completed_from (pid : string) (d d' : DB) : Prop :=
  (∃ p, projects d !! pid = Some p
        ∧ projects d'
          = <[pid := mkProject (title p) (description p) (domain p) (createdBy p)
                               completed]> (projects d))
  ∧ (∀ uid, is_Some (members d !! (pid, uid)) →
       ∃ u, users d !! uid = Some u
            ∧ users d' !! uid
              = Some (mkUser (name u) (reputationScore u) (activeProjectCount u - 1)))
  ∧ (∀ uid, members d !! (pid, uid) = None → users d' !! uid = users d !! uid)
  ∧ members d' = members d
  ∧ reputationLog d' = reputationLog d
  ∧ messages d' = messages d
  ∧ notifications d' = notifications d.

(** Exact arithmetic, the simplest rounding of a rational: none. *)
Definition exact_arithmetic (x : Q) : Q := x.

End Spec.

(** * Concrete worlds

    Small closed states on which the definitions are evaluated. *)

Module Scenario.
Import Store.

(** One user with reputation 10 and nothing else. *)
Definition w0 : World :=
  mkWorld (mkDB {["u" := mkUser "U" 10 0]} ∅ ∅ [] ∅ []) [] 0 ∅ ∅ [].

(** A user who already is in two active projects, and an active project
    of somebody else. *)
Definition w_cap : World :=
  mkWorld (mkDB {["u2" := mkUser "V" 80 2; "o" := mkUser "O" 90 1]}
                {["p" := mkProject "T" "D" "web" "o" active]}
                {[("p", "o") := leader]} [] ∅ [])
          [] 0 ∅ ∅ [].

(** Project "p" of "a" with members "a", "b" and "c", one active project
    each. *)
Definition w_team : World :=
  mkWorld (mkDB {["a" := mkUser "A" 80 1; "b" := mkUser "B" 75 1;
                  "c" := mkUser "C" 90 1]}
                {["p" := mkProject "T" "D" "web" "a" active]}
                {[("p", "a") := leader; ("p", "b") := member;
                  ("p", "c") := member]} [] ∅ [])
          [] 0 ∅ ∅ [].

(** Three users, one stored message from "alice" to "bob", nobody
    connected. *)
Definition w_chat : World :=
  mkWorld (mkDB {["alice" := mkUser "Alice" 80 0; "bob" := mkUser "Bob" 80 0;
                  "carol" := mkUser "Carol" 80 0]}
                ∅ ∅ []
                {["m1" := mkMessage "alice" "bob" "hi" false]} [])
          [] 0 ∅ ∅ [].

(** "carol" connected and authenticated on socket "s3". *)
Definition w_carol : World :=
  Socket.authenticate "s3" (Socket.validToken (Some "carol"))
    (Socket.connection "s3" w_chat).

(** "alice" connected and authenticated on socket "s1", nothing emitted
    yet. *)
Definition w_alice : World :=
  set_outbox []
    (Socket.authenticate "s1" (Socket.validToken (Some "alice"))
       (Socket.connection "s1" w_chat)).

(** "bob" authenticates on "c1", reconnects and authenticates on "c2",
    then the old connection "c1" goes away. *)
Definition w_reconnected : World :=
  let w := Socket.connection "c1" w_chat in
  let w := Socket.authenticate "c1" (Socket.validToken (Some "bob")) w in
  let w := Socket.connection "c2" w in
  let w := Socket.authenticate "c2" (Socket.validToken (Some "bob")) w in
  Socket.run (Socket.disconnect "c1") w.

(** The same without the disconnect of "c1". *)
Definition w_two_connections : World :=
  let w := Socket.connection "c1" w_chat in
  let w := Socket.authenticate "c1" (Socket.validToken (Some "bob")) w in
  let w := Socket.connection "c2" w in
  Socket.authenticate "c2" (Socket.validToken (Some "bob")) w.

(** "bob" on his only connection "c1", and after it is gone. *)
Definition w_online : World :=
  Socket.authenticate "c1" (Socket.validToken (Some "bob"))
    (Socket.connection "c1" w_chat).
Definition w_offline : World :=
  Socket.run (Socket.disconnect "c1") w_online.

End Scenario.

(** * The count invariant *)

Module Invariant.
Import Store.

(** A membership row counts for user [uid] when it is a row of that user
    in a project whose status is active. *)
Definition counts_for (d : DB) (uid : string) (row : string * string * Role) : Prop :=
  row.1.2 = uid ∧ (status <$> projects d !! row.1.1) = Some active.

#[global] Instance counts_for_dec d uid row : Decision (counts_for d uid row).
Proof. unfold counts_for. apply _. Defined.

Definition active_memberships (d : DB) (uid : string) : nat :=
  size (filter (counts_for d uid) (members d)).

(** Every membership row points at a project and at a user, and the
    [activeProjectCount] of every user is the number of the user's
    memberships in active projects. *)
Definition consistent (d : DB) : Prop :=
  (∀ pid uid, is_Some (members d !! (pid, uid)) →
     is_Some (projects d !! pid) ∧ is_Some (users d !! uid))
  ∧ (∀ uid u, users d !! uid = Some u →
       activeProjectCount u = Z.of_nat (active_memberships d uid)).

End Invariant.

(** * Triples for runs under any behaviour of the store *)

Module Triple.
Import Store.

(** From a database that satisfies [P], the run of [m] ends, whatever
    the store's failures, in a database that satisfies [Q a] when it
    returns [a] and [E] when it throws. *)
Definition triple {A} (P : DB → Prop) (m : M A) (Q : A → DB → Prop) (E : DB → Prop)
    : Prop :=
  ∀ w, P (db w) →
    match m w with
    | (Ok a, w') => Q a (db w')
    | (Throw _, w') => E (db w')
    end.

(** No user is above the cap of two active projects. *)
Definition capped (d : DB) : Prop :=
  ∀ uid u, users d !! uid = Some u → activeProjectCount u ≤ 2.

(** What it takes of a property of the database to survive each kind of
    write the project handlers issue. *)
Definition kept_by_project_insert (I : DB → Prop) : Prop :=
  ∀ d id p, I d → projects d !! id = None → I (set_projects <[id := p]> d).
Definition kept_by_completion (I : DB → Prop) : Prop :=
  ∀ d id p, I d → projects d !! id = Some p →
    I (set_projects <[id := assign_status completed p]> d).
Definition kept_by_member_insert (I : DB → Prop) : Prop :=
  ∀ d k r, I d → members d !! k = None → I (set_members <[k := r]> d).
Definition kept_by_member_delete (I : DB → Prop) : Prop :=
  ∀ d k, I d → I (set_members (delete k) d).
Definition kept_by_increment (I : DB → Prop) : Prop :=
  ∀ d uid u, I d → users d !! uid = Some u →
    I (set_users <[uid := increment_activeProjectCount 1 u]> d).
Definition kept_by_decrement (I : DB → Prop) : Prop :=
  ∀ d uid u, I d → users d !! uid = Some u →
    I (set_users <[uid := decrement_activeProjectCount 1 u]> d).

End Triple.

(** * Requests served alone and requests that overlap *)

Module Serving.
Import Store ProjectController.

(** The body [p] of a handler, served with no other request in between,
    gives the response and the world that the body [m] gives. *)
Definition agree (p : ProjectSteps.Prog Response) (m : M Response) : Prop :=
  ∀ w, ProjectSteps.uninterrupted (ProjectSteps.handler p) w
       = (Ok (handler m w).1, (handler m w).2).

End Serving.

(** * Further vocabulary *)

Module Vocabulary2.
Import Store.

(** What markAllAsRead of a user does to one row. *)
Definition read_if_own (uid : string) (n : Notification) : Notification :=
  if NotificationRoutes.unread_of uid n
  then NotificationRoutes.assign_n_isRead true n
  else n.

(** The string of the bytes with the given codes. *)
Definition of_bytes (l : list nat) : string :=
  foldr (λ n s, String (ascii_of_nat n) s) EmptyString l.

(** The white space and line terminators of ECMAScript in UTF-8: U+0009
    to U+000D, U+0020, U+00A0, U+1680, U+2000 to U+200A, U+2028, U+2029,
    U+202F, U+205F, U+3000 and U+FEFF. *)
Definition white_space : list string :=
  of_bytes <$>
    [[9]; [10]; [11]; [12]; [13]; [32]; [194; 160]; [225; 154; 128];
     [226; 128; 128]; [226; 128; 129]; [226; 128; 130]; [226; 128; 131];
     [226; 128; 132]; [226; 128; 133]; [226; 128; 134]; [226; 128; 135];
     [226; 128; 136]; [226; 128; 137]; [226; 128; 138];
     [226; 128; 168]; [226; 128; 169]; [226; 128; 175]; [226; 129; 159];
     [227; 128; 128]; [239; 187; 191]]%nat.

(** A string of white space only, the empty string included. *)
Inductive blank : string → Prop :=
| blank_empty : blank EmptyString
| blank_space ws s : ws ∈ white_space → blank s → blank (ws +:+ s).

(** No byte of the string is [c]. *)
Fixpoint without (c : ascii) (s : string) : bool :=
  match s with
  | String c' s' => negb (bool_decide (c' = c)) && without c s'
  | EmptyString => true
  end.

End Vocabulary2.

(** * Further concrete worlds *)

Module Scenario2.
Import Store.

(** Three users without projects; the store will hand out the id "0". *)
Definition w_fresh : World :=
  mkWorld (mkDB {["a" := mkUser "A" 80 0; "b" := mkUser "B" 75 0;
                  "c" := mkUser "C" 90 0]} ∅ ∅ [] ∅ [])
          [] 0 ∅ ∅ [].

(** "a" has created project "0" on [w_fresh]. *)
Definition w_project : World :=
  (ProjectController.createProject
     (ProjectController.mkCreateReq "a" (Some "T") (Some "D") (Some "web"))
     w_fresh).2.

(** Then "a" has completed it. *)
Definition w_completed : World :=
  (ProjectController.completeProject
     (ProjectController.mkProjectReq "a" (Some "0")) w_project).2.

(** An inbox: three notifications of "bob", one of them read, and one
    of "carol", in the order they were stored. *)
Definition w_inbox : World :=
  mkWorld (mkDB {["bob" := mkUser "Bob" 80 0; "carol" := mkUser "Carol" 80 0]}
                ∅ ∅ [] ∅
                [mkNotification "bob" "project_invite" "Invite" "Join us" false;
                 mkNotification "carol" "match_found" "Match" "A match" false;
                 mkNotification "bob" "rating_received" "Rating" "Rated" true;
                 mkNotification "bob" "message_received" "Message" "Hi" false])
          [] 0 ∅ ∅ [].

(** [w_team] with a fourth user "d", who is in no project. *)
Definition w_team_d : World :=
  set_db (set_users <["d" := mkUser "D" 70 0]> (db Scenario.w_team)) Scenario.w_team.

(** "u" leads the active project "p0"; "o" leads the active projects
    "p1" and "p2". *)
Definition w_two_offers : World :=
  mkWorld (mkDB {["u" := mkUser "U" 80 1; "o" := mkUser "O" 90 2]}
                {["p0" := mkProject "T0" "D" "web" "u" active;
                  "p1" := mkProject "T1" "D" "web" "o" active;
                  "p2" := mkProject "T2" "D" "web" "o" active]}
                {[("p0", "u") := leader; ("p1", "o") := leader;
                  ("p2", "o") := leader]} [] ∅ [])
          [] 0 ∅ ∅ [].

(** A user table for the recommendation: the requester "me", a candidate
    who shares one of two skills, a busier one with the same reputation,
    one who is not available and one below the reputation threshold. *)
Definition profiles : list Ranking.Profile :=
  [Ranking.mkProfile "me" "Me" 85 true 0 ["js"; "sql"] ["web"];
   Ranking.mkProfile "p1" "P1" 80 true 2 ["go"] ["web"];
   Ranking.mkProfile "p2" "P2" 80 true 0 ["sql"; "go"; "rust"] [];
   Ranking.mkProfile "p3" "P3" 95 false 0 ["js"; "sql"] ["web"];
   Ranking.mkProfile "p4" "P4" 69 true 0 ["js"; "sql"] ["web"]].

End Scenario2.

(** * Properties *)

(** ** Running the monad *)

Section MonadLemmas.
Import Store.

Lemma bind_Ok {A B} (m : M A) (k : A → M B) w b w' :
  (m ≫= k) w = (Ok b, w') →
  ∃ a w1, m w = (Ok a, w1) ∧ k a w1 = (Ok b, w').
Proof.
  unfold mbind, M_bind. destruct (m w) as [[a|e] w1] eqn:E; [eauto | discriminate].
Qed.

Lemma bind_step {A B} (m : M A) (k : A → M B) w a w1 :
  m w = (Ok a, w1) → (m ≫= k) w = k a w1.
Proof. unfold mbind, M_bind. by intros ->. Qed.

Lemma bind_throw {A B} (m : M A) (k : A → M B) w e w1 :
  m w = (Throw e, w1) → (m ≫= k) w = (Throw e, w1).
Proof. unfold mbind, M_bind. by intros ->. Qed.

(** A store call that answered ran its query on the database, and left
    the rest of the process alone. *)
Lemma prisma_Ok {A} (q : DB → Res A * DB) w a w' :
  prisma q w = (Ok a, w') →
  q (db w) = (Ok a, db w') ∧ w' = set_db (db w') (set_faults (tail (faults w)) w).
Proof.
  unfold prisma. destruct (faults w) as [|[] fs] eqn:F; try discriminate;
    destruct (q (db w)) as [r d]; intros [= -> <-]; simpl; split; try done.
  destruct w; simpl in *; by subst.
Qed.

Lemma prisma_healthy {A} (q : DB → Res A * DB) w :
  faults w = [] → prisma q w = ((q (db w)).1, set_db (q (db w)).2 w).
Proof. unfold prisma. intros ->. by destruct (q (db w)). Qed.

End MonadLemmas.

(** ** The reputation ledger *)

Section ReputationLemmas.
Import Store Reputation.

Lemma rateTeammate_Ok r u p rating w res w' :
  rateTeammate r u p rating w = (Ok res, w') →
  ∃ usr,
    users (db w) !! u = Some usr ∧ 1 ≤ rating ≤ 5 ∧
    res = mkRateResult "Rating recorded successfully" (adjustment_of rating)
            (Js.max0 (reputationScore usr + adjustment_of rating + adjustment_of rating)) ∧
    db w' =
      set_reputationLog
        (λ ls, ls ++ [mkReputationLog u p (adjustment_of rating) (reason_of r rating)])
        (set_users
           <[u := mkUser (name usr)
                         (Z.max 0 (reputationScore usr + adjustment_of rating))
                         (activeProjectCount usr)]>
           (db w)).
Proof.
  unfold rateTeammate.
  destruct ((rating <? 1) || (rating >? 5)) eqn:Hr; [discriminate|].
  intros H.
  apply bind_Ok in H as (ex & w1 & H1 & H).
  apply prisma_Ok in H1 as [H1 Hw1]. injection H1 as Hex Hd1.
  destruct ex; [discriminate|].
  apply bind_Ok in H as (upd & w2 & H2 & H).
  apply prisma_Ok in H2 as [H2 Hw2].
  rewrite <- Hd1 in H2.
  destruct (users (db w) !! u) as [usr|] eqn:Hu; [|discriminate].
  injection H2 as Hupd Hd2.
  exists usr. split; [done|]. split; [lia|].
  apply bind_Ok in H as ([] & w3 & H3 & H).
  apply bind_Ok in H as ([] & w4 & H4 & H).
  injection H as <- <-.
  apply prisma_Ok in H4 as [H4 Hw4]. injection H4 as Hd4.
  subst upd. simpl in *.
  split.
  { unfold Js.max0. reflexivity. }
  rewrite <- Hd4.
  destruct (reputationScore usr + adjustment_of rating <? 0) eqn:Hneg.
  - apply bind_Ok in H3 as (u3 & w3' & H3 & H3').
    injection H3' as <-.
    apply prisma_Ok in H3 as [H3 Hw3].
    rewrite <- Hd2 in H3. simpl in H3. rewrite lookup_insert_eq in H3.
    injection H3 as _ Hd3. rewrite <- Hd3.
    unfold set_reputationLog, set_users; simpl. f_equal.
    rewrite insert_insert_eq. f_equal. unfold assign_reputationScore; simpl.
    f_equal. lia.
  - injection H3 as <-. rewrite <- Hd2.
    unfold set_reputationLog, set_users; simpl. f_equal. f_equal.
    unfold increment_reputationScore. f_equal. lia.
Qed.
(** Property X12. With a store that answers, a valid rating of an
    existing user that the guard does not take for a duplicate goes
    through. *)
Lemma rateTeammate_healthy r u p rating w usr :
  faults w = [] →
  1 ≤ rating ≤ 5 →
  users (db w) !! u = Some usr →
  List.find (λ l, bool_decide (userId l = u) && bool_decide (projectId l = p)
                  && startsWith (reason l) (reason_prefix r))
            (reputationLog (db w)) = None →
  ∃ res w', rateTeammate r u p rating w = (Ok res, w').
Proof.
  intros Hf Hr Hu Hfind. unfold rateTeammate.
  replace ((rating <? 1) || (rating >? 5)) with false by lia.
  erewrite bind_step.
  2: { unfold reputationLog_findFirst. rewrite prisma_healthy by done.
       simpl. rewrite Hfind. reflexivity. }
  simpl.
  erewrite bind_step.
  2: { unfold user_update. rewrite prisma_healthy by (by destruct w).
       simpl. rewrite Hu. reflexivity. }
  simpl.
  destruct (reputationScore usr + adjustment_of rating <? 0).
  - erewrite bind_step.
    2: { unfold void, user_update. erewrite bind_step; [reflexivity|].
         rewrite prisma_healthy by (by destruct w).
         simpl. rewrite lookup_insert_eq. reflexivity. }
    erewrite bind_step.
    2: { unfold reputationLog_create. rewrite prisma_healthy by (by destruct w).
         reflexivity. }
    eexists _, _. reflexivity.
  - erewrite bind_step by reflexivity.
    erewrite bind_step.
    2: { unfold reputationLog_create. rewrite prisma_healthy by (by destruct w).
         reflexivity. }
    eexists _, _. reflexivity.
Qed.
End ReputationLemmas.

Section ReputationClaims.
Import Store Reputation Scenario.





End ReputationClaims.

Section ReputationFailures.
Import Store Reputation Scenario Vocabulary2.

Lemma like_percent pattern text :
  like (String "%" pattern) text
  = like pattern text
    || match text with
       | String _ text' => like (String "%" pattern) text'
       | EmptyString => false
       end.
Proof. by destruct text. Qed.

Lemma like_percent_all text : like "%" text = true.
Proof.
  induction text as [|c text IH]; [reflexivity|].
  rewrite like_percent. by rewrite IH, orb_true_r.
Qed.

(** A pattern without a backslash, followed by [%], matches every text
    that starts with the pattern itself: [%] and [_] match themselves
    too. *)
Lemma like_self (p s : string) :
  without backslash p = true → like (p +:+ "%") (p +:+ s) = true.
Proof.
  induction p as [|c p IH]; intros Hp.
  - apply like_percent_all.
  - simpl in Hp. apply andb_true_iff in Hp as [Hc Hp].
    apply negb_true_iff, bool_decide_eq_false in Hc.
    specialize (IH Hp).
    change (like (String c (p +:+ "%")) (String c (p +:+ s)) = true).
    destruct (decide (c = "%"%char)) as [->|H1].
    { rewrite like_percent. rewrite (like_percent _ (p +:+ s)).
      by rewrite IH, !orb_true_r. }
    destruct (decide (c = "_"%char)) as [->|H2].
    { exact IH. }
    simpl. rewrite !bool_decide_eq_false_2 by done.
    by rewrite bool_decide_eq_true_2.
Qed.

Lemma append_assoc (a b c : string) : (a +:+ b) +:+ c = a +:+ b +:+ c.
Proof.
  induction a as [|x a IH]; [done|].
  change (String x ((a +:+ b) +:+ c) = String x (a +:+ b +:+ c)). by rewrite IH.
Qed.

Lemma find_None_not_elem {A} (f : A → bool) (l : list A) x :
  List.find f l = None → x ∈ l → f x = false.
Proof.
  intros Hf Hx. apply list_elem_of_In in Hx.
  exact (List.find_none f l Hf x Hx).
Qed.

(** Property X13. Once a rating went through, the same rater, whose id
    has no backslash, cannot rate the same teammate for the same project
    again: the second call throws before it writes, whatever the rating,
    and it is the duplicate error unless the store fails to answer the
    lookup. A backslash in the id is an escape in the pattern of the
    guard, which then does not match the rater's own row. *)
Lemma rate_twice_rejected r u p x y w res w' w1 :
  without backslash r = true →
  rateTeammate r u p x w = (Ok res, w') →
  db w1 = db w' →
  ∃ e w2, rateTeammate r u p y w1 = (Throw e, w2) ∧ db w2 = db w1
    ∧ (1 ≤ y ≤ 5 → head (faults w1) ≠ Some true → e = JsError already_rated).
Proof.
  intros Hr H Hdb.
  apply rateTeammate_Ok in H as (usr & _ & _ & _ & Hdb').
  unfold rateTeammate.
  destruct ((y <? 1) || (y >? 5)) eqn:Hy.
  { eexists _, _. split; [reflexivity|]. split; [done|]. lia. }
  set (where_ := λ l : ReputationLog, _).
  assert (Hfind : ∃ l, List.find where_ (reputationLog (db w1)) = Some l).
  { destruct (List.find where_ (reputationLog (db w1))) eqn:E; [eauto|].
    exfalso.
    eapply (find_None_not_elem _ _
              (mkReputationLog u p (adjustment_of x) (reason_of r x))) in E.
    - subst where_. simpl in E. rewrite !bool_decide_eq_true_2 in E by done.
      unfold startsWith, reason_of, reason_prefix in E.
      rewrite <- append_assoc in E. rewrite like_self in E; [done|].
      exact Hr.
    - rewrite Hdb, Hdb'. simpl. apply elem_of_app. right. by apply list_elem_of_singleton. }
  destruct Hfind as [l Hl].
  unfold mbind at 1, M_bind, reputationLog_findFirst, prisma.
  destruct (faults w1) as [|[] fs] eqn:F; simpl; rewrite ?Hl; simpl.
  - eexists _, _. split; [reflexivity|]. by destruct w1.
  - eexists _, _. split; [reflexivity|]. split; [done|]. intros _ Hh. by destruct Hh.
  - eexists _, _. split; [reflexivity|]. by destruct w1.
Qed.

(** Claim C1, evaluated where it breaks. Rater "u12" rates "u" for "p1";
    the log then holds no row of rater "u1". Yet the call of rater "u1"
    for the same teammate and project is rejected as a duplicate and
    changes nothing: the guard compares a prefix of the free-text reason,
    and "Rating from user u1" is a prefix of "Rating from user u12: 4/5". *)
Theorem rate_duplicate_guard_prefix_collision :
  let first := rateTeammate "u12" "u" "p1" 4 w0 in
  first.1 = Ok (mkRateResult "Rating recorded successfully" 5 20)
  ∧ (∀ l k, l ∈ reputationLog (db first.2) → reason l ≠ reason_of "u1" k)
  ∧ rateTeammate "u1" "u" "p1" 5 first.2 = (Throw (JsError already_rated), first.2).
Proof.
  split; [reflexivity|]. split; [|reflexivity].
  intros l k Hl. cbn in Hl.
  apply list_elem_of_singleton in Hl as ->. simpl. unfold reason_of. simpl.
  discriminate.
Qed.

(** The pattern of the guard is not escaped. After rater "ua", rater
    "u_" is taken for a duplicate: the underscore stands for any
    character. And a rater whose id is a, backslash, b rates the same
    teammate for the same project twice: in the pattern the backslash
    escapes the b, so the pattern does not match the rater's own row. *)
Example rate_guard_wildcards :
  let first := rateTeammate "ua" "u" "p1" 4 w0 in
  let r := of_bytes [97; 92; 98]%nat in
  let once := rateTeammate r "u" "p1" 4 w0 in
  rateTeammate "u_" "u" "p1" 5 first.2 = (Throw (JsError already_rated), first.2)
  ∧ once.1 = Ok (mkRateResult "Rating recorded successfully" 5 20)
  ∧ (rateTeammate r "u" "p1" 4 once.2).1
    = Ok (mkRateResult "Rating recorded successfully" 5 25).
Proof. vm_compute. repeat split. Qed.

(** Claim C4, evaluated where it breaks. The store answers the duplicate
    lookup and the score update and then fails the insert of the log row:
    the call throws, the score of "u" went from 10 to 15, and the log has
    no row for it. *)
Theorem rate_score_without_log_entry :
  let w := set_faults [false; false; true] w0 in
  rateTeammate "r1" "u" "p1" 4 w
  = (Throw StoreUnavailable,
     set_db (set_users <["u" := mkUser "U" 15 0]> (db w0)) w0)
  ∧ reputationLog (db (rateTeammate "r1" "u" "p1" 4 w).2) = [].
Proof. split; reflexivity. Qed.

End ReputationFailures.
(** ** The membership state machine *)

Section CapClaim.
Import Store ProjectController.

Lemma falsy_Some_empty s : Js.falsy (Some s) = Js.empty s.
Proof. reflexivity. Qed.

Lemma cap_paths w uid usr :
  users (db w) !! uid = Some usr →
  2 ≤ activeProjectCount usr →
  (∀ req, c_userId req = uid →
     db (createProject req w).2 = db w
     ∧ (400 ≤ statusCode (createProject req w).1)%nat
     ∧ (Js.falsy (c_title req) = false → Js.falsy (c_description req) = false →
        Js.falsy (c_domain req) = false → head (faults w) ≠ Some true →
        (createProject req w).1 = mkResponse 400 (JError cap_reached)))
  ∧ (∀ req, p_userId req = uid →
     db (joinProject req w).2 = db w
     ∧ (400 ≤ statusCode (joinProject req w).1)%nat
     ∧ (Js.falsy (p_projectId req) = false → head (faults w) ≠ Some true →
        (joinProject req w).1 = mkResponse 400 (JError cap_reached))).
Proof.
  intros Hu Hcap.
  assert (Hge : (activeProjectCount usr >=? 2) = true) by lia.
  split.
  - intros [uid' t d m] Hid. simpl in Hid. subst uid'.
    unfold createProject, handler. simpl.
    destruct t as [t|], d as [d|], m as [m|]; simpl;
      try (split; [done|]; split; [lia|]; intros; done).
    destruct (Js.empty t) eqn:Et; simpl.
    { split; [done|]. split; [lia|]. unfold Js.empty in *; intros; congruence. }
    destruct (Js.empty d) eqn:Ed; simpl.
    { split; [done|]. split; [lia|]. unfold Js.empty in *; intros; congruence. }
    destruct (Js.empty m) eqn:Em; simpl.
    { split; [done|]. split; [lia|]. unfold Js.empty in *; intros; congruence. }
    unfold mbind, M_bind, user_findUnique, prisma.
    destruct (faults w) as [|[] fs] eqn:F; simpl; rewrite ?Hu, ?Hge; simpl.
    + split; [by destruct w|]. split; [lia|]. done.
    + split; [done|]. split; [lia|]. intros _ _ _ H. by destruct H.
    + split; [by destruct w|]. split; [lia|]. done.
  - intros [uid' pid] Hid. simpl in Hid. subst uid'.
    unfold joinProject, handler. simpl.
    destruct (Js.falsy pid) eqn:Ep; simpl.
    { split; [done|]. split; [lia|]. unfold Js.empty in *; intros; congruence. }
    unfold mbind, M_bind, user_findUnique, prisma.
    destruct (faults w) as [|[] fs] eqn:F; simpl; rewrite ?Hu, ?Hge; simpl.
    + split; [by destruct w|]. split; [lia|]. done.
    + split; [done|]. split; [lia|]. intros _ H. by destruct H.
    + split; [by destruct w|]. split; [lia|]. done.
Qed.

(** The request body is checked before anything is read. *)
Lemma validation_first w :
  (∀ req,
     Js.falsy (c_title req) = true ∨ Js.falsy (c_description req) = true
     ∨ Js.falsy (c_domain req) = true →
     createProject req w
     = (mkResponse 400 (JError "Title, description and domain are required"), w))
  ∧ (∀ req, Js.falsy (p_projectId req) = true →
       joinProject req w = (mkResponse 400 (JError "projectId is required"), w)).
Proof.
  split.
  - intros [uid [t|] [d|] [m|]] H; try reflexivity.
    unfold createProject, handler. cbn [c_title c_description c_domain] in *.
    rewrite !falsy_Some_empty in H.
    replace (Js.empty t || Js.empty d || Js.empty m) with true; [reflexivity|].
    symmetry. destruct H as [->|[->| ->]];
      [done | by rewrite orb_true_r | by rewrite orb_true_r].
  - intros req H. unfold joinProject, handler. by rewrite H.
Qed.

(** Claim C2, amended. For a user whose activeProjectCount is at least 2,
    createProject and joinProject by that user never change the database
    and never answer with a success status; when the request carries a
    title, a description and a domain (for joinProject: a projectId) and
    the store answers the lookup of the user, the answer is the 400 with
    the project-cap message; and when one of these fields is missing or
    empty, the answer is the 400 of the validation and the world is as it
    was. *)
Theorem cap_rejects_create_and_join w uid usr :
  users (db w) !! uid = Some usr →
  2 ≤ activeProjectCount usr →
  (∀ req, c_userId req = uid →
     db (createProject req w).2 = db w
     ∧ (400 ≤ statusCode (createProject req w).1)%nat
     ∧ (Js.falsy (c_title req) = false → Js.falsy (c_description req) = false →
        Js.falsy (c_domain req) = false → head (faults w) ≠ Some true →
        (createProject req w).1 = mkResponse 400 (JError cap_reached))
     ∧ (Js.falsy (c_title req) = true ∨ Js.falsy (c_description req) = true
        ∨ Js.falsy (c_domain req) = true →
        createProject req w
        = (mkResponse 400 (JError "Title, description and domain are required"),
           w)))
  ∧ (∀ req, p_userId req = uid →
     db (joinProject req w).2 = db w
     ∧ (400 ≤ statusCode (joinProject req w).1)%nat
     ∧ (Js.falsy (p_projectId req) = false → head (faults w) ≠ Some true →
        (joinProject req w).1 = mkResponse 400 (JError cap_reached))
     ∧ (Js.falsy (p_projectId req) = true →
        joinProject req w = (mkResponse 400 (JError "projectId is required"), w))).
Proof.
  intros Hu Hcap.
  destruct (cap_paths w uid usr Hu Hcap) as [Hc Hj].
  destruct (validation_first w) as [Vc Vj].
  split; intros req Hid.
  - destruct (Hc req Hid) as (H1 & H2 & H3). repeat (split; [assumption|]).
    apply Vc.
  - destruct (Hj req Hid) as (H1 & H2 & H3). repeat (split; [assumption|]).
    apply Vj.
Qed.
End CapClaim.

Section CompleteLemmas.
Import Store ProjectController Spec.

Lemma user_update_Ok uid f w u w' :
  user_update uid f w = (Ok u, w') →
  is_Some (users (db w) !! uid)
  ∧ db w' = set_users (alter f uid) (db w)
  ∧ w' = set_db (db w') (set_faults (tail (faults w)) w).
Proof.
  intros H. apply prisma_Ok in H as [H Hw].
  destruct (users (db w) !! uid) as [usr|] eqn:Hu; [|discriminate].
  injection H as _ Hd. split; [eauto|]. split; [|done].
  rewrite <- Hd. unfold set_users. f_equal.
  apply map_eq. intros i. destruct (decide (uid = i)) as [<-|Hne].
  - by rewrite lookup_insert_eq, lookup_alter_eq, Hu.
  - by rewrite lookup_insert_ne, lookup_alter_ne.
Qed.

Lemma decrement_all_lookup l m uid :
  NoDup l →
  decrement_all l m !! uid =
    if decide (uid ∈ l) then decrement_activeProjectCount 1 <$> m !! uid
    else m !! uid.
Proof.
  revert m. induction l as [|x l IH]; intros m Hnd.
  { case_decide as H; [by apply not_elem_of_nil in H | done]. }
  apply NoDup_cons in Hnd as [Hx Hnd].
  change (decrement_all (x :: l) m)
    with (decrement_all l (alter (decrement_activeProjectCount 1) x m)).
  rewrite (IH _ Hnd).
  destruct (decide (uid = x)) as [->|Hne].
  - rewrite lookup_alter_eq.
    repeat case_decide; try done; exfalso; rewrite ?elem_of_cons in *; tauto.
  - rewrite lookup_alter_ne by done.
    repeat case_decide; try done; exfalso; rewrite ?elem_of_cons in *; tauto.
Qed.

Lemma run_updates_Ok l : ∀ w w',
  run_batch (memberUpdate <$> l) w = (Ok tt, w') →
  (∀ uid, uid ∈ l → is_Some (users (db w) !! uid))
  ∧ db w' = set_users (decrement_all l) (db w).
Proof.
  induction l as [|x l IH]; intros w w' H; simpl in H.
  { injection H as <-. split; [intros ? []%not_elem_of_nil | by destruct (db w)]. }
  apply bind_Ok in H as ([] & w1 & H1 & H).
  unfold memberUpdate, void in H1.
  apply bind_Ok in H1 as (u & w1' & H1 & [= <-]).
  apply user_update_Ok in H1 as (Hx & Hd1 & _).
  apply IH in H as [Hl Hd]. split.
  - intros uid [->|Hin]%elem_of_cons; [done|].
    apply Hl in Hin. rewrite Hd1 in Hin. simpl in Hin.
    destruct (decide (x = uid)) as [->|]; [done|].
    by rewrite lookup_alter_ne in Hin.
  - rewrite Hd, Hd1. reflexivity.
Qed.

Lemma insert_alter_user (m : gmap string User) f x u :
  m !! x = Some u → <[x := f u]> m = alter f x m.
Proof.
  intros Hu. apply map_eq. intros i. destruct (decide (x = i)) as [<-|Hne].
  - by rewrite lookup_insert_eq, lookup_alter_eq, Hu.
  - by rewrite lookup_insert_ne, lookup_alter_ne.
Qed.

Lemma memberUpdate_healthy x w :
  faults w = [] → is_Some (users (db w) !! x) →
  memberUpdate x w
  = (Ok tt, set_db (set_users (alter (decrement_activeProjectCount 1) x) (db w)) w).
Proof.
  intros Hf [u Hu]. unfold memberUpdate, void.
  erewrite bind_step.
  2: { unfold user_update. rewrite prisma_healthy by done. rewrite Hu. reflexivity. }
  simpl. unfold mret, M_ret. do 2 f_equal. unfold set_users. simpl.
  by rewrite (insert_alter_user _ _ _ _ Hu).
Qed.

Lemma run_updates_healthy l : ∀ w,
  faults w = [] →
  (∀ uid, uid ∈ l → is_Some (users (db w) !! uid)) →
  run_batch (memberUpdate <$> l) w
  = (Ok tt, set_db (set_users (decrement_all l) (db w)) w).
Proof.
  induction l as [|x l IH]; intros w Hf Hl.
  { simpl. unfold mret, M_ret. f_equal. destruct w as [[]]; reflexivity. }
  change (run_batch (memberUpdate <$> x :: l))
    with (memberUpdate x ≫= λ _, run_batch (memberUpdate <$> l)).
  erewrite bind_step; [|apply memberUpdate_healthy; [done | apply Hl; by left]].
  rewrite IH; [reflexivity | done |].
  intros uid Hin. simpl. destruct (decide (x = uid)) as [<-|Hne].
  - rewrite lookup_alter_eq. destruct (Hl x) as [u ->]; [by left | simpl; eauto].
  - rewrite lookup_alter_ne by done. apply Hl. by right.
Qed.

Lemma members_of_elem d pid uid :
  uid ∈ members_of d pid ↔ is_Some (members d !! (pid, uid)).
Proof.
  unfold members_of. rewrite list_elem_of_fmap. split.
  - intros ([[p u] r] & -> & Hin). apply list_elem_of_filter in Hin as [Hp Hin].
    simpl in *. subst p. apply elem_of_map_to_list in Hin. eauto.
  - intros [r Hr]. exists ((pid, uid), r). split; [done|].
    apply list_elem_of_filter. split; [done|]. by apply elem_of_map_to_list.
Qed.

Lemma members_of_NoDup d pid : NoDup (members_of d pid).
Proof.
  unfold members_of. apply NoDup_fmap_2_strong.
  - intros [[p1 u1] r1] [[p2 u2] r2] [Hp1 H1]%list_elem_of_filter
           [Hp2 H2]%list_elem_of_filter Hu. simpl in *. subst.
    apply elem_of_map_to_list in H1, H2. congruence.
  - apply NoDup_filter, NoDup_map_to_list.
Qed.
End CompleteLemmas.

Section CompleteClaim.
Import Store ProjectController Spec.

Lemma transaction_cases ops w :
  (∃ w2, run_batch ops w = (Ok tt, w2)
         ∧ (transaction ops w).1 = Ok tt ∧ db (transaction ops w).2 = db w2)
  ∨ (∃ e, (transaction ops w).1 = Throw e ∧ db (transaction ops w).2 = db w).
Proof.
  unfold transaction.
  destruct ((run_batch ops ≫= _) w) as [[[]|e] w'] eqn:E.
  - left. apply bind_Ok in E as ([] & w2 & H1 & H2).
    apply prisma_Ok in H2 as [H2 _]. injection H2 as H2.
    exists w2. simpl. by rewrite H2.
  - right. exists e. by destruct w.
Qed.

Lemma transaction_healthy ops w w2 :
  faults w = [] → run_batch ops w = (Ok tt, w2) → faults w2 = [] →
  transaction ops w = (Ok tt, w2).
Proof.
  intros Hf H Hf2. unfold transaction.
  erewrite bind_step by exact H. rewrite prisma_healthy by done. simpl.
  by destruct w2.
Qed.

Lemma completion_batch_Ok pid proj l w1 w2 :
  projects (db w1) !! pid = Some proj →
  NoDup l →
  (∀ uid, uid ∈ l ↔ is_Some (members (db w1) !! (pid, uid))) →
  run_batch (void (project_update pid (assign_status completed))
             :: (memberUpdate <$> l)) w1 = (Ok tt, w2) →
  completed_from pid (db w1) (db w2).
Proof.
  intros Hp Hnd Hl H.
  change (run_batch (?a :: ?r)) with (a ≫= λ _, run_batch r) in H.
  apply bind_Ok in H as ([] & wa & Ha & H).
  apply bind_Ok in Ha as (p' & wa' & Ha & [= <-]).
  apply prisma_Ok in Ha as [Ha _]. rewrite Hp in Ha. injection Ha as _ Hda.
  apply run_updates_Ok in H as [Hus Hd2].
  rewrite <- Hda in Hus, Hd2. simpl in Hus.
  unfold completed_from. rewrite Hd2. simpl.
  split; [eauto|]. split; [|split; [|done]].
  - intros uid Hm. apply Hl in Hm.
    destruct (Hus uid Hm) as [u Hu]. exists u. split; [done|].
    rewrite decrement_all_lookup by done.
    case_decide; [|done]. by rewrite Hu.
  - intros uid Hm. rewrite decrement_all_lookup by done.
    case_decide as Hin; [|done].
    apply Hl in Hin. rewrite Hm in Hin. by destruct Hin.
Qed.

(** The run of completeProject on an active project of the requester: the
    lookup, then the one transaction. *)
Lemma completeProject_unfold w req pid proj :
  p_projectId req = Some pid → pid ≠ "" →
  projects (db w) !! pid = Some proj →
  status proj = active →
  createdBy proj = p_userId req →
  completeProject req w =
    match faults w with
    | true :: fs => (internal_error, set_faults fs w)
    | _ =>
      let w1 := set_faults (tail (faults w)) w in
      match transaction
              (void (project_update pid (assign_status completed))
               :: (memberUpdate <$> members_of (db w) pid)) w1 with
      | (Ok _, w') => (mkResponse 200 (JCompleted completed_message pid), w')
      | (Throw _, w') => (internal_error, w')
      end
    end.
Proof.
  intros Hpid Hne Hp Hst Hcr.
  unfold completeProject, handler. rewrite Hpid.
  change (Js.falsy (Some pid)) with (bool_decide (pid = "")).
  rewrite bool_decide_eq_false_2 by done. simpl.
  unfold mbind at 1, M_bind, project_findUnique_members, prisma.
  assert (Hc : bool_decide (createdBy proj ≠ p_userId req) = false)
    by (apply bool_decide_eq_false_2; auto).
  assert (Hs : bool_decide (status proj = completed) = false)
    by (apply bool_decide_eq_false_2; congruence).
  destruct (faults w) as [|[] fs] eqn:F; simpl; [| reflexivity |];
    rewrite Hp; simpl; rewrite Hc, Hs; unfold mbind, M_bind, memberUpdate.
  - replace (set_db (db w) w) with w by (by destruct w).
    replace (set_faults [] w) with w by (destruct w; simpl in *; by subst).
    by destruct (transaction _ w) as [[|] ?].
  - replace (set_db (db w) (set_faults fs w)) with (set_faults fs w) by done.
    by destruct (transaction _ _) as [[|] ?].
Qed.

(** The transaction of completeProject under failures of the store, for
    a request that is served with no other request in between. When the
    creator of an active project asks for its
    completion, the run ends in one of two ways, whatever the store does:
    the answer is the 200 and the new database is the old one with the
    project completed and the count of every member lowered by exactly
    one, nothing else changed; or the answer is the 500 and the database
    is unchanged. With a store that answers every call and a user row for
    every member, it is the first. *)
Theorem complete_all_or_nothing w req pid proj :
  p_projectId req = Some pid → pid ≠ "" →
  projects (db w) !! pid = Some proj →
  status proj = active →
  createdBy proj = p_userId req →
  let out := completeProject req w in
  ((out.1 = mkResponse 200 (JCompleted completed_message pid)
    ∧ completed_from pid (db w) (db out.2))
   ∨ (out.1 = internal_error ∧ db out.2 = db w))
  ∧ (faults w = [] →
     Forall (λ uid, is_Some (users (db w) !! uid)) (members_of (db w) pid) →
     out.1 = mkResponse 200 (JCompleted completed_message pid)).
Proof.
  intros Hpid Hne Hp Hst Hcr out. subst out.
  rewrite (completeProject_unfold w req pid proj) by done.
  set (ops := void _ :: _).
  split.
  - assert (Hgo : ∀ w1, db w1 = db w →
      let out := match transaction ops w1 with
                 | (Ok _, w') => (mkResponse 200 (JCompleted completed_message pid), w')
                 | (Throw _, w') => (internal_error, w')
                 end in
      (out.1 = mkResponse 200 (JCompleted completed_message pid)
       ∧ completed_from pid (db w) (db out.2))
      ∨ (out.1 = internal_error ∧ db out.2 = db w)).
    { intros w1 Hw1.
      destruct (transaction_cases ops w1) as [(w2 & Hb & Hr & Hd)|(e & Hr & Hd)];
        destruct (transaction ops w1) as [r w'] eqn:T; simpl in Hr, Hd; subst r;
        simpl.
      - left. split; [done|]. rewrite Hd, <- Hw1.
        apply (completion_batch_Ok pid proj (members_of (db w) pid));
          rewrite ?Hw1; [done | apply members_of_NoDup | apply members_of_elem | done].
      - right. split; [done | congruence]. }
    destruct (faults w) as [|[] fs] eqn:F; [| right; by destruct w |];
      apply Hgo; reflexivity.
  - intros Hf Hm. rewrite Hf. simpl.
    replace (set_faults [] w) with w by (destruct w; simpl in *; by subst).
    assert (Hb : ∃ w2, run_batch ops w = (Ok tt, w2) ∧ faults w2 = []).
    { subst ops.
      change (run_batch (?a :: ?r)) with (a ≫= λ _, run_batch r).
      erewrite bind_step.
      2: { unfold void, project_update. erewrite bind_step; [reflexivity|].
           rewrite prisma_healthy by done. rewrite Hp. reflexivity. }
      rewrite run_updates_healthy; [eauto | done |].
      intros uid Hin. simpl. by apply (proj1 (Forall_forall _ _) Hm). }
    destruct Hb as (w2 & Hb & Hf2).
    by rewrite (transaction_healthy ops w w2).
Qed.
End CompleteClaim.
Section MembershipWitnesses.
Import Store ProjectController Spec Scenario.

Lemma cap_rejects_create_and_join_witness :
  (createProject (mkCreateReq "u2" (Some "T") (Some "D") (Some "web")) w_cap).1
  = mkResponse 400 (JError cap_reached)
  ∧ (joinProject (mkProjectReq "u2" (Some "p")) w_cap).1
    = mkResponse 400 (JError cap_reached).
Proof.
  destruct (cap_rejects_create_and_join w_cap "u2" (mkUser "V" 80 2) eq_refl
              ltac:(simpl; lia)) as [Hc Hj].
  split.
  - apply (Hc (mkCreateReq "u2" (Some "T") (Some "D") (Some "web")) eq_refl);
      [reflexivity | reflexivity | reflexivity | discriminate].
  - apply (Hj (mkProjectReq "u2" (Some "p")) eq_refl);
      [reflexivity | discriminate].
Defined.

Lemma cap_not_reported_without_title :
  (activeProjectCount <$> users (db w_cap) !! "u2") = Some 2
  ∧ (createProject (mkCreateReq "u2" None (Some "D") (Some "web")) w_cap).1
    = mkResponse 400 (JError "Title, description and domain are required")
  ∧ (createProject (mkCreateReq "u2" None (Some "D") (Some "web")) w_cap).1
    ≠ mkResponse 400 (JError cap_reached).
Proof. split; [reflexivity|]. split; [reflexivity | discriminate]. Qed.

Lemma complete_all_or_nothing_witness :
  (completeProject (mkProjectReq "a" (Some "p")) w_team).1
  = mkResponse 200 (JCompleted completed_message "p").
Proof.
  apply (complete_all_or_nothing w_team (mkProjectReq "a" (Some "p")) "p"
           (mkProject "T" "D" "web" "a" active));
    [reflexivity | discriminate | reflexivity | reflexivity | reflexivity
    | reflexivity | ].
  vm_compute. repeat constructor; eexists; reflexivity.
Defined.

Example complete_team :
  let w' := (completeProject (mkProjectReq "a" (Some "p")) w_team).2 in
  (status <$> projects (db w') !! "p") = Some completed
  ∧ (activeProjectCount <$> users (db w') !! "a") = Some 0
  ∧ (activeProjectCount <$> users (db w') !! "b") = Some 0
  ∧ (activeProjectCount <$> users (db w') !! "c") = Some 0.
Proof. vm_compute. repeat split. Qed.

Example complete_team_interrupted :
  let w := set_faults [false; false; false; true] w_team in
  completeProject (mkProjectReq "a" (Some "p")) w
  = (internal_error, set_faults [] w_team).
Proof. vm_compute. reflexivity. Qed.
End MembershipWitnesses.

Section CompletionRace.
Import Store ProjectController ProjectSteps Scenario Scenario2.

(** Claim C3, evaluated where it breaks. Project "p" of "a" has the
    members "a", "b" and "c", one active project each; "d" is in no
    project. "a" asks for the completion and "d" asks to join. The store
    answers the first call of the completion, the read of the project
    with its members; then the five calls of the join; then the
    transaction of the completion, which decrements the members that
    were read. Both requests are answered with the 200: the project is
    completed, "a", "b" and "c" are at 0, and "d" is a member whose count
    stays at 1. In either order without overlap "d" ends at 0. And when
    "c" leaves between the read and the transaction, the count of "c" is
    lowered twice, to -1. *)
Theorem complete_misses_member_joined_after_read :
  let complete := ProjectSteps.completeProject (mkProjectReq "a" (Some "p")) in
  let join := ProjectSteps.joinProject (mkProjectReq "d" (Some "p")) in
  let leave := ProjectSteps.leaveProject (mkProjectReq "c" (Some "p")) in
  let count (w : World) (uid : string) := activeProjectCount <$> users (db w) !! uid in
  let raced := interleave [0; 1; 1; 1; 1; 1; 0]%nat [complete; join] w_team_d in
  let join_first := interleave [1; 1; 1; 1; 1; 0; 0]%nat [complete; join] w_team_d in
  let complete_first := interleave [0; 0; 1; 1; 1; 1; 1]%nat [complete; join] w_team_d in
  let left := interleave [0; 1; 1; 1; 1; 0]%nat [complete; leave] w_team in
  (response <$> raced.1
   = [Some (mkResponse 200 (JCompleted completed_message "p"));
      Some (mkResponse 200 (JMessage "Successfully joined the project"))]
   ∧ (status <$> projects (db raced.2) !! "p") = Some completed
   ∧ count raced.2 <$> ["a"; "b"; "c"] = [Some 0; Some 0; Some 0]
   ∧ members (db raced.2) !! ("p", "d") = Some member
   ∧ count w_team_d "d" = Some 0
   ∧ count raced.2 "d" = Some 1)
  ∧ (response <$> join_first.1
     = [Some (mkResponse 200 (JCompleted completed_message "p"));
        Some (mkResponse 200 (JMessage "Successfully joined the project"))]
     ∧ count join_first.2 "d" = Some 0)
  ∧ (response <$> complete_first.1
     = [Some (mkResponse 200 (JCompleted completed_message "p"));
        Some (mkResponse 400 (JError "Project not found or not active"))]
     ∧ count complete_first.2 "d" = Some 0)
  ∧ (response <$> left.1
     = [Some (mkResponse 200 (JCompleted completed_message "p"));
        Some (mkResponse 200 (JMessage "Successfully left the project"))]
     ∧ members (db left.2) !! ("p", "c") = None
     ∧ count Scenario.w_team "c" = Some 1
     ∧ count left.2 "c" = Some (-1)).
Proof. vm_compute. repeat split. Qed.
End CompletionRace.
(** ** The presence and delivery hub *)

Section HubClaims.
Import Store Socket Scenario.

Lemma deliver_outbox userId ev w :
  ∃ o, deliver userId ev w = (Ok tt, set_outbox o w).
Proof.
  unfold deliver, mbind, M_bind, onlineUsers_get.
  destruct (Js.falsy (onlineUsers w !! userId)).
  - exists (outbox w). by destruct w.
  - eexists. reflexivity.
Qed.

(** No entry in [onlineUsers], no delivery. *)
Lemma deliver_offline userId ev w :
  onlineUsers w !! userId = None → deliver userId ev w = (Ok tt, w).
Proof. intros H. unfold deliver, mbind, M_bind, onlineUsers_get. by rewrite H. Qed.

(** Whoever asks, a stored message is marked read: the handler never
    looks at the receiver of the message or at the user of the socket. *)
Lemma markAsRead_any_socket sid mid m w :
  messages (db w) !! mid = Some m →
  head (faults w) ≠ Some true →
  messages (db (markAsRead sid mid w)) !! mid = Some (assign_isRead true m)
  ∧ (sid, readConfirmed mid) ∈ outbox (markAsRead sid mid w).
Proof.
  intros Hm Hf. unfold markAsRead, run, try_catch.
  set (w1 := set_db (set_messages <[mid := assign_isRead true m]> (db w))
                    (set_faults (tail (faults w)) w)).
  assert (H1 : message_update mid (assign_isRead true) w
               = (Ok (assign_isRead true m), w1)).
  { unfold message_update, prisma, w1.
    destruct (faults w) as [|[] fs] eqn:F; simpl; [| by destruct Hf |];
      rewrite Hm; [|done]. f_equal. destruct w; simpl in *; by subst. }
  erewrite bind_step by exact H1.
  erewrite bind_step by reflexivity.
  destruct (deliver_outbox (senderId (assign_isRead true m))
              (messageRead mid (sockets w1 !! sid ≫= socket_userId)) w1) as [o Ho].
  erewrite bind_step by exact Ho. simpl. split.
  - apply lookup_insert_eq.
  - apply elem_of_app. right. by apply list_elem_of_singleton.
Qed.

(** Property X25. An id that is no message: the update throws, the
    socket gets the generic error, and no row changes. *)
Lemma markAsRead_missing sid mid w :
  messages (db w) !! mid = None →
  db (markAsRead sid mid w) = db w
  ∧ (sid, error "Failed to update read status") ∈ outbox (markAsRead sid mid w).
Proof.
  intros Hm. unfold markAsRead, run, try_catch.
  assert (H1 : ∃ e w1, message_update mid (assign_isRead true) w = (Throw e, w1)
                       ∧ db w1 = db w ∧ outbox w1 = outbox w).
  { unfold message_update, prisma.
    destruct (faults w) as [|[] fs] eqn:F; simpl; rewrite ?Hm; simpl;
      eexists _, _; (split; [reflexivity|]); by destruct w. }
  destruct H1 as (e & w1 & H1 & Hd & Ho).
  rewrite (bind_throw _ _ _ _ _ H1). simpl. split; [done|].
  apply elem_of_app. right. by apply list_elem_of_singleton.
Qed.

(** Claim C6, evaluated where it breaks. "m1" was sent by "alice" to
    "bob". The socket of "carol", who is not its receiver, asks to mark it
    read: the row is updated and the socket gets the confirmation, no
    error. *)
Theorem markAsRead_by_non_receiver :
  messages (db w_carol) !! "m1" = Some (mkMessage "alice" "bob" "hi" false)
  ∧ sockets w_carol !! "s3" ≫= socket_userId = Some "carol"
  ∧ messages (db (markAsRead "s3" "m1" w_carol)) !! "m1"
    = Some (mkMessage "alice" "bob" "hi" true)
  ∧ outbox (markAsRead "s3" "m1" w_carol)
    = outbox w_carol ++ [("s3", readConfirmed "m1")].
Proof. vm_compute. repeat split. Qed.

(** Claim C7, evaluated where it breaks. "alice" sends "hello" to "bob";
    the store takes the message and fails the insert of the notification.
    The message is stored and confirmed to the sender, and then the same
    sender gets the error event "Failed to send message": createNotification
    of socket.js rethrows and sendMessage awaits it inside its [try]. *)
Theorem sendMessage_fails_with_notification (unicode_upper : string → string) :
  let data := Some (mkSendMessageData (Some "bob") (Some "hello")) in
  let w := sendMessage unicode_upper "s1" data (set_faults [false; true] w_alice) in
  messages (db w) !! "0" = Some (mkMessage "alice" "bob" "hello" false)
  ∧ notifications (db w) = []
  ∧ outbox w = [("s1", messageSent "0" (mkMessage "alice" "bob" "hello" false));
                ("s1", error "Failed to send message")].
Proof. vm_compute. repeat split. Qed.

(** The exported helper of notification.controller.js on the same failing
    store: the failure is swallowed and the caller goes on. *)
Example controller_createNotification_swallows :
  NotificationController.createNotification "bob" "message_received" "T" "M"
    (set_faults [true] w_chat)
  = (Ok None, w_chat).
Proof. reflexivity. Qed.

(** With a store that answers every call, sendMessage still ends in the
    error event: the sender id is passed as [metadata], its characters are
    spread into the row as keys 0, 1, ..., and the insert is rejected. *)
Example sendMessage_healthy_store (unicode_upper : string → string) :
  let data := Some (mkSendMessageData (Some "bob") (Some "hello")) in
  spread_keys (MetaString "alice") = ["0"; "1"; "2"; "3"; "4"]
  ∧ outbox (sendMessage unicode_upper "s1" data w_alice)
    = [("s1", messageSent "0" (mkMessage "alice" "bob" "hello" false));
       ("s1", error "Failed to send message")].
Proof. vm_compute. repeat split. Qed.

(** The disconnect handler of any socket of a user removes the user's
    entry, also when the entry holds the id of another socket. *)
Lemma on_disconnect_deletes_entry userId w :
  userId ≠ "" →
  onlineUsers (on_disconnect (Some userId) w).2 !! userId = None.
Proof.
  intros Hne. unfold on_disconnect.
  change (Js.falsy (Some userId)) with (bool_decide (userId = "")).
  rewrite bool_decide_eq_false_2 by done. simpl.
  apply lookup_delete_eq.
Qed.

(** Claim C8, evaluated where it breaks. "bob" authenticates on "c1",
    then on "c2", which the registry then maps him to; then "c1"
    disconnects. The handler deletes the entry of "bob" whatever socket
    it holds: the registry has no entry for him, although "c2" is still
    connected, authenticated and in his room, and a delivery to "bob"
    reaches nobody. *)
Theorem reconnect_then_old_disconnect_loses_registration :
  onlineUsers w_two_connections !! "bob" = Some "c2"
  ∧ onlineUsers w_reconnected !! "bob" = None
  ∧ sockets w_reconnected !! "c2" ≫= socket_userId = Some "bob"
  ∧ in_room w_reconnected (room_of "bob") = ["c2"]
  ∧ (∀ ev, deliver "bob" ev w_reconnected = (Ok tt, w_reconnected)).
Proof.
  split; [reflexivity|]. split; [reflexivity|]. split; [reflexivity|].
  split; [reflexivity|]. intros ev. by apply deliver_offline.
Qed.

(** The parts of the presence property that the handlers do give: a
    delivery reaches the connection a user authenticated on, and none
    after that only connection is gone. *)
Example deliver_online_offline :
  (∀ ev, (deliver "bob" ev w_online).2
         = set_outbox (outbox w_online ++ [("c1", ev)]) w_online)
  ∧ (∀ ev, deliver "bob" ev w_offline = (Ok tt, w_offline)).
Proof.
  split; intros ev; [reflexivity|]. by apply deliver_offline.
Qed.
End HubClaims.

(** ** The ranking engine *)

Section MatchingSets.
Import Matching.

Lemma intersection_length_size (a b : gset string) :
  intersection_length a b = Z.of_nat (size (a ∩ b)).
Proof.
  unfold intersection_length, size, set_size. simpl. f_equal.
  apply Permutation_length, NoDup_Permutation.
  - apply NoDup_filter, NoDup_elements.
  - apply NoDup_elements.
  - intros x. rewrite list_elem_of_filter, !elem_of_elements. set_solver.
Qed.

Lemma union_size (a b : gset string) :
  (Z.of_nat (size a) + Z.of_nat (size b) - intersection_length a b
   = Z.of_nat (size (a ∪ b)))%Z.
Proof.
  rewrite intersection_length_size.
  assert (H1 : size (a ∪ b) = (size a + size (b ∖ a))%nat)
    by apply size_union_alt.
  assert (H2 : size ((b ∖ a) ∪ (a ∩ b)) = (size (b ∖ a) + size (a ∩ b))%nat)
    by (apply size_union; set_solver).
  assert (H3 : (b ∖ a) ∪ (a ∩ b) = b).
  { apply set_eq. intros x. destruct (decide (x ∈ a)); set_solver. }
  rewrite H3 in H2. lia.
Qed.
End MatchingSets.

Section MatchingClaims.
Import Matching.
Local Open Scope Q_scope.

Variable fl : Q → Q.
Hypothesis fl_proper : ∀ x y, x == y → fl x == fl y.
Hypothesis fl_integer : ∀ n : Z, (Z.abs n ≤ 2 ^ 53)%Z → fl (inject_Z n) == inject_Z n.
Hypothesis fl_error : ∀ x,
  1 # (2 ^ 64) <= Qabs x → Qabs x <= inject_Z (2 ^ 64) →
  Qabs (fl x - x) <= Qabs x * (1 # (2 ^ 53)).

Lemma fl_bounds x :
  1 # (2 ^ 64) <= x → x <= inject_Z (2 ^ 64) →
  x * (1 - (1 # (2 ^ 53))) <= fl x ∧ fl x <= x * (1 + (1 # (2 ^ 53))).
Proof.
  intros H1 H2.
  assert (Hx : 0 <= x) by (eapply Qle_trans; [|exact H1]; done).
  pose proof (fl_error x) as H. rewrite (Qabs_pos x Hx) in H.
  specialize (H H1 H2). apply Qabs_Qle_condition in H as [Ha Hb].
  split; lra.
Qed.

Lemma percent_error (x : Q) :
  1 # (2 ^ 40) <= x → x <= 1 →
  100 * x - (201 # (2 ^ 53)) <= fl (fl x * 100)
  ∧ fl (fl x * 100) <= 100 * x + (201 # (2 ^ 53)).
Proof.
  intros H1 H2.
  destruct (fl_bounds x) as [Ha Hb].
  { eapply Qle_trans; [|exact H1]. done. }
  { eapply Qle_trans; [exact H2|]. done. }
  destruct (fl_bounds (fl x * 100)) as [Hc Hd].
  { change (1 # 2 ^ 53) with (1 # 9007199254740992) in *.
    change (1 # 2 ^ 40) with (1 # 1099511627776) in *.
    change (1 # 2 ^ 64) with (1 # 18446744073709551616) in *. lra. }
  { change (1 # 2 ^ 53) with (1 # 9007199254740992) in *.
    change (inject_Z (2 ^ 64)) with (18446744073709551616 # 1). lra. }
  change (1 # 2 ^ 53) with (1 # 9007199254740992) in *.
  change (201 # 2 ^ 53) with (201 # 9007199254740992) in *.
  change (1 # 2 ^ 40) with (1 # 1099511627776) in *.
  split; lra.
Qed.

Lemma Math_round_bounds (p : Q) :
  inject_Z (Math_round p) <= p + (1 # 2) ∧ p + (1 # 2) < inject_Z (Math_round p) + 1.
Proof.
  unfold Math_round. split; [apply Qfloor_le|].
  pose proof (Qlt_floor (p + (1 # 2))) as H.
  rewrite inject_Z_plus in H. exact H.
Qed.

Lemma round_percent_nearest (i u : Z) :
  (1 ≤ i ≤ u)%Z → (u < 2 ^ 40)%Z →
  let r := Math_round (fl (fl (inject_Z i / inject_Z u) * 100)) in
  (200 * i - u ≤ 2 * u * r ≤ 200 * i + u)%Z.
Proof.
  intros Hi Hu r.
  set (x := inject_Z i / inject_Z u).
  assert (HU1 : 1 <= inject_Z u) by (change 1 with (inject_Z 1); rewrite <- Zle_Qle; lia).
  assert (HU2 : inject_Z u <= 1099511627776)
    by (change 1099511627776 with (inject_Z (2 ^ 40)); rewrite <- Zle_Qle; lia).
  assert (HI1 : 1 <= inject_Z i) by (change 1 with (inject_Z 1); rewrite <- Zle_Qle; lia).
  assert (HIU : inject_Z i <= inject_Z u) by (rewrite <- Zle_Qle; lia).
  assert (Hxu : x * inject_Z u == inject_Z i).
  { unfold x. field. lra. }
  assert (Hx1 : 1 # 2 ^ 40 <= x).
  { unfold x. apply Qle_shift_div_l; [lra|].
    change (1 # 2 ^ 40) with (1 # 1099511627776). lra. }
  assert (Hx2 : x <= 1) by (unfold x; apply Qle_shift_div_r; lra).
  destruct (percent_error x Hx1 Hx2) as [Hp1 Hp2].
  set (p := fl (fl x * 100)) in *.
  destruct (Math_round_bounds p) as [Hr1 Hr2].
  change (Math_round p) with r in Hr1, Hr2.
  change (201 # 2 ^ 53) with (201 # 9007199254740992) in *.
  set (d := 201 # 9007199254740992) in *.
  assert (HU0 : 0 < 2 * inject_Z u) by lra.
  assert (Hlo : inject_Z (200 * i - u - 1) < inject_Z (2 * u * r)).
  { unfold Z.sub. rewrite !inject_Z_plus, !inject_Z_mult, !inject_Z_opp.
    change (inject_Z 200) with 200. change (inject_Z 2) with 2.
    change (inject_Z 1) with 1.
    assert (H : 100 * x - d - (1 # 2) < inject_Z r) by lra.
    apply (Qmult_lt_compat_r _ _ _ HU0) in H.
    assert (E : (100 * x - d - (1 # 2)) * (2 * inject_Z u)
                == 200 * (x * inject_Z u) - 2 * d * inject_Z u - inject_Z u) by ring.
    rewrite E, Hxu in H. unfold d in *. lra. }
  assert (Hhi : inject_Z (2 * u * r) < inject_Z (200 * i + u + 1)).
  { rewrite !inject_Z_plus, !inject_Z_mult.
    change (inject_Z 200) with 200. change (inject_Z 2) with 2.
    change (inject_Z 1) with 1.
    assert (H : inject_Z r <= 100 * x + d + (1 # 2)) by lra.
    assert (H' := Qmult_le_compat_r _ _ (2 * inject_Z u) H ltac:(lra)).
    assert (E : (100 * x + d + (1 # 2)) * (2 * inject_Z u)
                == 200 * (x * inject_Z u) + 2 * d * inject_Z u + inject_Z u) by ring.
    rewrite E, Hxu in H'. unfold d in *. lra. }
  rewrite <- Zlt_Qlt in Hlo, Hhi. lia.
Qed.

Lemma fl_of_integer (x : Q) (n : Z) :
  x == inject_Z n → (Z.abs n ≤ 2 ^ 53)%Z → fl x == inject_Z n.
Proof.
  intros E Hn. rewrite <- (fl_integer n Hn). by apply fl_proper.
Qed.

Lemma round_percent_zero (u : Z) :
  Math_round (fl (fl (inject_Z 0 / inject_Z u) * 100)) = 0%Z.
Proof.
  unfold Math_round.
  assert (E0 : fl (inject_Z 0 / inject_Z u) == inject_Z 0).
  { apply fl_of_integer; [|simpl; lia].
    unfold Qdiv. change (inject_Z 0) with 0. ring. }
  assert (E1 : fl (fl (inject_Z 0 / inject_Z u) * 100) == inject_Z 0).
  { apply fl_of_integer; [|simpl; lia].
    rewrite E0. change (inject_Z 0) with 0. ring. }
  rewrite E1. reflexivity.
Qed.

Lemma round_percent_same (n : Z) :
  (0 < n)%Z → Math_round (fl (fl (inject_Z n / inject_Z n) * 100)) = 100%Z.
Proof.
  intros Hn. unfold Math_round.
  assert (Hn' : ¬ inject_Z n == 0).
  { change 0 with (inject_Z 0). rewrite inject_Z_injective. lia. }
  assert (E0 : fl (inject_Z n / inject_Z n) == inject_Z 1).
  { apply fl_of_integer; [|simpl; lia].
    change (inject_Z 1) with 1. field. exact Hn'. }
  assert (E1 : fl (fl (inject_Z n / inject_Z n) * 100) == inject_Z 100).
  { apply fl_of_integer; [|simpl; lia]. rewrite E0. reflexivity. }
  rewrite E1. reflexivity.
Qed.

Lemma round_percent_bounds (i u : Z) :
  (0 ≤ i ≤ u)%Z → (0 < u < 2 ^ 40)%Z →
  let r := Math_round (fl (fl (inject_Z i / inject_Z u) * 100)) in
  (200 * i - u ≤ 2 * u * r ≤ 200 * i + u)%Z.
Proof.
  intros Hi Hu. destruct (decide (i = 0%Z)) as [->|Hne].
  - rewrite round_percent_zero. lia.
  - apply round_percent_nearest; lia.
Qed.

(** An integer [r] with [|2ur - 200i| <= u] is within one half of
    [100 i / u]. *)
Lemma nearest_of_bounds (i u r : Z) :
  (0 < u)%Z → (200 * i - u ≤ 2 * u * r ≤ 200 * i + u)%Z →
  Qabs (inject_Z r - 100 * inject_Z i / inject_Z u) <= 1 # 2.
Proof.
  intros Hu [H1 H2].
  assert (HU : 0 < inject_Z u) by (change 0 with (inject_Z 0); rewrite <- Zlt_Qlt; lia).
  assert (H1' : (200 * i + - u ≤ 2 * (u * r))%Z) by lia.
  assert (H2' : (2 * (u * r) ≤ 200 * i + u)%Z) by lia.
  rewrite Zle_Qle in H1', H2'.
  rewrite !inject_Z_plus, !(inject_Z_mult 2), !(inject_Z_mult 200) in H1', H2'.
  rewrite inject_Z_opp in H1'.
  change (inject_Z 200) with 200 in *. change (inject_Z 2) with 2 in *.
  set (x := inject_Z i / inject_Z u).
  assert (Hxu : x * inject_Z u == inject_Z i) by (unfold x; field; lra).
  assert (E : 100 * inject_Z i / inject_Z u == 100 * x) by (unfold x; field; lra).
  rewrite E. apply Qabs_Qle_condition.
  assert (HU2 : 0 < 2 * inject_Z u) by lra.
  assert (E2 : (inject_Z r - 100 * x) * (2 * inject_Z u)
               == 2 * inject_Z (u * r) - 200 * (x * inject_Z u))
    by (rewrite inject_Z_mult; ring).
  split; apply (Qmult_le_r _ _ _ HU2).
  - assert (E1 : - (1 # 2) * (2 * inject_Z u) == - inject_Z u) by ring.
    rewrite E1, E2, Hxu. lra.
  - assert (E1 : (1 # 2) * (2 * inject_Z u) == inject_Z u) by ring.
    rewrite E1, E2, Hxu. lra.
Qed.

(** Claim C9, amended. [fl] is the rounding of double arithmetic: it
    respects equality of rationals, is exact on the integers up to 2^53
    and has relative error at most 2^-53 between 2^-64 and 2^64. For skill
    sets S1 and S2 the computed percentage is 0 when both are empty; when
    the union has fewer than 2^40 ids it is an integer nearest to
    100 |S1 ∩ S2| / |S1 ∪ S2| (within one half of it); it is 100 when
    the two sets are equal and not empty; and the inline copy in
    user.controller.js computes the same number. *)
Theorem skill_match_is_rounded_jaccard (S1 S2 : gset string) :
  let r := calculateSkillMatchPercent fl S1 S2 in
  let i := Z.of_nat (size (S1 ∩ S2)) in
  let u := Z.of_nat (size (S1 ∪ S2)) in
  (S1 = ∅ → S2 = ∅ → r = 0%Z)
  ∧ ((0 < u < 2 ^ 40)%Z →
     Qabs (inject_Z r - 100 * inject_Z i / inject_Z u) <= 1 # 2)
  ∧ (S1 = S2 → S1 ≠ ∅ → r = 100%Z)
  ∧ (∀ l1 l2, list_to_set l1 = S1 → list_to_set l2 = S2 →
       skillMatchPercent fl l1 l2 = r).
Proof.
  intros r i u. subst r.
  assert (Hr : calculateSkillMatchPercent fl S1 S2
               = if (0 <? u)%Z
                 then Math_round (fl (fl (inject_Z i / inject_Z u) * 100))
                 else 0%Z).
  { unfold calculateSkillMatchPercent, js_mul, js_div.
    rewrite union_size, intersection_length_size. reflexivity. }
  assert (Hiu : (0 ≤ i ≤ u)%Z).
  { subst i u. split; [lia|]. apply inj_le, subseteq_size. set_solver. }
  repeat split.
  - intros -> ->. reflexivity.
  - intros Hu. rewrite Hr.
    destruct (Z.ltb_spec 0 u); [|lia].
    apply nearest_of_bounds; [lia|]. apply round_percent_bounds; lia.
  - intros <- Hne. rewrite Hr.
    assert (Hi : i = u) by (subst i u; do 2 f_equal; set_solver).
    assert (Hu : (0 < u)%Z).
    { subst u. assert (size (S1 ∪ S1) ≠ 0%nat); [|lia].
      apply size_non_empty_iff. set_solver. }
    destruct (Z.ltb_spec 0 u); [|lia].
    rewrite Hi. by apply round_percent_same.
  - intros l1 l2 <- <-. reflexivity.
Qed.
End MatchingClaims.

Section MatchingWitness.
Import Matching Spec.
Local Open Scope Q_scope.

Lemma skill_match_is_rounded_jaccard_witness :
  let S1 : gset string := {["js"; "sql"]} in
  let S2 : gset string := {["sql"; "go"]} in
  Qabs (inject_Z (calculateSkillMatchPercent exact_arithmetic S1 S2)
        - 100 * inject_Z (Z.of_nat (size (S1 ∩ S2)))
          / inject_Z (Z.of_nat (size (S1 ∪ S2)))) <= 1 # 2
  ∧ calculateSkillMatchPercent exact_arithmetic S1 S1 = 100%Z.
Proof.
  intros S1 S2.
  assert (H1 : ∀ x y, x == y → exact_arithmetic x == exact_arithmetic y)
    by (intros x y H; exact H).
  assert (H2 : ∀ n : Z, (Z.abs n ≤ 2 ^ 53)%Z →
               exact_arithmetic (inject_Z n) == inject_Z n)
    by (intros; reflexivity).
  assert (H3 : ∀ x, 1 # (2 ^ 64) <= Qabs x → Qabs x <= inject_Z (2 ^ 64) →
               Qabs (exact_arithmetic x - x) <= Qabs x * (1 # (2 ^ 53))).
  { intros x _ _.
    assert (E : exact_arithmetic x - x == 0) by (unfold exact_arithmetic; ring).
    rewrite E. apply Qmult_le_0_compat; [apply Qabs_nonneg | done]. }
  split.
  - pose proof (skill_match_is_rounded_jaccard exact_arithmetic H1 H2 H3 S1 S2)
      as (_ & H & _).
    apply H. vm_compute. split; reflexivity.
  - pose proof (skill_match_is_rounded_jaccard exact_arithmetic H1 H2 H3 S1 S1)
      as (_ & _ & H & _).
    apply H; [reflexivity|].
    intros E. apply (f_equal size) in E. vm_compute in E. discriminate.
Defined.

Lemma identical_empty_skill_sets_match_zero :
  (∀ fl, calculateSkillMatchPercent fl ∅ ∅ = 0%Z)
  ∧ (∀ fl, calculateSkillMatchPercent fl ∅ ∅ ≠ 100%Z)
  ∧ (∀ fl, skillMatchPercent fl [] [] = 0%Z).
Proof. repeat split; intros fl; vm_compute; congruence. Qed.
End MatchingWitness.
(** * Further properties *)

(** ** Store calls that are answered *)

Section HealthyStore.
Import Store.

Lemma set_db_id w : set_db (db w) w = w.
Proof. by destruct w. Qed.

Lemma user_findUnique_healthy id w :
  faults w = [] → user_findUnique id w = (Ok (users (db w) !! id), w).
Proof.
  intros Hf. unfold user_findUnique. rewrite prisma_healthy by done.
  simpl. by rewrite set_db_id.
Qed.

Lemma user_update_healthy id f u w :
  faults w = [] → users (db w) !! id = Some u →
  user_update id f w = (Ok (f u), set_db (set_users <[id := f u]> (db w)) w).
Proof.
  intros Hf Hu. unfold user_update. rewrite prisma_healthy by done.
  by rewrite Hu.
Qed.

Lemma project_findUnique_healthy id w :
  faults w = [] → project_findUnique id w = (Ok (projects (db w) !! id), w).
Proof.
  intros Hf. unfold project_findUnique. rewrite prisma_healthy by done.
  simpl. by rewrite set_db_id.
Qed.

Lemma project_findUnique_members_healthy id w :
  faults w = [] →
  project_findUnique_members id w
  = (Ok ((λ p, (p, members_of (db w) id)) <$> projects (db w) !! id), w).
Proof.
  intros Hf. unfold project_findUnique_members. rewrite prisma_healthy by done.
  simpl. by rewrite set_db_id.
Qed.

Lemma projectMember_findUnique_healthy pid uid w :
  faults w = [] →
  projectMember_findUnique pid uid w = (Ok (members (db w) !! (pid, uid)), w).
Proof.
  intros Hf. unfold projectMember_findUnique. rewrite prisma_healthy by done.
  simpl. by rewrite set_db_id.
Qed.

Lemma projectMember_create_healthy pid uid r p u w :
  faults w = [] → members (db w) !! (pid, uid) = None →
  projects (db w) !! pid = Some p → users (db w) !! uid = Some u →
  projectMember_create pid uid r w
  = (Ok tt, set_db (set_members <[(pid, uid) := r]> (db w)) w).
Proof.
  intros Hf Hm Hp Hu. unfold projectMember_create. rewrite prisma_healthy by done.
  by rewrite Hm, Hp, Hu.
Qed.

Lemma projectMember_delete_healthy pid uid r w :
  faults w = [] → members (db w) !! (pid, uid) = Some r →
  projectMember_delete pid uid w
  = (Ok tt, set_db (set_members (delete (pid, uid)) (db w)) w).
Proof.
  intros Hf Hm. unfold projectMember_delete. rewrite prisma_healthy by done.
  by rewrite Hm.
Qed.

Lemma project_create_healthy p u w :
  faults w = [] → projects (db w) !! pretty (nextId w) = None →
  users (db w) !! createdBy p = Some u →
  project_create p w
  = (Ok (pretty (nextId w), p),
     set_db (set_projects <[pretty (nextId w) := p]> (db w))
            (set_nextId (S (nextId w)) w)).
Proof.
  intros Hf Hp Hu. unfold project_create.
  erewrite bind_step by reflexivity.
  rewrite prisma_healthy by done. simpl. by rewrite Hp, Hu.
Qed.
End HealthyStore.

(** ** The membership state machine, path by path *)

Section MembershipPaths.
Import Store ProjectController.

Ltac step H := erewrite bind_step by (apply H; try done).

Lemma createProject_run w uid u t d m :
  faults w = [] →
  users (db w) !! uid = Some u →
  activeProjectCount u < 2 →
  t ≠ "" → d ≠ "" → m ≠ "" →
  projects (db w) !! pretty (nextId w) = None →
  members (db w) !! (pretty (nextId w), uid) = None →
  let pid := pretty (nextId w) in
  let project := mkProject (Js.trim t) (Js.trim d) (Js.trim m) uid active in
  let out := createProject (mkCreateReq uid (Some t) (Some d) (Some m)) w in
  out.1 = mkResponse 201 (JCreated "Project created successfully" pid project)
  ∧ db out.2 =
      set_users <[uid := increment_activeProjectCount 1 u]>
        (set_members <[(pid, uid) := leader]>
           (set_projects <[pid := project]> (db w))).
Proof.
  intros Hf Hu Hc Ht Hd Hm Hp Hmem pid project out. subst out.
  unfold createProject, handler. simpl.
  unfold Js.empty. rewrite !bool_decide_eq_false_2 by done. simpl.
  erewrite bind_step by (by apply user_findUnique_healthy).
  rewrite Hu. replace (activeProjectCount u >=? 2) with false by lia.
  erewrite bind_step by (by eapply project_create_healthy).
  simpl.
  erewrite bind_step.
  2: { eapply projectMember_create_healthy; simpl;
         first [done | apply lookup_insert_eq | exact Hu]. }
  erewrite bind_step.
  2: { eapply user_update_healthy; simpl; [done | exact Hu]. }
  simpl. split; reflexivity.
Qed.

Lemma joinProject_run w uid u pid p :
  faults w = [] → pid ≠ "" →
  users (db w) !! uid = Some u → activeProjectCount u < 2 →
  projects (db w) !! pid = Some p → status p = active →
  members (db w) !! (pid, uid) = None →
  joinProject (mkProjectReq uid (Some pid)) w
  = (mkResponse 200 (JMessage "Successfully joined the project"),
     set_db (set_users <[uid := increment_activeProjectCount 1 u]>
               (set_members <[(pid, uid) := member]> (db w))) w).
Proof.
  intros Hf Hne Hu Hc Hp Hs Hm.
  unfold joinProject, handler. simpl.
  rewrite bool_decide_eq_false_2 by done. simpl.
  erewrite bind_step by (by apply user_findUnique_healthy).
  rewrite Hu. replace (activeProjectCount u >=? 2) with false by lia.
  erewrite bind_step by (by apply project_findUnique_healthy).
  rewrite Hp. rewrite bool_decide_eq_false_2 by (rewrite Hs; auto).
  erewrite bind_step by (by apply projectMember_findUnique_healthy).
  rewrite Hm.
  erewrite bind_step by (by eapply projectMember_create_healthy).
  erewrite bind_step by (by eapply user_update_healthy).
  reflexivity.
Qed.

Lemma joinProject_refused_run w uid u pid :
  faults w = [] → pid ≠ "" →
  users (db w) !! uid = Some u → activeProjectCount u < 2 →
  let out := joinProject (mkProjectReq uid (Some pid)) w in
  ((status <$> projects (db w) !! pid) ≠ Some active →
     out = (mkResponse 400 (JError "Project not found or not active"), w))
  ∧ ((status <$> projects (db w) !! pid) = Some active →
     is_Some (members (db w) !! (pid, uid)) →
     out = (mkResponse 400 (JError "You are already a member of this project"), w)).
Proof.
  intros Hf Hne Hu Hc out. subst out.
  unfold joinProject, handler. simpl.
  rewrite bool_decide_eq_false_2 by done. simpl.
  erewrite bind_step by (by apply user_findUnique_healthy).
  rewrite Hu. replace (activeProjectCount u >=? 2) with false by lia.
  erewrite bind_step by (by apply project_findUnique_healthy).
  split.
  - intros Hs. destruct (projects (db w) !! pid) as [p|]; [|done].
    rewrite bool_decide_eq_true_2; [done|]. simpl in Hs. congruence.
  - intros Hs [r Hr]. destruct (projects (db w) !! pid) as [p|]; [|done].
    rewrite bool_decide_eq_false_2 by (simpl in Hs; intros H; apply H; congruence).
    erewrite bind_step by (by apply projectMember_findUnique_healthy).
    by rewrite Hr.
Qed.

Lemma leaveProject_run w uid pid :
  faults w = [] → pid ≠ "" →
  let out := leaveProject (mkProjectReq uid (Some pid)) w in
  (members (db w) !! (pid, uid) = None →
     out = (mkResponse 404 (JError "You are not a member of this project"), w))
  ∧ (∀ r p u, members (db w) !! (pid, uid) = Some r →
       projects (db w) !! pid = Some p → users (db w) !! uid = Some u →
       out.1 = mkResponse 200 (JMessage "Successfully left the project")
       ∧ db out.2 =
           (if bool_decide (status p = active)
            then set_users <[uid := decrement_activeProjectCount 1 u]>
            else λ d, d)
             (set_members (delete (pid, uid)) (db w))).
Proof.
  intros Hf Hne out. subst out.
  unfold leaveProject, handler. simpl.
  rewrite bool_decide_eq_false_2 by done. simpl.
  erewrite bind_step by (by apply projectMember_findUnique_healthy).
  split.
  - by intros ->.
  - intros r p u Hm Hp Hu. rewrite Hm.
    erewrite bind_step by (by apply project_findUnique_healthy).
    erewrite bind_step by (by eapply projectMember_delete_healthy).
    rewrite Hp. simpl.
    destruct (bool_decide (status p = active)).
    + erewrite bind_step.
      2: { unfold void. erewrite bind_step by (by eapply user_update_healthy).
           reflexivity. }
      simpl. done.
    + erewrite bind_step by reflexivity. simpl. done.
Qed.

Lemma completeProject_refused_run w uid pid :
  faults w = [] → pid ≠ "" →
  let out := completeProject (mkProjectReq uid (Some pid)) w in
  (projects (db w) !! pid = None →
     out = (mkResponse 404 (JError "Project not found"), w))
  ∧ (∀ p, projects (db w) !! pid = Some p → createdBy p ≠ uid →
       out = (mkResponse 403
                (JError "Only the project creator can mark it as completed"), w))
  ∧ (∀ p, projects (db w) !! pid = Some p → createdBy p = uid →
       status p = completed →
       out = (mkResponse 400 (JError "Project is already completed"), w)).
Proof.
  intros Hf Hne out. subst out.
  unfold completeProject, handler. simpl.
  rewrite bool_decide_eq_false_2 by done. simpl.
  erewrite bind_step by (by apply project_findUnique_members_healthy).
  repeat split.
  - by intros ->.
  - intros p -> Hc. simpl. by rewrite bool_decide_eq_true_2.
  - intros p -> Hc Hs. simpl.
    rewrite bool_decide_eq_false_2 by auto.
    by rewrite bool_decide_eq_true_2.
Qed.

Lemma join_then_leave_run w uid u pid p :
  faults w = [] → pid ≠ "" →
  users (db w) !! uid = Some u → activeProjectCount u < 2 →
  projects (db w) !! pid = Some p → status p = active →
  members (db w) !! (pid, uid) = None →
  let req := mkProjectReq uid (Some pid) in
  (leaveProject req (joinProject req w).2).1
  = mkResponse 200 (JMessage "Successfully left the project")
  ∧ db (leaveProject req (joinProject req w).2).2 = db w.
Proof.
  intros Hf Hne Hu Hc Hp Hs Hm req. subst req.
  rewrite (joinProject_run w uid u pid p) by done. simpl.
  set (w1 := set_db _ w).
  destruct (leaveProject_run w1 uid pid) as [_ H]; [done | done |].
  destruct (H member p (increment_activeProjectCount 1 u)) as [H1 H2].
  { simpl. apply lookup_insert_eq. }
  { exact Hp. }
  { simpl. apply lookup_insert_eq. }
  split; [exact H1|]. rewrite H2.
  rewrite bool_decide_eq_true_2 by done. simpl.
  destruct (db w) as [us ps ms rl msgs ns] eqn:E. unfold set_users, set_members.
  simpl in *. f_equal.
  - rewrite insert_insert_eq. apply insert_id. rewrite Hu. f_equal.
    destruct u; unfold decrement_activeProjectCount, increment_activeProjectCount;
      simpl; f_equal; lia.
  - by apply delete_insert_id.
Qed.
End MembershipPaths.
(** ** The count invariant *)

Section InvariantLemmas.
Import Store Invariant.

Lemma active_memberships_ext d d' uid :
  members d' = members d → projects d' = projects d →
  active_memberships d' uid = active_memberships d uid.
Proof.
  intros Hm Hp. unfold active_memberships. f_equal.
  apply map_filter_strong_ext_1. intros i x. unfold counts_for.
  by rewrite Hm, Hp.
Qed.

Lemma active_memberships_insert d d' uid' pid uid r :
  members d' = <[(pid, uid) := r]> (members d) → projects d' = projects d →
  members d !! (pid, uid) = None →
  active_memberships d' uid'
  = if bool_decide (uid = uid' ∧ (status <$> projects d !! pid) = Some active)
    then S (active_memberships d uid')
    else active_memberships d uid'.
Proof.
  intros Hm Hp Hn. unfold active_memberships.
  assert (E : filter (counts_for d' uid') (members d')
              = filter (counts_for d uid') (<[(pid, uid) := r]> (members d))).
  { apply map_filter_strong_ext_1. intros i x. unfold counts_for.
    by rewrite Hm, Hp. }
  rewrite E, map_filter_insert. case_bool_decide as H; case_decide as H'.
  - apply map_size_insert_None, map_lookup_filter_None_2. by left.
  - destruct H'. exact H.
  - destruct H. exact H'.
  - by rewrite (delete_id _ _ Hn).
Qed.

Lemma active_memberships_delete d d' uid' pid uid :
  members d' = delete (pid, uid) (members d) → projects d' = projects d →
  active_memberships d' uid'
  = if bool_decide (uid = uid' ∧ is_Some (members d !! (pid, uid))
                    ∧ (status <$> projects d !! pid) = Some active)
    then pred (active_memberships d uid')
    else active_memberships d uid'.
Proof.
  intros Hm Hp. unfold active_memberships.
  assert (E : filter (counts_for d' uid') (members d')
              = filter (counts_for d uid') (delete (pid, uid) (members d))).
  { apply map_filter_strong_ext_1. intros i x. unfold counts_for.
    by rewrite Hm, Hp. }
  rewrite E, map_filter_delete. case_bool_decide as H.
  - destruct H as (-> & [r Hr] & Hs).
    apply map_size_delete_Some. exists r.
    apply map_lookup_filter_Some_2; [done|]. by split.
  - apply map_size_delete_None, map_lookup_filter_None_2.
    destruct (members d !! (pid, uid)) as [r|] eqn:Hr; [right | by left].
    intros x [= <-] [H1 H2]. simpl in *. apply H. eauto.
Qed.

Lemma active_memberships_new_project d d' uid pid p :
  members d' = members d → projects d' = <[pid := p]> (projects d) →
  (∀ u, members d !! (pid, u) = None) →
  active_memberships d' uid = active_memberships d uid.
Proof.
  intros Hm Hp Hn. unfold active_memberships. f_equal.
  apply map_filter_strong_ext_1. intros [pid' u] x. unfold counts_for. simpl.
  rewrite Hm, Hp. destruct (decide (pid = pid')) as [<-|Hne].
  - rewrite Hn. naive_solver.
  - by rewrite lookup_insert_ne.
Qed.

Lemma active_memberships_complete d d' uid pid p :
  members d' = members d →
  projects d' = <[pid := assign_status completed p]> (projects d) →
  projects d !! pid = Some p → status p = active →
  active_memberships d' uid
  = if bool_decide (is_Some (members d !! (pid, uid)))
    then pred (active_memberships d uid)
    else active_memberships d uid.
Proof.
  intros Hm Hp Hl Hs. unfold active_memberships.
  assert (E : filter (counts_for d' uid) (members d')
              = filter (counts_for d uid) (delete (pid, uid) (members d))).
  { apply map_filter_strong_ext_1. intros [pid' u] x. unfold counts_for. simpl.
    rewrite Hm, Hp, lookup_delete_Some.
    destruct (decide (pid = pid')) as [<-|Hne].
    - rewrite lookup_insert_eq. simpl. naive_solver.
    - rewrite lookup_insert_ne by done. naive_solver. }
  rewrite E, map_filter_delete. case_bool_decide as H.
  - destruct H as [r Hr]. apply map_size_delete_Some. exists r.
    apply map_lookup_filter_Some_2; [done|]. split; [done|]. simpl.
    by rewrite Hl, <- Hs.
  - apply map_size_delete_None, map_lookup_filter_None_2. left.
    by apply eq_None_not_Some.
Qed.

Lemma active_memberships_pos d uid pid r :
  members d !! (pid, uid) = Some r →
  (status <$> projects d !! pid) = Some active →
  (0 < active_memberships d uid)%nat.
Proof.
  intros Hm Hs. unfold active_memberships.
  set (m := filter _ _).
  assert (Hk : m !! (pid, uid) = Some r)
    by (apply map_lookup_filter_Some_2; [done | by split]).
  rewrite <- (insert_id m _ _ Hk), <- insert_delete_eq.
  rewrite map_size_insert_None by apply lookup_delete_eq. lia.
Qed.

Lemma consistent_join d uid u pid p r :
  consistent d →
  users d !! uid = Some u → projects d !! pid = Some p → status p = active →
  members d !! (pid, uid) = None →
  consistent (set_users <[uid := increment_activeProjectCount 1 u]>
                (set_members <[(pid, uid) := r]> d)).
Proof.
  intros [Hrows Hcount] Hu Hp Hs Hm. split.
  - intros pid' uid' Hin. simpl in *.
    destruct (decide ((pid, uid) = (pid', uid'))) as [[= <- <-]|Hne].
    + rewrite lookup_insert_eq. eauto.
    + rewrite lookup_insert_ne in Hin by done.
      destruct (Hrows _ _ Hin) as [H1 H2]. split; [done|].
      destruct (decide (uid = uid')) as [<-|?];
        [rewrite lookup_insert_eq | rewrite lookup_insert_ne]; eauto.
  - intros uid' u' Hu'. simpl in Hu'.
    rewrite (active_memberships_insert d _ uid' pid uid r) by done.
    destruct (decide (uid = uid')) as [<-|Hne].
    + rewrite lookup_insert_eq in Hu'. injection Hu' as <-.
      rewrite bool_decide_eq_true_2 by (rewrite Hp; simpl; by rewrite Hs).
      simpl. rewrite (Hcount _ _ Hu). lia.
    + rewrite lookup_insert_ne in Hu' by done.
      rewrite bool_decide_eq_false_2 by (intros [? _]; done). eauto.
Qed.

Lemma consistent_new_project d pid p :
  consistent d → projects d !! pid = None →
  consistent (set_projects <[pid := p]> d).
Proof.
  intros [Hrows Hcount] Hp. split.
  - intros pid' uid' Hin. simpl in *. destruct (Hrows _ _ Hin) as [H1 H2].
    split; [|done].
    destruct (decide (pid = pid')) as [<-|?];
      [rewrite lookup_insert_eq | rewrite lookup_insert_ne]; eauto.
  - intros uid u Hu. simpl in Hu.
    rewrite (active_memberships_new_project d _ uid pid p); [eauto | done | done |].
    intros u'. apply eq_None_not_Some. intros Hin.
    destruct (Hrows _ _ Hin) as [[? H1] _]. congruence.
Qed.

Lemma consistent_leave d uid u pid p r :
  consistent d →
  members d !! (pid, uid) = Some r →
  projects d !! pid = Some p → users d !! uid = Some u →
  consistent ((if bool_decide (status p = active)
               then set_users <[uid := decrement_activeProjectCount 1 u]>
               else λ d, d)
                (set_members (delete (pid, uid)) d)).
Proof.
  intros [Hrows Hcount] Hm Hp Hu.
  set (d' := (if bool_decide (status p = active) then _ else _) _).
  assert (Hm' : members d' = delete (pid, uid) (members d))
    by (unfold d'; by case_bool_decide).
  assert (Hp' : projects d' = projects d)
    by (unfold d'; by case_bool_decide).
  split.
  - intros pid' uid' Hin. rewrite Hm' in Hin. rewrite Hp'.
    apply lookup_delete_is_Some in Hin as [Hne Hin].
    destruct (Hrows _ _ Hin) as [H1 H2]. split; [done|].
    unfold d'. case_bool_decide; simpl; [|done].
    destruct (decide (uid = uid')) as [<-|?];
      [rewrite lookup_insert_eq | rewrite lookup_insert_ne]; eauto.
  - intros uid' u' Hu'.
    rewrite (active_memberships_delete d d' uid' pid uid) by done.
    unfold d' in Hu'. case_bool_decide as Hs; simpl in Hu'.
    + destruct (decide (uid = uid')) as [<-|Hne].
      * rewrite lookup_insert_eq in Hu'. injection Hu' as <-.
        rewrite bool_decide_eq_true_2 by (rewrite Hp, Hm; simpl; rewrite Hs; eauto).
        simpl. rewrite (Hcount _ _ Hu).
        pose proof (active_memberships_pos d uid pid r Hm) as Hpos.
        rewrite Hp in Hpos. simpl in Hpos. rewrite Hs in Hpos.
        specialize (Hpos eq_refl). lia.
      * rewrite lookup_insert_ne in Hu' by done.
        rewrite bool_decide_eq_false_2 by (intros [? _]; done). eauto.
    + rewrite bool_decide_eq_false_2; [eauto|].
      intros (_ & _ & Hs'). rewrite Hp in Hs'. simpl in Hs'. congruence.
Qed.

Lemma consistent_complete d d' pid p :
  consistent d → projects d !! pid = Some p → status p = active →
  Spec.completed_from pid d d' → consistent d'.
Proof.
  intros [Hrows Hcount] Hp Hs ((p0 & Hp0 & Hps) & Hmem & Hoth & Hms & _).
  rewrite Hp in Hp0. injection Hp0 as <-. split.
  - intros pid' uid' Hin. rewrite Hms in Hin.
    destruct (Hrows _ _ Hin) as [H1 H2]. split.
    + rewrite Hps. destruct (decide (pid = pid')) as [<-|?];
        [rewrite lookup_insert_eq | rewrite lookup_insert_ne]; eauto.
    + destruct (members d !! (pid, uid')) as [r|] eqn:Hr.
      * destruct (Hmem uid') as (u & _ & ->); eauto.
      * by rewrite Hoth.
  - intros uid u' Hu'.
    rewrite (active_memberships_complete d d' uid pid p) by done.
    destruct (members d !! (pid, uid)) as [r|] eqn:Hr.
    + rewrite bool_decide_eq_true_2 by eauto.
      destruct (Hmem uid) as (u & Hu & Hu2); [eauto|].
      rewrite Hu2 in Hu'. injection Hu' as <-. simpl.
      rewrite (Hcount _ _ Hu).
      pose proof (active_memberships_pos d uid pid r Hr) as Hpos.
      rewrite Hp in Hpos. simpl in Hpos. rewrite Hs in Hpos.
      specialize (Hpos eq_refl). lia.
    + rewrite bool_decide_eq_false_2 by (intros [? ?]; done).
      rewrite Hoth in Hu' by done. eauto.
Qed.
End InvariantLemmas.
Section InvariantHandlers.
Import Store ProjectController Invariant Spec.

Lemma project_create_taken p p0 w :
  faults w = [] → projects (db w) !! pretty (nextId w) = Some p0 →
  ∃ w', project_create p w = (Throw P2002, w') ∧ db w' = db w.
Proof.
  intros Hf Hp. unfold project_create. erewrite bind_step by reflexivity.
  rewrite prisma_healthy by done. simpl. rewrite Hp. eexists. split; reflexivity.
Qed.

Lemma createProject_keeps req w :
  faults w = [] → consistent (db w) → consistent (db (createProject req w).2).
Proof.
  intros Hf Hc. destruct req as [uid [t|] [d|] [m|]];
    try (unfold createProject, handler; simpl; exact Hc).
  destruct (decide (t = "")) as [->|Ht];
    [unfold createProject, handler; simpl; exact Hc|].
  destruct (decide (d = "")) as [->|Hd].
  { unfold createProject, handler, Js.empty; simpl.
    rewrite (bool_decide_eq_false_2 _ Ht). simpl. exact Hc. }
  destruct (decide (m = "")) as [->|Hm].
  { unfold createProject, handler, Js.empty; simpl.
    rewrite (bool_decide_eq_false_2 _ Ht), (bool_decide_eq_false_2 _ Hd).
    simpl. exact Hc. }
  destruct (users (db w) !! uid) as [u|] eqn:Hu.
  2: { unfold createProject, handler, Js.empty; simpl.
       rewrite !bool_decide_eq_false_2 by done. simpl.
       erewrite bind_step by (by apply user_findUnique_healthy).
       rewrite Hu. exact Hc. }
  destruct (Z_lt_dec (activeProjectCount u) 2) as [Hcap|Hcap].
  2: { unfold createProject, handler, Js.empty; simpl.
       rewrite !bool_decide_eq_false_2 by done. simpl.
       erewrite bind_step by (by apply user_findUnique_healthy).
       rewrite Hu. replace (activeProjectCount u >=? 2) with true by lia.
       exact Hc. }
  destruct (projects (db w) !! pretty (nextId w)) as [p0|] eqn:Hp.
  { unfold createProject, handler, Js.empty; simpl.
    rewrite !bool_decide_eq_false_2 by done. simpl.
    erewrite bind_step by (by apply user_findUnique_healthy).
    rewrite Hu. replace (activeProjectCount u >=? 2) with false by lia.
    edestruct project_create_taken as (w' & Hw' & Hd'); [done | exact Hp |].
    erewrite bind_throw by exact Hw'. simpl. by rewrite Hd'. }
  assert (Hmem : members (db w) !! (pretty (nextId w), uid) = None).
  { apply eq_None_not_Some. intros Hin.
    destruct (proj1 Hc _ _ Hin) as [[? H1] _]. congruence. }
  destruct (createProject_run w uid u t d m) as [_ ->]; try done.
  eapply consistent_join; simpl; try done.
  - by apply consistent_new_project.
  - apply lookup_insert_eq.
  - done.
Qed.

Lemma joinProject_keeps req w :
  faults w = [] → consistent (db w) → consistent (db (joinProject req w).2).
Proof.
  intros Hf Hc. destruct req as [uid [pid|]];
    [|unfold joinProject, handler; simpl; exact Hc].
  destruct (decide (pid = "")) as [->|Hne];
    [unfold joinProject, handler; simpl; exact Hc|].
  destruct (users (db w) !! uid) as [u|] eqn:Hu.
  2: { unfold joinProject, handler; simpl.
       rewrite bool_decide_eq_false_2 by done. simpl.
       erewrite bind_step by (by apply user_findUnique_healthy).
       rewrite Hu. exact Hc. }
  destruct (Z_lt_dec (activeProjectCount u) 2) as [Hcap|Hcap].
  2: { unfold joinProject, handler; simpl.
       rewrite bool_decide_eq_false_2 by done. simpl.
       erewrite bind_step by (by apply user_findUnique_healthy).
       rewrite Hu. replace (activeProjectCount u >=? 2) with true by lia.
       exact Hc. }
  destruct (joinProject_refused_run w uid u pid) as [H1 H2]; try done.
  destruct (decide ((status <$> projects (db w) !! pid) = Some active)) as [Hs|Hs].
  2: { by rewrite (H1 Hs). }
  destruct (members (db w) !! (pid, uid)) as [r|] eqn:Hm.
  { rewrite (H2 Hs); [done | eauto]. }
  destruct (projects (db w) !! pid) as [p|] eqn:Hp; [|done].
  simpl in Hs. injection Hs as Hs.
  rewrite (joinProject_run w uid u pid p) by done. simpl.
  by eapply consistent_join.
Qed.

Lemma leaveProject_keeps req w :
  faults w = [] → consistent (db w) → consistent (db (leaveProject req w).2).
Proof.
  intros Hf Hc. destruct req as [uid [pid|]];
    [|unfold leaveProject, handler; simpl; exact Hc].
  destruct (decide (pid = "")) as [->|Hne];
    [unfold leaveProject, handler; simpl; exact Hc|].
  destruct (leaveProject_run w uid pid) as [H1 H2]; try done.
  destruct (members (db w) !! (pid, uid)) as [r|] eqn:Hm.
  2: { by rewrite H1. }
  destruct (proj1 Hc pid uid) as [[p Hp] [u Hu]]; [by rewrite Hm|].
  destruct (H2 r p u) as [_ ->]; try done.
  by eapply consistent_leave.
Qed.

(** The run of completeProject when the store answers every call. *)
Lemma completeProject_run w uid pid p :
  faults w = [] → pid ≠ "" →
  projects (db w) !! pid = Some p → status p = active → createdBy p = uid →
  Forall (λ uid, is_Some (users (db w) !! uid)) (members_of (db w) pid) →
  (completeProject (mkProjectReq uid (Some pid)) w).1
  = mkResponse 200 (JCompleted completed_message pid)
  ∧ completed_from pid (db w) (db (completeProject (mkProjectReq uid (Some pid)) w).2).
Proof.
  intros Hf Hne Hp Hs Hcr Hm.
  rewrite (completeProject_unfold w (mkProjectReq uid (Some pid)) pid p) by done.
  rewrite Hf. simpl.
  replace (set_faults [] w) with w by (destruct w; simpl in *; by subst).
  set (ops := void _ :: _).
  assert (Hb : ∃ w2, run_batch ops w = (Ok tt, w2) ∧ faults w2 = []).
  { subst ops.
    change (run_batch (?a :: ?r)) with (a ≫= λ _, run_batch r).
    erewrite bind_step.
    2: { unfold void, project_update. erewrite bind_step; [reflexivity|].
         rewrite prisma_healthy by done. rewrite Hp. reflexivity. }
    rewrite run_updates_healthy; [eauto | done |].
    intros u Hin. simpl. by apply (proj1 (Forall_forall _ _) Hm). }
  destruct Hb as (w2 & Hb & Hf2).
  rewrite (transaction_healthy ops w w2) by done. simpl. split; [done|].
  apply (completion_batch_Ok pid p (members_of (db w) pid));
    [done | apply members_of_NoDup | apply members_of_elem | done].
Qed.

Lemma completeProject_keeps req w :
  faults w = [] → consistent (db w) → consistent (db (completeProject req w).2).
Proof.
  intros Hf Hc. destruct req as [uid [pid|]];
    [|unfold completeProject, handler; simpl; exact Hc].
  destruct (decide (pid = "")) as [->|Hne];
    [unfold completeProject, handler; simpl; exact Hc|].
  destruct (completeProject_refused_run w uid pid) as (H1 & H2 & H3); try done.
  destruct (projects (db w) !! pid) as [p|] eqn:Hp.
  2: { by rewrite H1. }
  destruct (decide (createdBy p = uid)) as [Hcr|Hcr].
  2: { by rewrite (H2 p). }
  destruct (status p) eqn:Hs.
  2: { by rewrite (H3 p). }
  destruct (completeProject_run w uid pid p) as [_ H]; try done.
  { apply Forall_forall. intros u Hu. apply members_of_elem in Hu.
    by destruct (proj1 Hc _ _ Hu). }
  by eapply consistent_complete.
Qed.
End InvariantHandlers.
(** ** Runs under any behaviour of the store *)

Section TripleRules.
Import Store Triple.

Lemma triple_ret {A} (P : DB → Prop) (a : A) (Q : A → DB → Prop) E :
  (∀ d, P d → Q a d) → triple P (mret a) Q E.
Proof. intros H w Hw. by apply H. Qed.

Lemma triple_throw {A} (P : DB → Prop) e (Q : A → DB → Prop) (E : DB → Prop) :
  (∀ d, P d → E d) → triple P (throw e) Q E.
Proof. intros H w Hw. by apply H. Qed.

Lemma triple_bind {A B} P (m : M A) (k : A → M B) R (Q : B → DB → Prop) E :
  triple P m R E → (∀ a, triple (R a) (k a) Q E) → triple P (m ≫= k) Q E.
Proof.
  intros Hm Hk w Hw. specialize (Hm w Hw).
  unfold mbind, M_bind. destruct (m w) as [[a|e] w1]; [|done].
  by apply Hk.
Qed.

Lemma triple_prisma {A} P (q : DB → Res A * DB) (Q : A → DB → Prop) (E : DB → Prop) :
  (∀ d, P d → E d ∧ match q d with
                      | (Ok a, d') => Q a d'
                      | (Throw _, d') => E d'
                      end) →
  triple P (prisma q) Q E.
Proof.
  intros H w Hw. destruct (H _ Hw) as [He Hq]. unfold prisma.
  destruct (faults w) as [|[] fs]; [| exact He |];
    destruct (q (db w)) as [[a|e] d']; exact Hq.
Qed.

Lemma triple_fresh P (Q : string → DB → Prop) E :
  (∀ id d, P d → Q id d) → triple P fresh Q E.
Proof. intros H w Hw. by apply H. Qed.

Lemma triple_void {A} P (m : M A) (Q : DB → Prop) E :
  triple P m (λ _, Q) E → triple P (void m) (λ _, Q) E.
Proof.
  intros H. unfold void. eapply triple_bind; [exact H|].
  intros a. by apply triple_ret.
Qed.

Lemma triple_run_batch (I : DB → Prop) ops :
  Forall (λ op, triple I op (λ _, I) (λ _, True)) ops →
  triple I (run_batch ops) (λ _, I) (λ _, True).
Proof.
  induction ops as [|op ops IH]; intros H; simpl.
  - by apply triple_ret.
  - apply Forall_cons in H as [Hop Hops].
    eapply triple_bind; [exact Hop|]. intros a. by apply IH.
Qed.

(** A transaction that throws leaves the database it started from. *)
Lemma triple_transaction (P I : DB → Prop) ops :
  (∀ d, P d → I d) →
  Forall (λ op, triple I op (λ _, I) (λ _, True)) ops →
  triple P (transaction ops) (λ _, I) P.
Proof.
  intros HPI Hops w Hw. unfold transaction.
  assert (H : triple I (run_batch ops ≫= λ _, prisma (λ d, (Ok tt, d)))
                (λ _, I) (λ _, True)).
  { eapply triple_bind; [by apply triple_run_batch|].
    intros a. apply triple_prisma. done. }
  specialize (H w (HPI _ Hw)).
  destruct ((run_batch ops ≫= _) w) as [[[]|e] w']; [exact H | exact Hw].
Qed.

Lemma triple_handler P (body : M ProjectController.Response) (Q : DB → Prop) w :
  triple P body (λ _, Q) Q → P (db w) →
  Q (db (ProjectController.handler body w).2).
Proof.
  intros H Hw. specialize (H w Hw). unfold ProjectController.handler.
  by destruct (body w) as [[r|e] w'].
Qed.

Lemma triple_weaken {A} (P P' : DB → Prop) (m : M A) Q E :
  (∀ d, P' d → P d) → triple P m Q E → triple P' m Q E.
Proof. intros HP H w Hw. apply H. by apply HP. Qed.
End TripleRules.
Section TripleHandlers.
Import Store ProjectController Triple.

Lemma triple_read {A} (I : DB → Prop) (f : DB → A) :
  triple I (prisma (λ d, (Ok (f d), d))) (λ _, I) I.
Proof. apply triple_prisma. done. Qed.

Lemma triple_project_create I p :
  kept_by_project_insert I → triple I (project_create p) (λ _, I) I.
Proof.
  intros H. unfold project_create. eapply triple_bind.
  - apply (triple_fresh I (λ _, I)). done.
  - intros id. apply triple_prisma. intros d Hd. split; [done|].
    destruct (projects d !! id) eqn:Hp; [done|].
    destruct (users d !! createdBy p); [|done]. by apply H.
Qed.

Lemma triple_projectMember_create I pid uid r :
  kept_by_member_insert I → triple I (projectMember_create pid uid r) (λ _, I) I.
Proof.
  intros H. apply triple_prisma. intros d Hd. split; [done|].
  destruct (members d !! (pid, uid)) eqn:Hm; [done|].
  destruct (projects d !! pid); [|done].
  destruct (users d !! uid); [|done]. by apply H.
Qed.

Lemma triple_projectMember_delete I pid uid :
  kept_by_member_delete I → triple I (projectMember_delete pid uid) (λ _, I) I.
Proof.
  intros H. apply triple_prisma. intros d Hd. split; [done|].
  destruct (members d !! (pid, uid)); [|done]. by apply H.
Qed.

Lemma triple_increment I uid :
  kept_by_increment I →
  triple I (user_update uid (increment_activeProjectCount 1)) (λ _, I) I.
Proof.
  intros H. apply triple_prisma. intros d Hd. split; [done|].
  destruct (users d !! uid) eqn:Hu; [|done]. by apply H.
Qed.

Lemma triple_decrement I uid :
  kept_by_decrement I →
  triple I (user_update uid (decrement_activeProjectCount 1)) (λ _, I) I.
Proof.
  intros H. apply triple_prisma. intros d Hd. split; [done|].
  destruct (users d !! uid) eqn:Hu; [|done]. by apply H.
Qed.

Lemma triple_complete_status I pid :
  kept_by_completion I →
  triple I (project_update pid (assign_status completed)) (λ _, I) I.
Proof.
  intros H. apply triple_prisma. intros d Hd. split; [done|].
  destruct (projects d !! pid) eqn:Hp; [|done]. by apply H.
Qed.

Lemma triple_error {A} (I E : DB → Prop) (m : M A) (Q : A → DB → Prop) :
  triple I m Q E → triple I m Q (λ _, True).
Proof.
  intros H w Hw. specialize (H w Hw). by destruct (m w) as [[a|e] w'].
Qed.

Lemma createProject_keeps_property I req w :
  kept_by_project_insert I → kept_by_member_insert I → kept_by_increment I →
  I (db w) → I (db (createProject req w).2).
Proof.
  intros H1 H2 H3 Hw. unfold createProject. apply (triple_handler I); [|done].
  destruct req as [uid [t|] [d|] [m|]]; simpl; try (by apply triple_ret).
  destruct (Js.empty t || Js.empty d || Js.empty m); [by apply triple_ret|].
  eapply triple_bind; [apply triple_read|].
  intros [u|]; [|by apply triple_throw].
  destruct (activeProjectCount u >=? 2); [by apply triple_ret|].
  eapply triple_bind; [by apply triple_project_create|]. intros created.
  eapply triple_bind; [by apply triple_projectMember_create|]. intros ?.
  eapply triple_bind; [by apply triple_increment|]. intros ?.
  by apply triple_ret.
Qed.

Lemma joinProject_keeps_property I req w :
  kept_by_member_insert I → kept_by_increment I →
  I (db w) → I (db (joinProject req w).2).
Proof.
  intros H2 H3 Hw. unfold joinProject. apply (triple_handler I); [|done].
  destruct (Js.falsy (p_projectId req)); [by apply triple_ret|].
  eapply triple_bind; [apply triple_read|].
  intros [u|]; [|by apply triple_throw].
  destruct (activeProjectCount u >=? 2); [by apply triple_ret|].
  eapply triple_bind; [apply triple_read|]. intros project.
  match goal with |- context [if ?b then _ else _] => destruct b end;
    [by apply triple_ret|].
  eapply triple_bind; [apply triple_read|].
  intros [r|]; [by apply triple_ret|].
  eapply triple_bind; [by apply triple_projectMember_create|]. intros ?.
  eapply triple_bind; [by apply triple_increment|]. intros ?.
  by apply triple_ret.
Qed.

Lemma leaveProject_keeps_property I req w :
  kept_by_member_delete I → kept_by_decrement I →
  I (db w) → I (db (leaveProject req w).2).
Proof.
  intros H2 H3 Hw. unfold leaveProject. apply (triple_handler I); [|done].
  destruct (Js.falsy (p_projectId req)); [by apply triple_ret|].
  eapply triple_bind; [apply triple_read|].
  intros [r|]; [|by apply triple_ret].
  eapply triple_bind; [apply triple_read|]. intros project.
  eapply triple_bind; [by apply triple_projectMember_delete|]. intros ?.
  destruct project as [p|]; [|by apply triple_throw].
  eapply triple_bind with (R := λ _, I).
  - destruct (bool_decide (status p = active)).
    + apply triple_void. by apply triple_decrement.
    + by apply triple_ret.
  - intros ?. by apply triple_ret.
Qed.

Lemma completeProject_keeps_property I req w :
  kept_by_completion I → kept_by_decrement I →
  I (db w) → I (db (completeProject req w).2).
Proof.
  intros H1 H3 Hw. unfold completeProject. apply (triple_handler I); [|done].
  destruct (Js.falsy (p_projectId req)); [by apply triple_ret|].
  eapply triple_bind; [apply triple_read|].
  intros [[p ms]|]; [|by apply triple_ret].
  destruct (bool_decide (createdBy p ≠ p_userId req)); [by apply triple_ret|].
  destruct (bool_decide (status p = completed)); [by apply triple_ret|].
  eapply triple_bind with (R := λ _, I).
  - apply triple_transaction; [done|]. apply Forall_cons. split.
    + apply triple_void. eapply triple_error. by apply triple_complete_status.
    + apply Forall_fmap, Forall_forall. intros uid _. simpl.
      apply triple_void. eapply triple_error. by apply triple_decrement.
  - intros ?. by apply triple_ret.
Qed.
End TripleHandlers.
(** ** The handlers await by await *)

Section StepsAgree.
Import Store ProjectController ProjectSteps Serving.

Lemma agree_ret r : agree (mret r) (mret r).
Proof. intros w. reflexivity. Qed.

Lemma agree_throw e : agree (ProjectSteps.throw e) (Store.throw e).
Proof. intros w. reflexivity. Qed.

Lemma agree_await {X} (call : M X) k k' :
  (∀ x, agree (k x) (k' x)) → agree (await call ≫= k) (call ≫= k').
Proof.
  intros H w.
  unfold agree, ProjectSteps.handler, ProjectController.handler in *.
  unfold mbind, Prog_bind, M_bind, await. simpl.
  destruct (call w) as [[x|e] w']; [apply H | reflexivity].
Qed.

Lemma agree_void_await {X} (call : M X) k k' :
  agree (k tt) (k' tt) →
  agree (ProjectSteps.void (await call) ≫= k) (Store.void call ≫= k').
Proof.
  intros H w.
  unfold agree, ProjectSteps.handler, ProjectController.handler in *.
  unfold ProjectSteps.void, Store.void, mbind, Prog_bind, M_bind, await. simpl.
  destruct (call w) as [[x|e] w']; [apply H | reflexivity].
Qed.

Ltac to_agree :=
  match goal with
  | |- ∀ w, uninterrupted (ProjectSteps.handler ?p) w
            = (Ok (ProjectController.handler ?m w).1, _) =>
    change (agree p m)
  end.

Lemma uninterrupted_createProject req w :
  uninterrupted (ProjectSteps.createProject req) w
  = (Ok (ProjectController.createProject req w).1,
     (ProjectController.createProject req w).2).
Proof.
  revert w. unfold ProjectSteps.createProject, ProjectController.createProject.
  to_agree.
  destruct (c_title req) as [t|], (c_description req) as [d|],
    (c_domain req) as [m|]; try apply agree_ret.
  destruct (Js.empty t || Js.empty d || Js.empty m); [apply agree_ret|].
  apply agree_await. intros [u|]; [|apply agree_throw].
  destruct (activeProjectCount u >=? 2); [apply agree_ret|].
  apply agree_await. intros created.
  apply agree_await. intros _.
  apply agree_await. intros _.
  apply agree_ret.
Qed.

Lemma uninterrupted_joinProject req w :
  uninterrupted (ProjectSteps.joinProject req) w
  = (Ok (ProjectController.joinProject req w).1,
     (ProjectController.joinProject req w).2).
Proof.
  revert w. unfold ProjectSteps.joinProject, ProjectController.joinProject.
  to_agree.
  destruct (Js.falsy (p_projectId req)); [apply agree_ret|]. cbv zeta.
  apply agree_await. intros [u|]; [|apply agree_throw].
  destruct (activeProjectCount u >=? 2); [apply agree_ret|].
  apply agree_await. intros project.
  destruct (match project with
            | None => true
            | Some p => bool_decide (status p ≠ active)
            end); [apply agree_ret|].
  apply agree_await. intros [r|]; [apply agree_ret|].
  apply agree_await. intros _.
  apply agree_await. intros _.
  apply agree_ret.
Qed.

Lemma uninterrupted_leaveProject req w :
  uninterrupted (ProjectSteps.leaveProject req) w
  = (Ok (ProjectController.leaveProject req w).1,
     (ProjectController.leaveProject req w).2).
Proof.
  revert w. unfold ProjectSteps.leaveProject, ProjectController.leaveProject.
  to_agree.
  destruct (Js.falsy (p_projectId req)); [apply agree_ret|]. cbv zeta.
  apply agree_await. intros [r|]; [|apply agree_ret].
  apply agree_await. intros project.
  apply agree_await. intros _.
  destruct project as [p|]; [|apply agree_throw].
  destruct (bool_decide (status p = active)).
  - apply agree_void_await. apply agree_ret.
  - apply agree_ret.
Qed.

Lemma uninterrupted_completeProject req w :
  uninterrupted (ProjectSteps.completeProject req) w
  = (Ok (ProjectController.completeProject req w).1,
     (ProjectController.completeProject req w).2).
Proof.
  revert w. unfold ProjectSteps.completeProject, ProjectController.completeProject.
  to_agree.
  destruct (Js.falsy (p_projectId req)); [apply agree_ret|]. cbv zeta.
  apply agree_await. intros [[p ms]|]; [|apply agree_ret].
  destruct (bool_decide (createdBy p ≠ p_userId req)); [apply agree_ret|].
  destruct (bool_decide (status p = completed)); [apply agree_ret|].
  apply agree_await. intros _. apply agree_ret.
Qed.
End StepsAgree.

Section CapAndFinality.
Import Store ProjectController Triple.

Lemma triple_conseq {A} (P : DB → Prop) (m : M A) (Q Q' : A → DB → Prop)
    (E E' : DB → Prop) :
  (∀ a d, Q a d → Q' a d) → (∀ d, E d → E' d) →
  triple P m Q E → triple P m Q' E'.
Proof.
  intros HQ HE H w Hw. specialize (H w Hw).
  destruct (m w) as [[a|e] w']; auto.
Qed.

Lemma capped_decrement : kept_by_decrement capped.
Proof.
  intros d uid u Hd Hu uid' u'. simpl.
  destruct (decide (uid = uid')) as [<-|Hne].
  - rewrite lookup_insert_eq. intros [= <-]. simpl. specialize (Hd _ _ Hu). lia.
  - rewrite lookup_insert_ne by done. apply Hd.
Qed.

(** The increment that follows a passed cap check. *)
Lemma triple_increment_below_cap uid u :
  activeProjectCount u < 2 →
  triple (λ d, capped d ∧ users d !! uid = Some u)
         (user_update uid (increment_activeProjectCount 1))
         (λ _, capped) capped.
Proof.
  intros Hc. apply triple_prisma. intros d [Hd Hu]. split; [done|].
  rewrite Hu. intros uid' u'. simpl.
  destruct (decide (uid = uid')) as [<-|Hne].
  - rewrite lookup_insert_eq. intros [= <-]. simpl. lia.
  - rewrite lookup_insert_ne by done. apply Hd.
Qed.

Lemma createProject_capped req w :
  capped (db w) → capped (db (createProject req w).2).
Proof.
  intros Hw. unfold createProject. apply (triple_handler capped); [|done].
  destruct req as [uid [t|] [d|] [m|]]; simpl; try (by apply triple_ret).
  destruct (Js.empty t || Js.empty d || Js.empty m); [by apply triple_ret|].
  eapply triple_bind with (R := λ a d, capped d ∧ a = users d !! uid).
  { apply triple_prisma. done. }
  intros [u|]; [|apply triple_throw; tauto].
  destruct (activeProjectCount u >=? 2) eqn:Hc; [apply triple_ret; tauto|].
  set (I := λ d, capped d ∧ users d !! uid = Some u).
  apply (triple_weaken I); [intros d' [? ?]; by split|].
  eapply triple_bind with (R := λ _, I).
  { eapply triple_conseq; [| |apply (triple_project_create I)].
    - done.
    - by intros d' [? ?].
    - intros d' id p [? ?] _. by split. }
  intros created. eapply triple_bind with (R := λ _, I).
  { eapply triple_conseq; [| |apply (triple_projectMember_create I)].
    - done.
    - by intros d' [? ?].
    - intros d' k r [? ?] _. by split. }
  intros ?. eapply triple_bind with (R := λ _, capped).
  { apply triple_increment_below_cap. lia. }
  intros ?. by apply triple_ret.
Qed.

Lemma joinProject_capped req w :
  capped (db w) → capped (db (joinProject req w).2).
Proof.
  intros Hw. unfold joinProject. apply (triple_handler capped); [|done].
  destruct (Js.falsy (p_projectId req)); [by apply triple_ret|].
  set (uid := p_userId req).
  eapply triple_bind with (R := λ a d, capped d ∧ a = users d !! uid).
  { apply triple_prisma. done. }
  intros [u|]; [|apply triple_throw; tauto].
  destruct (activeProjectCount u >=? 2) eqn:Hc; [apply triple_ret; tauto|].
  set (I := λ d, capped d ∧ users d !! uid = Some u).
  apply (triple_weaken I); [intros d' [? ?]; by split|].
  eapply triple_bind with (R := λ _, I).
  { eapply triple_conseq; [| |apply (triple_read I)]; [done | by intros d' [? ?]]. }
  intros project.
  match goal with |- context [if ?b then _ else _] => destruct b end;
    [apply triple_ret; by intros d' [? ?]|].
  eapply triple_bind with (R := λ _, I).
  { eapply triple_conseq; [| |apply (triple_read I)]; [done | by intros d' [? ?]]. }
  intros [r|]; [apply triple_ret; by intros d' [? ?]|].
  eapply triple_bind with (R := λ _, I).
  { eapply triple_conseq; [| |apply (triple_projectMember_create I)].
    - done.
    - by intros d' [? ?].
    - intros d' k r [? ?] _. by split. }
  intros ?. eapply triple_bind with (R := λ _, capped).
  { apply triple_increment_below_cap. lia. }
  intros ?. by apply triple_ret.
Qed.

(** Property X8. The cap of two active projects. A request served alone,
    with no other request between its awaits, never takes a database in
    which every activeProjectCount is at most 2 to one in which a count
    is above 2, whatever the store does and whatever the request. Two
    requests that overlap can: "u" has one active project and asks to
    join "p1" and "p2"; when the store answers the two requests in turn,
    both read the count 1, both pass the check, both are answered with
    the 200, and "u" ends with the count 3. *)
Theorem cap_kept_alone_exceeded_overlapping :
  (∀ w, capped (db w) →
     (∀ req, capped (db (ProjectSteps.uninterrupted
                           (ProjectSteps.createProject req) w).2))
     ∧ (∀ req, capped (db (ProjectSteps.uninterrupted
                             (ProjectSteps.joinProject req) w).2))
     ∧ (∀ req, capped (db (ProjectSteps.uninterrupted
                             (ProjectSteps.leaveProject req) w).2))
     ∧ (∀ req, capped (db (ProjectSteps.uninterrupted
                             (ProjectSteps.completeProject req) w).2)))
  ∧ (let join1 := ProjectSteps.joinProject (mkProjectReq "u" (Some "p1")) in
     let join2 := ProjectSteps.joinProject (mkProjectReq "u" (Some "p2")) in
     let out := ProjectSteps.interleave [0; 1; 0; 1; 0; 1; 0; 1; 0; 1]%nat
                  [join1; join2] Scenario2.w_two_offers in
     capped (db Scenario2.w_two_offers)
     ∧ users (db Scenario2.w_two_offers) !! "u" = Some (mkUser "U" 80 1)
     ∧ ProjectSteps.response <$> out.1
       = [Some (mkResponse 200 (JMessage "Successfully joined the project"));
          Some (mkResponse 200 (JMessage "Successfully joined the project"))]
     ∧ users (db out.2) !! "u" = Some (mkUser "U" 80 3)
     ∧ ¬ capped (db out.2)).
Proof.
  split.
  - intros w Hw. repeat split; intros req.
    + rewrite uninterrupted_createProject. cbn [snd]. by apply createProject_capped.
    + rewrite uninterrupted_joinProject. cbn [snd]. by apply joinProject_capped.
    + rewrite uninterrupted_leaveProject. cbn [snd].
      apply leaveProject_keeps_property; [|apply capped_decrement|done].
      intros d k Hd. exact Hd.
    + rewrite uninterrupted_completeProject. cbn [snd].
      apply completeProject_keeps_property; [|apply capped_decrement|done].
      intros d id p Hd _. exact Hd.
  - cbv zeta. split; [|split; [reflexivity|split; [reflexivity|split; [reflexivity|]]]].
    + intros uid u Hu.
      assert (H : map_Forall (λ _ u, activeProjectCount u ≤ 2)
                    (users (db Scenario2.w_two_offers)))
        by (apply (bool_decide_unpack _); vm_compute; exact I).
      exact (H _ _ Hu).
    + intros H.
      assert (Hu : users (db (ProjectSteps.interleave
                 [0; 1; 0; 1; 0; 1; 0; 1; 0; 1]%nat
                 [ProjectSteps.joinProject (mkProjectReq "u" (Some "p1"));
                  ProjectSteps.joinProject (mkProjectReq "u" (Some "p2"))]
                 Scenario2.w_two_offers).2) !! "u" = Some (mkUser "U" 80 3))
        by reflexivity.
      specialize (H _ _ Hu). simpl in H. lia.
Qed.

(** Property X9. Completed is final: whatever the store does and whatever
    the request, no run of the four project handlers changes the row of a
    project whose status is completed. *)
Theorem completed_project_is_final w pid p :
  projects (db w) !! pid = Some p → status p = completed →
  (∀ req, projects (db (createProject req w).2) !! pid = Some p)
  ∧ (∀ req, projects (db (joinProject req w).2) !! pid = Some p)
  ∧ (∀ req, projects (db (leaveProject req w).2) !! pid = Some p)
  ∧ (∀ req, projects (db (completeProject req w).2) !! pid = Some p).
Proof.
  intros Hp Hs.
  set (I := λ d : DB, projects d !! pid = Some p).
  assert (H1 : kept_by_project_insert I).
  { intros d id p' Hd Hn. unfold I. simpl.
    rewrite lookup_insert_ne; [done|]. intros ->. unfold I in Hd. congruence. }
  assert (H2 : kept_by_completion I).
  { intros d id p' Hd Hp'. unfold I in *. simpl.
    destruct (decide (id = pid)) as [->|Hne].
    - rewrite lookup_insert_eq. rewrite Hd in Hp'. injection Hp' as <-.
      destruct p; simpl in *; by subst.
    - by rewrite lookup_insert_ne. }
  assert (H3 : kept_by_member_insert I) by (intros d k r Hd _; exact Hd).
  assert (H4 : kept_by_member_delete I) by (intros d k Hd; exact Hd).
  assert (H5 : kept_by_increment I) by (intros d uid u Hd _; exact Hd).
  assert (H6 : kept_by_decrement I) by (intros d uid u Hd _; exact Hd).
  repeat split; intros req.
  - by apply (createProject_keeps_property I).
  - by apply (joinProject_keeps_property I).
  - by apply (leaveProject_keeps_property I).
  - by apply (completeProject_keeps_property I).
Qed.
End CapAndFinality.
(** ** The membership state machine: the properties *)

Section MembershipProperties.
Import Store ProjectController Invariant Triple Scenario2.

(** Property X1. With a store that answers, a request with title,
    description and domain by a user below the cap, for which the store
    picks an unused project id, is answered with the 201 and leaves
    exactly three changes: the project, active and owned by the user, with
    the trimmed texts; the user's leader membership; the user's count
    raised by one. *)
Theorem createProject_creates w uid u t d m :
  faults w = [] →
  users (db w) !! uid = Some u →
  activeProjectCount u < 2 →
  t ≠ "" → d ≠ "" → m ≠ "" →
  projects (db w) !! pretty (nextId w) = None →
  members (db w) !! (pretty (nextId w), uid) = None →
  let pid := pretty (nextId w) in
  let project := mkProject (Js.trim t) (Js.trim d) (Js.trim m) uid active in
  let out := createProject (mkCreateReq uid (Some t) (Some d) (Some m)) w in
  out.1 = mkResponse 201 (JCreated "Project created successfully" pid project)
  ∧ db out.2 =
      set_users
        <[uid := mkUser (name u) (reputationScore u) (activeProjectCount u + 1)]>
        (set_members <[(pid, uid) := leader]>
           (set_projects <[pid := project]> (db w))).
Proof. apply createProject_run. Qed.

Lemma createProject_creates_witness :
  (createProject (mkCreateReq "a" (Some " T ") (Some "D") (Some "web")) w_fresh).1
  = mkResponse 201
      (JCreated "Project created successfully" "0"
         (mkProject "T" "D" "web" "a" active)).
Proof.
  apply (createProject_creates w_fresh "a" (mkUser "A" 80 0) " T " "D" "web");
    [reflexivity | reflexivity | simpl; lia | discriminate | discriminate
    | discriminate | reflexivity | reflexivity].
Defined.

(** Property X2. With a store that answers, a user below the cap who
    joins an active project of which the user is no member gets the 200,
    the member row and a count raised by one, and nothing else changes. *)
Theorem joinProject_joins w uid u pid p :
  faults w = [] → pid ≠ "" →
  users (db w) !! uid = Some u → activeProjectCount u < 2 →
  projects (db w) !! pid = Some p → status p = active →
  members (db w) !! (pid, uid) = None →
  joinProject (mkProjectReq uid (Some pid)) w
  = (mkResponse 200 (JMessage "Successfully joined the project"),
     set_db (set_users
               <[uid := mkUser (name u) (reputationScore u)
                               (activeProjectCount u + 1)]>
               (set_members <[(pid, uid) := member]> (db w))) w).
Proof. apply joinProject_run. Qed.

Lemma joinProject_joins_witness :
  (joinProject (mkProjectReq "b" (Some "0")) w_project).1
  = mkResponse 200 (JMessage "Successfully joined the project").
Proof.
  rewrite (joinProject_joins w_project "b" (mkUser "B" 75 0) "0"
             (mkProject "T" "D" "web" "a" active));
    [reflexivity | reflexivity | discriminate | reflexivity | simpl; lia
    | reflexivity | reflexivity | reflexivity].
Defined.

(** Property X3. With a store that answers, a user below the cap who asks
    to join a project that does not exist or is not active, or of which
    the user already is a member, gets a 400 and the world stays as it
    was. *)
Theorem joinProject_refuses w uid u pid :
  faults w = [] → pid ≠ "" →
  users (db w) !! uid = Some u → activeProjectCount u < 2 →
  let out := joinProject (mkProjectReq uid (Some pid)) w in
  ((status <$> projects (db w) !! pid) ≠ Some active →
     out = (mkResponse 400 (JError "Project not found or not active"), w))
  ∧ ((status <$> projects (db w) !! pid) = Some active →
     is_Some (members (db w) !! (pid, uid)) →
     out = (mkResponse 400 (JError "You are already a member of this project"), w)).
Proof. apply joinProject_refused_run. Qed.

Lemma joinProject_refuses_witness :
  joinProject (mkProjectReq "b" (Some "nope")) w_project
  = (mkResponse 400 (JError "Project not found or not active"), w_project)
  ∧ joinProject (mkProjectReq "b" (Some "0")) w_completed
    = (mkResponse 400 (JError "Project not found or not active"), w_completed)
  ∧ joinProject (mkProjectReq "a" (Some "0")) w_project
    = (mkResponse 400 (JError "You are already a member of this project"), w_project).
Proof.
  split; [|split].
  - apply (joinProject_refuses w_project "b" (mkUser "B" 75 0) "nope");
      [reflexivity | discriminate | reflexivity | simpl; lia | discriminate].
  - apply (joinProject_refuses w_completed "b" (mkUser "B" 75 0) "0");
      [reflexivity | discriminate | reflexivity | simpl; lia | discriminate].
  - apply (joinProject_refuses w_project "a" (mkUser "A" 80 1) "0");
      [reflexivity | discriminate | reflexivity | simpl; lia | reflexivity
      | eexists; reflexivity].
Defined.

(** Property X4. With a store that answers: leaving a project one is no
    member of is a 404 that changes nothing; leaving a project one is a
    member of removes the membership row, and lowers the count by one
    exactly when the project is still active. *)
Theorem leaveProject_paths w uid pid :
  faults w = [] → pid ≠ "" →
  let out := leaveProject (mkProjectReq uid (Some pid)) w in
  (members (db w) !! (pid, uid) = None →
     out = (mkResponse 404 (JError "You are not a member of this project"), w))
  ∧ (∀ r p u, members (db w) !! (pid, uid) = Some r →
       projects (db w) !! pid = Some p → users (db w) !! uid = Some u →
       out.1 = mkResponse 200 (JMessage "Successfully left the project")
       ∧ db out.2 =
           (if bool_decide (status p = active)
            then set_users
                   <[uid := mkUser (name u) (reputationScore u)
                                   (activeProjectCount u - 1)]>
            else λ d, d)
             (set_members (delete (pid, uid)) (db w))).
Proof. apply leaveProject_run. Qed.

Lemma leaveProject_paths_witness :
  leaveProject (mkProjectReq "b" (Some "0")) w_project
  = (mkResponse 404 (JError "You are not a member of this project"), w_project)
  ∧ users (db (leaveProject (mkProjectReq "a" (Some "0")) w_completed).2) !! "a"
    = Some (mkUser "A" 80 0)
  ∧ members (db (leaveProject (mkProjectReq "a" (Some "0")) w_completed).2) = ∅.
Proof.
  destruct (leaveProject_paths w_project "b" "0" eq_refl) as [H1 _];
    [discriminate|].
  destruct (leaveProject_paths w_completed "a" "0" eq_refl) as [_ H2];
    [discriminate|].
  destruct (H2 leader (mkProject "T" "D" "web" "a" completed) (mkUser "A" 80 0)
              eq_refl eq_refl eq_refl) as [_ H3].
  split; [apply H1; reflexivity|]. rewrite H3. split; reflexivity.
Defined.

(** Property X5. Joining a project and then leaving it puts the database
    back as it was: the second call is answered with the 200 and the
    database after it equals the database before the first. *)
Theorem join_then_leave_restores w uid u pid p :
  faults w = [] → pid ≠ "" →
  users (db w) !! uid = Some u → activeProjectCount u < 2 →
  projects (db w) !! pid = Some p → status p = active →
  members (db w) !! (pid, uid) = None →
  let req := mkProjectReq uid (Some pid) in
  (leaveProject req (joinProject req w).2).1
  = mkResponse 200 (JMessage "Successfully left the project")
  ∧ db (leaveProject req (joinProject req w).2).2 = db w.
Proof. apply join_then_leave_run. Qed.

Lemma join_then_leave_restores_witness :
  db (leaveProject (mkProjectReq "b" (Some "0"))
        (joinProject (mkProjectReq "b" (Some "0")) w_project).2).2
  = db w_project.
Proof.
  apply (join_then_leave_restores w_project "b" (mkUser "B" 75 0) "0"
           (mkProject "T" "D" "web" "a" active));
    [reflexivity | discriminate | reflexivity | simpl; lia | reflexivity
    | reflexivity | reflexivity].
Defined.

(** Property X6. With a store that answers, completeProject answers 404
    for a project that does not exist, 403 for a requester who is not the
    creator and 400 for a project that is completed already, and leaves
    the world as it was in all three cases. *)
Theorem completeProject_refuses w uid pid :
  faults w = [] → pid ≠ "" →
  let out := completeProject (mkProjectReq uid (Some pid)) w in
  (projects (db w) !! pid = None →
     out = (mkResponse 404 (JError "Project not found"), w))
  ∧ (∀ p, projects (db w) !! pid = Some p → createdBy p ≠ uid →
       out = (mkResponse 403
                (JError "Only the project creator can mark it as completed"), w))
  ∧ (∀ p, projects (db w) !! pid = Some p → createdBy p = uid →
       status p = completed →
       out = (mkResponse 400 (JError "Project is already completed"), w)).
Proof. apply completeProject_refused_run. Qed.

Lemma completeProject_refuses_witness :
  completeProject (mkProjectReq "a" (Some "nope")) w_project
  = (mkResponse 404 (JError "Project not found"), w_project)
  ∧ completeProject (mkProjectReq "b" (Some "0")) w_project
    = (mkResponse 403
         (JError "Only the project creator can mark it as completed"), w_project)
  ∧ completeProject (mkProjectReq "a" (Some "0")) w_completed
    = (mkResponse 400 (JError "Project is already completed"), w_completed).
Proof.
  destruct (completeProject_refuses w_project "a" "nope" eq_refl) as (H1 & _);
    [discriminate|].
  destruct (completeProject_refuses w_project "b" "0" eq_refl) as (_ & H2 & _);
    [discriminate|].
  destruct (completeProject_refuses w_completed "a" "0" eq_refl) as (_ & _ & H3);
    [discriminate|].
  split; [apply H1; reflexivity|]. split.
  - apply (H2 (mkProject "T" "D" "web" "a" active)); [reflexivity | discriminate].
  - apply (H3 (mkProject "T" "D" "web" "a" completed)); reflexivity.
Defined.

Lemma consistent_without_memberships d :
  members d = ∅ →
  map_Forall (λ _ u, activeProjectCount u = 0) (users d) →
  consistent d.
Proof.
  intros Hm Hu. split.
  - intros pid uid [r Hr]. rewrite Hm, lookup_empty in Hr. done.
  - intros uid u Hl. rewrite (Hu _ _ Hl). unfold active_memberships.
    rewrite Hm, map_filter_empty. reflexivity.
Qed.

Lemma capped_of_Forall d :
  map_Forall (λ _ u, activeProjectCount u ≤ 2) (users d) → capped d.
Proof. intros H uid u Hu. exact (H _ _ Hu). Qed.

(** Property X7. The count invariant: every membership row points at a
    project and a user, and every user's activeProjectCount is the number
    of the user's memberships in active projects. With a store that
    answers every call, each of the four project handlers keeps it when
    the request is served alone, whatever the request. Requests that
    overlap do not keep it: "a" completes project "0" while "b" joins it,
    and the join lands between the read of the members and the
    transaction; both are answered with the 200, and "b" is left with the
    count 1 and no membership in an active project. *)
Theorem count_invariant_kept_alone_broken_overlapping :
  (∀ w, faults w = [] → consistent (db w) →
     (∀ req, consistent (db (ProjectSteps.uninterrupted
                               (ProjectSteps.createProject req) w).2))
     ∧ (∀ req, consistent (db (ProjectSteps.uninterrupted
                                 (ProjectSteps.joinProject req) w).2))
     ∧ (∀ req, consistent (db (ProjectSteps.uninterrupted
                                 (ProjectSteps.leaveProject req) w).2))
     ∧ (∀ req, consistent (db (ProjectSteps.uninterrupted
                                 (ProjectSteps.completeProject req) w).2)))
  ∧ (let complete := ProjectSteps.completeProject (mkProjectReq "a" (Some "0")) in
     let join := ProjectSteps.joinProject (mkProjectReq "b" (Some "0")) in
     let out := ProjectSteps.interleave [0; 1; 1; 1; 1; 1; 0]%nat
                  [complete; join] w_project in
     faults w_project = []
     ∧ consistent (db w_project)
     ∧ ProjectSteps.response <$> out.1
       = [Some (mkResponse 200 (JCompleted completed_message "0"));
          Some (mkResponse 200 (JMessage "Successfully joined the project"))]
     ∧ users (db out.2) !! "b" = Some (mkUser "B" 75 1)
     ∧ active_memberships (db out.2) "b" = 0%nat
     ∧ ¬ consistent (db out.2)).
Proof.
  split.
  - intros w Hf Hc. split; [|split; [|split]]; intros req.
    + rewrite uninterrupted_createProject. cbn [snd]. by apply createProject_keeps.
    + rewrite uninterrupted_joinProject. cbn [snd]. by apply joinProject_keeps.
    + rewrite uninterrupted_leaveProject. cbn [snd]. by apply leaveProject_keeps.
    + rewrite uninterrupted_completeProject. cbn [snd]. by apply completeProject_keeps.
  - cbv zeta. split; [reflexivity|]. split; [|split; [reflexivity|]].
    + apply (createProject_keeps _ w_fresh eq_refl).
      apply consistent_without_memberships; [reflexivity|].
      apply (bool_decide_unpack _). vm_compute. exact I.
    + assert (Hu : users (db (ProjectSteps.interleave [0; 1; 1; 1; 1; 1; 0]%nat
                 [ProjectSteps.completeProject (mkProjectReq "a" (Some "0"));
                  ProjectSteps.joinProject (mkProjectReq "b" (Some "0"))]
                 w_project).2) !! "b" = Some (mkUser "B" 75 1))
        by reflexivity.
      assert (Hn : active_memberships (db (ProjectSteps.interleave
                 [0; 1; 1; 1; 1; 1; 0]%nat
                 [ProjectSteps.completeProject (mkProjectReq "a" (Some "0"));
                  ProjectSteps.joinProject (mkProjectReq "b" (Some "0"))]
                 w_project).2) "b" = 0%nat)
        by (vm_compute; reflexivity).
      split; [exact Hu|]. split; [exact Hn|].
      intros [_ Hcount]. specialize (Hcount _ _ Hu). rewrite Hn in Hcount.
      simpl in Hcount. lia.
Qed.

Lemma count_invariant_kept_alone_broken_overlapping_witness :
  consistent (db (ProjectSteps.uninterrupted
                    (ProjectSteps.completeProject (mkProjectReq "a" (Some "0")))
                    w_project).2).
Proof.
  destruct count_invariant_kept_alone_broken_overlapping as [H (_ & Hc & _)].
  apply (H w_project eq_refl Hc).
Defined.

Lemma cap_kept_alone_exceeded_overlapping_witness :
  capped (db (ProjectSteps.uninterrupted
                (ProjectSteps.createProject
                   (mkCreateReq "a" (Some "T") (Some "D") (Some "web")))
                w_fresh).2).
Proof.
  apply (proj1 cap_kept_alone_exceeded_overlapping w_fresh).
  apply capped_of_Forall. apply (bool_decide_unpack _). vm_compute. exact I.
Defined.

Lemma completed_project_is_final_witness :
  projects (db (completeProject (mkProjectReq "a" (Some "0")) w_completed).2) !! "0"
  = Some (mkProject "T" "D" "web" "a" completed)
  ∧ projects (db (joinProject (mkProjectReq "b" (Some "0")) w_completed).2) !! "0"
    = Some (mkProject "T" "D" "web" "a" completed).
Proof.
  destruct (completed_project_is_final w_completed "0"
              (mkProject "T" "D" "web" "a" completed) eq_refl eq_refl)
    as (_ & H2 & _ & H4).
  split; [apply H4 | apply H2].
Defined.
End MembershipProperties.
Section PartialWrites.
Import Store ProjectController Invariant Scenario2.

Lemma prisma_answered {A} (q : DB → Res A * DB) w fs :
  faults w = false :: fs →
  prisma q w = ((q (db w)).1, set_db (q (db w)).2 (set_faults fs w)).
Proof. unfold prisma. intros ->. by destruct (q (db w)). Qed.

Lemma prisma_outage {A} (q : DB → Res A * DB) w fs :
  faults w = true :: fs → prisma q w = (Throw StoreUnavailable, set_faults fs w).
Proof. unfold prisma. by intros ->. Qed.

(** Property X10. createProject is not one unit. When the store answers
    the lookup of the user and the two inserts and then fails the update
    of the count, the request is answered with the 500 although the
    project and the leader membership are stored; the creator's count is
    not raised, so a database that satisfied the count invariant no
    longer does. *)
Theorem createProject_partial_on_outage w fs uid u t d m :
  faults w = false :: false :: false :: true :: fs →
  users (db w) !! uid = Some u →
  activeProjectCount u < 2 →
  t ≠ "" → d ≠ "" → m ≠ "" →
  projects (db w) !! pretty (nextId w) = None →
  members (db w) !! (pretty (nextId w), uid) = None →
  let pid := pretty (nextId w) in
  let project := mkProject (Js.trim t) (Js.trim d) (Js.trim m) uid active in
  let out := createProject (mkCreateReq uid (Some t) (Some d) (Some m)) w in
  out.1 = internal_error
  ∧ db out.2 =
      set_members <[(pid, uid) := leader]>
        (set_projects <[pid := project]> (db w))
  ∧ (consistent (db w) → ¬ consistent (db out.2)).
Proof.
  intros Hf Hu Hc Ht Hd Hm Hp Hmem pid project out.
  assert (Hout : out = (internal_error,
            set_db (set_members <[(pid, uid) := leader]>
                      (set_projects <[pid := project]> (db w)))
                   (set_nextId (S (nextId w)) (set_faults fs w)))).
  { subst out. unfold createProject, handler. simpl.
    unfold Js.empty. rewrite !bool_decide_eq_false_2 by done. simpl.
    erewrite bind_step.
    2: { unfold user_findUnique. erewrite prisma_answered by exact Hf. reflexivity. }
    simpl. rewrite Hu. replace (activeProjectCount u >=? 2) with false by lia.
    erewrite bind_step.
    2: { unfold project_create. erewrite bind_step by reflexivity.
         erewrite prisma_answered by reflexivity. simpl. rewrite Hp, Hu.
         reflexivity. }
    simpl.
    erewrite bind_step.
    2: { unfold projectMember_create. erewrite prisma_answered by reflexivity.
         simpl. unfold pid. rewrite Hmem, lookup_insert_eq, Hu. reflexivity. }
    erewrite bind_throw.
    2: { unfold user_update. erewrite prisma_outage by reflexivity. reflexivity. }
    reflexivity. }
  rewrite Hout. simpl. split; [done|]. split; [done|].
  intros Hcons [_ Hcount].
  specialize (Hcount uid u Hu).
  rewrite (active_memberships_insert
             (set_projects <[pid := project]> (db w)) _ uid pid uid leader)
    in Hcount by done.
  rewrite bool_decide_eq_true_2 in Hcount
    by (split; [done|]; simpl; by rewrite lookup_insert_eq).
  rewrite (active_memberships_new_project (db w) _ uid pid project) in Hcount;
    [| done | done |].
  - rewrite (proj2 Hcons uid u Hu) in Hcount. lia.
  - intros u'. apply eq_None_not_Some. intros Hin.
    destruct (proj1 Hcons _ _ Hin) as [[? H1] _]. unfold pid in H1. congruence.
Qed.

Lemma createProject_partial_on_outage_witness :
  let w := set_faults [false; false; false; true] w_fresh in
  let out := createProject (mkCreateReq "a" (Some "T") (Some "D") (Some "web")) w in
  out.1 = internal_error
  ∧ members (db out.2) !! ("0", "a") = Some leader
  ∧ users (db out.2) !! "a" = Some (mkUser "A" 80 0).
Proof.
  intros w out.
  destruct (createProject_partial_on_outage w [] "a" (mkUser "A" 80 0) "T" "D" "web")
    as (H1 & H2 & _);
    [reflexivity | reflexivity | simpl; lia | discriminate | discriminate
    | discriminate | reflexivity | reflexivity |].
  split; [exact H1|]. subst out. rewrite H2. split; reflexivity.
Defined.
End PartialWrites.
(** ** The reputation ledger: further properties *)

Section ReputationProperties.
Import Store Reputation Scenario.

Lemma bind_Throw_inv {A B} (m : M A) (k : A → M B) w e w' :
  (m ≫= k) w = (Throw e, w') →
  m w = (Throw e, w') ∨ ∃ a w1, m w = (Ok a, w1) ∧ k a w1 = (Throw e, w').
Proof.
  unfold mbind, M_bind. destruct (m w) as [[a|e0] w1] eqn:E; [eauto | left; congruence].
Qed.

Lemma prisma_Throw_inv {A} (q : DB → Res A * DB) w e w' :
  prisma q w = (Throw e, w') →
  (e = StoreUnavailable ∧ db w' = db w) ∨ q (db w) = (Throw e, db w').
Proof.
  unfold prisma. destruct (faults w) as [|[] fs].
  - destruct (q (db w)) as [r d]. intros [= -> <-]. by right.
  - intros [= <- <-]. left. by destruct w.
  - destruct (q (db w)) as [r d]. intros [= -> <-]. by right.
Qed.

(** Property X11. A call of rateTeammate that is rejected for another
    reason than a failure of the store leaves the database as it was, and
    the reason is one of three: the rating is not an integer from 1 to 5,
    the duplicate guard fired, or the rated user does not exist. *)
Theorem rate_rejection_leaves_database r u p rating w e w' :
  rateTeammate r u p rating w = (Throw e, w') →
  e ≠ StoreUnavailable →
  db w' = db w
  ∧ (e = JsError "Rating must be an integer between 1 and 5"
     ∨ e = JsError already_rated
     ∨ e = P2025).
Proof.
  unfold rateTeammate. intros H He.
  destruct ((rating <? 1) || (rating >? 5)).
  { injection H as <- <-. auto. }
  apply bind_Throw_inv in H as [H|(ex & w1 & H1 & H)].
  { apply prisma_Throw_inv in H as [[-> _]|H]; [done | discriminate]. }
  apply prisma_Ok in H1 as [H1 _]. injection H1 as _ Hd1.
  destruct ex as [l|].
  { injection H as <- <-. auto. }
  apply bind_Throw_inv in H as [H|(upd & w2 & H2 & H)].
  { apply prisma_Throw_inv in H as [[-> _]|H]; [done|].
    rewrite <- Hd1 in H. destruct (users (db w) !! u); [discriminate|].
    injection H as <- Hd. split; [congruence | auto]. }
  exfalso.
  apply prisma_Ok in H2 as [H2 _]. rewrite <- Hd1 in H2.
  destruct (users (db w) !! u) as [usr|] eqn:Hu; [|discriminate].
  injection H2 as Hupd Hd2.
  apply bind_Throw_inv in H as [H|([] & w3 & H3 & H)].
  - destruct (reputationScore upd <? 0); [|discriminate].
    apply bind_Throw_inv in H as [H|(a & w3 & H3 & H)]; [|discriminate].
    apply prisma_Throw_inv in H as [[-> _]|H]; [done|].
    rewrite <- Hd2 in H. simpl in H. rewrite lookup_insert_eq in H. discriminate.
  - apply bind_Throw_inv in H as [H|([] & w4 & H4 & H)]; [|discriminate].
    apply prisma_Throw_inv in H as [[-> _]|H]; [done | discriminate].
Qed.

Lemma rate_rejection_leaves_database_witness :
  db (rateTeammate "r1" "u" "p1" 9 w0).2 = db w0
  ∧ db (rateTeammate "r1" "ghost" "p1" 3 w0).2 = db w0.
Proof.
  split.
  - apply (rate_rejection_leaves_database "r1" "u" "p1" 9 w0
             (JsError "Rating must be an integer between 1 and 5"));
      [reflexivity | discriminate].
  - apply (rate_rejection_leaves_database "r1" "ghost" "p1" 3 w0 P2025);
      [reflexivity | discriminate].
Defined.

(** Property X14. A rating that goes through appends exactly one row to
    the log, after all the rows that were there: the rated user, the
    project, the signed adjustment and the reason text. It changes the
    rated user's score and nothing else: no other user, neither name nor
    count of the rated user, no project, membership, message or
    notification. *)
Theorem rate_appends_one_row r u p rating w res w' :
  rateTeammate r u p rating w = (Ok res, w') →
  reputationLog (db w')
  = reputationLog (db w)
    ++ [mkReputationLog u p (adjustment res) (reason_of r rating)]
  ∧ (∀ uid, uid ≠ u → users (db w') !! uid = users (db w) !! uid)
  ∧ (name <$> users (db w') !! u) = (name <$> users (db w) !! u)
  ∧ (activeProjectCount <$> users (db w') !! u)
    = (activeProjectCount <$> users (db w) !! u)
  ∧ projects (db w') = projects (db w)
  ∧ members (db w') = members (db w)
  ∧ messages (db w') = messages (db w)
  ∧ notifications (db w') = notifications (db w).
Proof.
  intros H. apply rateTeammate_Ok in H as (usr & Hu & _ & -> & ->). simpl.
  split; [done|]. split; [|split; [|split]]; try done.
  - intros uid Hne. by rewrite lookup_insert_ne.
  - by rewrite lookup_insert_eq, Hu.
  - by rewrite lookup_insert_eq, Hu.
Qed.

Lemma rate_appends_one_row_witness :
  reputationLog (db (rateTeammate "r1" "u" "p1" 4 w0).2)
  = [mkReputationLog "u" "p1" 5 "Rating from user r1: 4/5"].
Proof.
  apply (rate_appends_one_row "r1" "u" "p1" 4 w0
           (mkRateResult "Rating recorded successfully" 5 20)).
  reflexivity.
Defined.

(** Property X15. The floor at 0 is a second write. When the store
    answers the duplicate lookup and the increment and then fails the
    write that resets a negative score to 0, the call throws and the
    stored score stays negative. *)
Theorem rate_floor_skipped_on_outage r u p rating w fs usr :
  faults w = false :: false :: true :: fs →
  1 ≤ rating ≤ 5 →
  users (db w) !! u = Some usr →
  List.find (λ l, bool_decide (userId l = u) && bool_decide (projectId l = p)
                  && startsWith (reason l) (reason_prefix r))
            (reputationLog (db w)) = None →
  reputationScore usr + adjustment_of rating < 0 →
  let out := rateTeammate r u p rating w in
  out.1 = Throw StoreUnavailable
  ∧ users (db out.2) !! u
    = Some (mkUser (name usr) (reputationScore usr + adjustment_of rating)
                   (activeProjectCount usr))
  ∧ reputationLog (db out.2) = reputationLog (db w).
Proof.
  intros Hf Hr Hu Hfind Hneg out.
  assert (Hout : out = (Throw StoreUnavailable,
            set_db (set_users <[u := increment_reputationScore (adjustment_of rating) usr]>
                      (db w)) (set_faults fs w))).
  { subst out. unfold rateTeammate.
    replace ((rating <? 1) || (rating >? 5)) with false by lia.
    erewrite bind_step.
    2: { unfold reputationLog_findFirst. erewrite prisma_answered by exact Hf.
         simpl. rewrite Hfind. reflexivity. }
    simpl.
    erewrite bind_step.
    2: { unfold user_update. erewrite prisma_answered by reflexivity.
         simpl. rewrite Hu. reflexivity. }
    simpl. replace (reputationScore usr + adjustment_of rating <? 0) with true by lia.
    erewrite bind_throw.
    2: { unfold void. erewrite bind_throw; [reflexivity|].
         unfold user_update. erewrite prisma_outage by reflexivity. reflexivity. }
    reflexivity. }
  rewrite Hout. simpl. split; [done|]. split; [|done].
  by rewrite lookup_insert_eq.
Qed.

Lemma rate_floor_skipped_on_outage_witness :
  users (db (rateTeammate "r1" "u" "p1" 1 (set_faults [false; false; true] w0)).2) !! "u"
  = Some (mkUser "U" (-5) 0).
Proof.
  apply (rate_floor_skipped_on_outage "r1" "u" "p1" 1
           (set_faults [false; false; true] w0) [] (mkUser "U" 10 0));
    [reflexivity | lia | reflexivity | reflexivity | vm_compute; reflexivity].
Defined.

(** Property X16. The history reads back what a rating wrote: after a
    rating of a user went through, getReputationHistory of that user on a
    store that answers returns the new row first, followed by the user's
    earlier rows, newest first, and no row of another user. *)
Theorem history_after_rating r u p rating w res w' w2 :
  rateTeammate r u p rating w = (Ok res, w') →
  db w2 = db w' → faults w2 = [] →
  let earlier := List.rev (List.filter (λ l, bool_decide (userId l = u))
                                       (reputationLog (db w))) in
  getReputationHistory u w2
  = (Ok (mkReputationLog u p (adjustment res) (reason_of r rating) :: earlier), w2)
  ∧ Forall (λ l, userId l = u) earlier.
Proof.
  intros H Hd Hf earlier.
  apply rateTeammate_Ok in H as (usr & Hu & _ & -> & Hdb). split.
  - unfold getReputationHistory.
    erewrite bind_step.
    2: { unfold reputationLog_findMany. rewrite prisma_healthy by done.
         reflexivity. }
    simpl. rewrite set_db_id, Hd, Hdb. simpl.
    rewrite List.filter_app, List.rev_app_distr. simpl.
    rewrite bool_decide_eq_true_2 by done. reflexivity.
  - apply Forall_forall. intros l Hl. subst earlier.
    apply list_elem_of_In, List.in_rev, List.filter_In in Hl as [_ Hl].
    by apply bool_decide_eq_true_1 in Hl.
Qed.

Lemma history_after_rating_witness :
  getReputationHistory "u" (rateTeammate "r1" "u" "p1" 4 w0).2
  = (Ok [mkReputationLog "u" "p1" 5 "Rating from user r1: 4/5"],
     (rateTeammate "r1" "u" "p1" 4 w0).2).
Proof.
  apply (history_after_rating "r1" "u" "p1" 4 w0
           (mkRateResult "Rating recorded successfully" 5 20)
           (rateTeammate "r1" "u" "p1" 4 w0).2);
    reflexivity.
Defined.

Lemma rateTeammate_healthy_witness :
  ∃ res w', rateTeammate "r1" "u" "p1" 4 w0 = (Ok res, w').
Proof.
  apply (rateTeammate_healthy "r1" "u" "p1" 4 w0 (mkUser "U" 10 0));
    [reflexivity | lia | reflexivity | reflexivity].
Defined.

Lemma rate_twice_rejected_witness :
  ∃ e w2,
    rateTeammate "r1" "u" "p1" 1 (rateTeammate "r1" "u" "p1" 4 w0).2 = (Throw e, w2)
    ∧ db w2 = db (rateTeammate "r1" "u" "p1" 4 w0).2
    ∧ (1 ≤ 1 ≤ 5 → head (faults (rateTeammate "r1" "u" "p1" 4 w0).2) ≠ Some true →
       e = JsError already_rated).
Proof.
  apply (rate_twice_rejected "r1" "u" "p1" 4 1 w0
           (mkRateResult "Rating recorded successfully" 5 20)
           (rateTeammate "r1" "u" "p1" 4 w0).2);
    reflexivity.
Defined.
End ReputationProperties.
(** ** The notification routes *)

Section NotificationProperties.
Import Store NotificationRoutes.

Lemma transaction_of_healthy {A} (queries : M A) w a w1 :
  faults w = [] → queries w = (Ok a, w1) → faults w1 = [] →
  transaction_of queries w = (Ok a, w1).
Proof.
  intros Hf H Hf1. unfold transaction_of.
  erewrite bind_step by exact H. rewrite prisma_healthy by done. simpl.
  by rewrite set_db_id.
Qed.

Lemma filter_length_Prop {A} (f : A → bool) (P : A → Prop) `{!∀ x, Decision (P x)}
    (l : list A) :
  (∀ x, f x = true ↔ P x) →
  length (List.filter f l) = length (filter P l).
Proof.
  intros Heq. induction l as [|x l IH]; [done|]. simpl.
  rewrite filter_cons. destruct (f x) eqn:E.
  - rewrite decide_True by (by apply Heq). simpl. by rewrite IH.
  - rewrite decide_False; [done|]. intros HP. apply Heq in HP. congruence.
Qed.

Lemma getNotifications_run req w :
  faults w = [] →
  let page := default 1 (q_page req) in
  let take := take_of (default 20 (q_limit req)) in
  let where_ := where_of (q_userId req) (default "false" (q_unreadOnly req)) in
  let rows := List.firstn (Z.to_nat take)
                (List.skipn (Z.to_nat (skip_of page (default 20 (q_limit req))))
                   (List.rev (List.filter where_ (notifications (db w))))) in
  getNotifications req w
  = (mkResponse 200
       (JNotifications rows
          (Z.of_nat (length (List.filter (unread_of (q_userId req))
                                         (notifications (db w)))))
          (mkPagination page take
             (Z.of_nat (length (List.filter where_ (notifications (db w)))))
             (bool_decide (Z.of_nat (length rows) = take)))), w).
Proof.
  intros Hf page take where_ rows. unfold getNotifications, handler.
  erewrite bind_step.
  2: { apply transaction_of_healthy; [done | | done].
       erewrite bind_step.
       2: { unfold notification_findMany. rewrite prisma_healthy by done.
            simpl. rewrite set_db_id. reflexivity. }
       erewrite bind_step.
       2: { unfold notification_count. rewrite prisma_healthy by done.
            simpl. rewrite set_db_id. reflexivity. }
       erewrite bind_step.
       2: { unfold notification_count. rewrite prisma_healthy by done.
            simpl. rewrite set_db_id. reflexivity. }
       reflexivity. }
  reflexivity.
Qed.

(** Property X17. With a store that answers, getNotifications answers
    with the 200 and leaves the world as it was. The page has at most
    [limit] rows, [limit] being the requested one brought into 1..50 (20
    when absent), and no more rows than [total]; every row is a stored
    notification of the requesting user, and an unread one when
    unreadOnly is 'true'; unreadCount is the number of the user's stored
    unread notifications; hasMore says whether the page is full. *)
Theorem getNotifications_page req w :
  faults w = [] →
  ∃ rows unread pg,
    getNotifications req w = (mkResponse 200 (JNotifications rows unread pg), w)
    ∧ limit pg = Z.min (Z.max (default 20 (q_limit req)) 1) 50
    ∧ 1 ≤ limit pg ≤ 50
    ∧ Z.of_nat (length rows) ≤ limit pg
    ∧ Z.of_nat (length rows) ≤ total pg
    ∧ (hasMore pg = true ↔ Z.of_nat (length rows) = limit pg)
    ∧ Forall (λ n, n ∈ notifications (db w)
                   ∧ n_userId n = q_userId req
                   ∧ (q_unreadOnly req = Some "true" → n_isRead n = false)) rows
    ∧ unread = Z.of_nat (length (filter (λ n, n_userId n = q_userId req
                                              ∧ n_isRead n = false)
                                        (notifications (db w)))).
Proof.
  intros Hf. eexists _, _, _. split; [by apply getNotifications_run|]. simpl.
  set (take := take_of _). set (l := List.rev _). set (skip := skip_of _ _).
  assert (Ht : 1 ≤ take ≤ 50) by (unfold take, take_of; lia).
  split; [done|]. split; [done|].
  assert (Hlen : (length (List.firstn (Z.to_nat take)
                            (List.skipn (Z.to_nat skip) l))
                  ≤ Z.to_nat take)%nat) by apply List.firstn_le_length.
  split; [lia|]. split.
  { rewrite length_take, length_drop. unfold l. rewrite List.length_rev. lia. }
  split; [by rewrite bool_decide_eq_true|]. split.
  - apply Forall_take, Forall_drop. unfold l. apply List.Forall_rev.
    apply Forall_forall. intros n Hn.
    apply list_elem_of_In, List.filter_In in Hn as [Hin Hn].
    unfold where_of in Hn. apply andb_true_iff in Hn as [H1 H2].
    apply bool_decide_eq_true_1 in H1. split; [by apply list_elem_of_In|].
    split; [done|]. intros Hu. rewrite Hu in H2. simpl in H2.
    by apply negb_true_iff in H2.
  - f_equal. apply filter_length_Prop. intros n. unfold unread_of.
    rewrite andb_true_iff, bool_decide_eq_true, negb_true_iff. done.
Qed.
End NotificationProperties.
Section NotificationProperties2.
Import Store NotificationRoutes Vocabulary2 Scenario2.

Lemma getNotifications_page_witness :
  ∃ pg,
    (getNotifications (mkQuery "bob" None (Some 2) (Some "true")) w_inbox).1
    = mkResponse 200
        (JNotifications
           [mkNotification "bob" "message_received" "Message" "Hi" false;
            mkNotification "bob" "project_invite" "Invite" "Join us" false]
           2 pg)
    ∧ limit pg = 2.
Proof.
  destruct (getNotifications_page (mkQuery "bob" None (Some 2) (Some "true"))
              w_inbox eq_refl) as (rows & unread & pg & H & Hl & _).
  exists pg. split; [|exact Hl].
  rewrite H. simpl. vm_compute in H. injection H as <- <- _. reflexivity.
Defined.

Lemma read_if_own_idem uid n : read_if_own uid (read_if_own uid n) = read_if_own uid n.
Proof.
  unfold read_if_own, unread_of.
  destruct (bool_decide (n_userId n = uid)) eqn:E, (n_isRead n) eqn:R; simpl;
    rewrite ?E, ?R; done.
Qed.

Lemma read_if_own_not_unread uid n : unread_of uid (read_if_own uid n) = false.
Proof.
  unfold read_if_own, unread_of.
  destruct (bool_decide (n_userId n = uid)) eqn:E, (n_isRead n) eqn:R; simpl;
    rewrite ?E, ?R; done.
Qed.

Lemma markAllAsRead_run uid w :
  faults w = [] →
  markAllAsRead uid w
  = (mkResponse 200 (JMessage "All notifications marked as read"),
     set_db (set_notifications (List.map (read_if_own uid)) (db w)) w).
Proof.
  intros Hf. unfold markAllAsRead, handler.
  erewrite bind_step.
  2: { unfold notification_updateMany. rewrite prisma_healthy by done. reflexivity. }
  reflexivity.
Qed.

(** Property X18. With a store that answers, markAllAsRead answers with
    the 200; afterwards no notification of the user is unread, the
    notifications of every other user and the number of rows are as
    before, and no other table changed. Doing it again changes nothing,
    and a following getNotifications of the user reports unreadCount 0. *)
Theorem markAllAsRead_clears uid w :
  faults w = [] →
  let out := markAllAsRead uid w in
  out.1 = mkResponse 200 (JMessage "All notifications marked as read")
  ∧ Forall (λ n, n_userId n = uid → n_isRead n = true) (notifications (db out.2))
  ∧ filter (λ n, n_userId n ≠ uid) (notifications (db out.2))
    = filter (λ n, n_userId n ≠ uid) (notifications (db w))
  ∧ length (notifications (db out.2)) = length (notifications (db w))
  ∧ set_notifications (λ _, notifications (db w)) (db out.2) = db w
  ∧ db (markAllAsRead uid out.2).2 = db out.2
  ∧ (∀ req, q_userId req = uid →
       ∃ rows pg, getNotifications req out.2
                  = (mkResponse 200 (JNotifications rows 0 pg), out.2)).
Proof.
  intros Hf out. subst out. rewrite markAllAsRead_run by done. simpl.
  split; [done|]. split; [|split; [|split; [|split; [|split]]]].
  - apply Forall_forall. intros n' Hn'.
    apply list_elem_of_In, List.in_map_iff in Hn' as (n & <- & _).
    unfold read_if_own, unread_of. intros Hu.
    destruct (bool_decide (n_userId n = uid)) eqn:E, (n_isRead n) eqn:R;
      simpl in *; try done.
    apply bool_decide_eq_false_1 in E. done.
  - induction (notifications (db w)) as [|n l IH]; [done|]. simpl.
    rewrite !filter_cons, IH.
    assert (Hid : n_userId (read_if_own uid n) = n_userId n).
    { unfold read_if_own. by destruct (unread_of uid n). }
    rewrite Hid. case_decide as Hn; [|done]. f_equal.
    unfold read_if_own, unread_of. by rewrite bool_decide_eq_false_2.
  - apply List.length_map.
  - by destruct (db w).
  - rewrite markAllAsRead_run by done. simpl. unfold set_notifications. simpl.
    f_equal. rewrite List.map_map. apply List.map_ext. intros n.
    apply read_if_own_idem.
  - intros req <-. eexists _, _.
    rewrite getNotifications_run by done. simpl.
    replace (List.filter (unread_of (q_userId req))
               (List.map (read_if_own (q_userId req)) (notifications (db w))))
      with (@nil Notification); [reflexivity|].
    induction (notifications (db w)) as [|n l IH]; [done|]. simpl.
    by rewrite read_if_own_not_unread.
Qed.

Lemma markAllAsRead_clears_witness :
  notifications (db (markAllAsRead "bob" w_inbox).2)
  = [mkNotification "bob" "project_invite" "Invite" "Join us" true;
     mkNotification "carol" "match_found" "Match" "A match" false;
     mkNotification "bob" "rating_received" "Rating" "Rated" true;
     mkNotification "bob" "message_received" "Message" "Hi" true]
  ∧ Forall (λ n, n_userId n = "bob" → n_isRead n = true)
           (notifications (db (markAllAsRead "bob" w_inbox).2)).
Proof.
  split; [reflexivity|].
  apply (markAllAsRead_clears "bob" w_inbox eq_refl).
Defined.

(** Property X19. What createNotification of the controller stores is
    what getNotifications shows first: after the helper stored a
    notification for a user on a store that answers, the first page of
    that user starts with it, unread. *)
Theorem created_notification_is_listed_first userId type title message w :
  faults w = [] →
  let n := mkNotification userId type title message false in
  let created := NotificationController.createNotification userId type title message w in
  created.1 = Ok (Some n)
  ∧ ∃ rest unread pg,
      getNotifications (mkQuery userId None None None) created.2
      = (mkResponse 200 (JNotifications (n :: rest) unread pg), created.2)
      ∧ 1 ≤ unread.
Proof.
  intros Hf n created.
  assert (Hc : created = (Ok (Some n),
                          set_db (set_notifications (λ ns, ns ++ [n]) (db w)) w)).
  { subst created. unfold NotificationController.createNotification, try_catch.
    erewrite bind_step.
    2: { unfold notification_create. rewrite prisma_healthy by done. reflexivity. }
    reflexivity. }
  rewrite Hc. simpl. split; [done|].
  eexists _, _, _. rewrite getNotifications_run by done. simpl.
  rewrite !List.filter_app. simpl.
  unfold where_of at 2, unread_of at 2. simpl.
  rewrite bool_decide_eq_true_2 by done. simpl.
  rewrite List.rev_app_distr. simpl. split; [reflexivity|].
  rewrite length_app. simpl. lia.
Qed.

Lemma created_notification_is_listed_first_witness :
  ∃ rest unread pg,
    (getNotifications (mkQuery "carol" None None None)
       (NotificationController.createNotification "carol" "project_invite" "Invite"
          "Join" w_inbox).2).1
    = mkResponse 200
        (JNotifications
           (mkNotification "carol" "project_invite" "Invite" "Join" false :: rest)
           unread pg).
Proof.
  destruct (created_notification_is_listed_first "carol" "project_invite" "Invite"
              "Join" w_inbox eq_refl) as (_ & rest & unread & pg & H & _).
  exists rest, unread, pg. by rewrite H.
Defined.
End NotificationProperties2.
(** ** getProjectDetails *)

Section ProjectDetails.
Import Store ProjectQueries Scenario2.

Lemma getProjectDetails_run uid pid w :
  faults w = [] →
  getProjectDetails uid pid w
  = (match projects (db w) !! pid with
     | None => mkResponse 404 (JError "Project not found")
     | Some p =>
       mkResponse 200
         (JDetails p (members_of (db w) pid)
            (existsb (λ m, bool_decide (m = uid)) (members_of (db w) pid))
            (length (members_of (db w) pid)))
     end, w).
Proof.
  intros Hf. unfold getProjectDetails, handler.
  erewrite bind_step by (by apply project_findUnique_members_healthy).
  by destruct (projects (db w) !! pid).
Qed.

Lemma members_of_insert d d' pid uid r :
  members d' = <[(pid, uid) := r]> (members d) →
  members d !! (pid, uid) = None →
  length (members_of d' pid) = S (length (members_of d pid)).
Proof.
  intros Hd Hm.
  change (S (length (members_of d pid))) with (length (uid :: members_of d pid)).
  apply Permutation_length, NoDup_Permutation.
  - apply members_of_NoDup.
  - apply NoDup_cons. split; [|apply members_of_NoDup].
    rewrite members_of_elem, Hm. by intros [? ?].
  - intros u. rewrite elem_of_cons, !members_of_elem, Hd.
    destruct (decide (u = uid)) as [->|Hne].
    + rewrite lookup_insert_eq. naive_solver.
    + rewrite lookup_insert_ne by congruence. naive_solver.
Qed.

(** Property X20. With a store that answers, getProjectDetails leaves the
    world as it was and answers 404 exactly for a project that does not
    exist. For a project that exists the listed members are exactly the
    users with a membership row in it, each once, memberCount is their
    number, and isMember tells whether the requester is among them. After
    a user joined the project, the user's view has isMember true and a
    memberCount one higher. *)
Theorem getProjectDetails_membership uid pid w :
  faults w = [] →
  let out := getProjectDetails uid pid w in
  out.2 = w
  ∧ (projects (db w) !! pid = None →
       out.1 = mkResponse 404 (JError "Project not found"))
  ∧ (∀ p, projects (db w) !! pid = Some p →
       ∃ ms isMember,
         out.1 = mkResponse 200 (JDetails p ms isMember (length ms))
         ∧ NoDup ms
         ∧ (∀ u, u ∈ ms ↔ is_Some (members (db w) !! (pid, u)))
         ∧ (isMember = true ↔ is_Some (members (db w) !! (pid, uid))))
  ∧ (∀ u p, pid ≠ "" → users (db w) !! uid = Some u → activeProjectCount u < 2 →
       projects (db w) !! pid = Some p → status p = active →
       members (db w) !! (pid, uid) = None →
       ∃ ms,
         (getProjectDetails uid pid
            (ProjectController.joinProject
               (ProjectController.mkProjectReq uid (Some pid)) w).2).1
         = mkResponse 200
             (JDetails p ms true (S (length (members_of (db w) pid))))).
Proof.
  intros Hf out. subst out. rewrite getProjectDetails_run by done. simpl.
  split; [done|]. split; [by intros ->|]. split.
  - intros p ->. eexists _, _. split; [reflexivity|].
    split; [apply members_of_NoDup|]. split; [apply members_of_elem|].
    rewrite <- members_of_elem, existsb_exists. split.
    + intros (x & Hx & Hb). apply bool_decide_eq_true_1 in Hb. subst x.
      by apply list_elem_of_In.
    + intros Hin. exists uid. split; [by apply list_elem_of_In|].
      by apply bool_decide_eq_true_2.
  - intros u p Hne Hu Hc Hp Hs Hm.
    rewrite (joinProject_run w uid u pid p) by done. simpl.
    rewrite getProjectDetails_run by done. simpl. rewrite Hp.
    eexists. f_equal. f_equal.
    + apply existsb_exists. exists uid. split; [|by apply bool_decide_eq_true_2].
      apply list_elem_of_In, members_of_elem. simpl.
      rewrite lookup_insert_eq. eauto.
    + by apply (members_of_insert (db w) _ pid uid member).
Qed.

Lemma getProjectDetails_membership_witness :
  getProjectDetails "b" "nope" w_project
  = (mkResponse 404 (JError "Project not found"), w_project)
  ∧ ∃ ms,
      (getProjectDetails "b" "0"
         (ProjectController.joinProject
            (ProjectController.mkProjectReq "b" (Some "0")) w_project).2).1
      = mkResponse 200
          (JDetails (mkProject "T" "D" "web" "a" active) ms true 2).
Proof.
  destruct (getProjectDetails_membership "b" "nope" w_project eq_refl)
    as (H1 & H2 & _).
  destruct (getProjectDetails_membership "b" "0" w_project eq_refl)
    as (_ & _ & _ & H4).
  split.
  - rewrite <- H1 at 2. rewrite <- H2 by reflexivity. apply surjective_pairing.
  - apply (H4 (mkUser "B" 75 0) (mkProject "T" "D" "web" "a" active));
      [discriminate | reflexivity | simpl; lia | reflexivity | reflexivity
      | reflexivity].
Defined.
End ProjectDetails.
(** ** The hub: further properties *)

Section HubProperties.
Import Store Socket Vocabulary2 Scenario.

Lemma trimStart_white ws s :
  ws ∈ white_space → Js.trimStart (ws +:+ s) = Js.trimStart s.
Proof.
  unfold white_space. intros H.
  repeat (apply elem_of_cons in H as [->|H]; [reflexivity|]).
  by apply elem_of_nil in H.
Qed.

Lemma trimStart_blank s : blank s → Js.trimStart s = "".
Proof.
  induction 1 as [|ws s Hws _ IH]; [done|]. by rewrite trimStart_white.
Qed.

Lemma trim_blank s : blank s → Js.trim s = "".
Proof. intros H. unfold Js.trim. by rewrite (trimStart_blank s H). Qed.

Example trim_unicode :
  Js.trim (of_bytes [194; 160; 84; 226; 128; 137; 32]%nat) = "T"
  ∧ Js.trim (of_bytes [9; 195; 169; 32; 120; 227; 128; 128]%nat)
    = of_bytes [195; 169; 32; 120]%nat.
Proof. split; reflexivity. Qed.

(** Property X21. What sendMessage does with a message it does not
    take. Without a payload the handler throws at the destructuring,
    outside its [try]: the promise of the handler is rejected, no event
    is emitted and nothing changes (what the runtime does with the
    rejection is not modelled). With a
    payload, a socket that is not authenticated or a missing receiver
    gets the event 'Invalid message data' and nothing else happens, the
    content not being looked at. With a sender and a receiver, a content
    that is absent or no string makes the handler throw, again without
    an event; a content of white space only, that of Unicode included,
    gets 'Invalid message data' and nothing else happens. *)
Theorem sendMessage_rejects_invalid (unicode_upper : string → string) sid w :
  let invalid := set_outbox (outbox w ++ [(sid, error "Invalid message data")]) w in
  sendMessage_handler unicode_upper sid None w = (Throw TypeError, w)
  ∧ (∀ data,
       Js.falsy (sockets w !! sid ≫= socket_userId) = true
       ∨ Js.falsy (d_receiverId data) = true →
       sendMessage_handler unicode_upper sid (Some data) w = (Ok tt, invalid))
  ∧ (∀ receiverId,
       Js.falsy (sockets w !! sid ≫= socket_userId) = false →
       Js.falsy receiverId = false →
       sendMessage_handler unicode_upper sid
         (Some (mkSendMessageData receiverId None)) w
       = (Throw TypeError, w)
       ∧ ∀ content, blank content →
           sendMessage_handler unicode_upper sid
             (Some (mkSendMessageData receiverId (Some content))) w
           = (Ok tt, invalid)).
Proof.
  intros invalid. split; [reflexivity|]. split.
  - intros data H. unfold sendMessage_handler.
    erewrite bind_step by reflexivity.
    replace (Js.falsy (sockets w !! sid ≫= socket_userId)
             || Js.falsy (d_receiverId data)) with true; [reflexivity|].
    symmetry. destruct H as [->| ->]; [done | by rewrite orb_true_r].
  - intros receiverId Hs Hr. unfold sendMessage_handler.
    cbn [d_receiverId d_content].
    split; [|intros content Hc]; erewrite bind_step by reflexivity;
      rewrite Hs, Hr; cbn [orb]; [reflexivity|].
    by rewrite (trim_blank _ Hc).
Qed.

Lemma sendMessage_rejects_invalid_witness :
  sendMessage (λ s, s) "s1" None w_alice = w_alice
  ∧ sendMessage (λ s, s) "s1"
      (Some (mkSendMessageData (Some "bob") None)) w_alice
    = w_alice
  ∧ sendMessage (λ s, s) "s1"
      (Some (mkSendMessageData (Some "bob")
               (Some (of_bytes [32; 194; 160; 226; 128; 137]%nat)))) w_alice
    = set_outbox [("s1", error "Invalid message data")] w_alice
  ∧ sendMessage (λ s, s) "s9"
      (Some (mkSendMessageData (Some "bob") (Some "hello"))) (connection "s9" w_chat)
    = set_outbox [("s9", error "Invalid message data")] (connection "s9" w_chat).
Proof.
  pose proof (sendMessage_rejects_invalid (λ s, s) "s1" w_alice) as (H1 & _ & H3).
  pose proof (sendMessage_rejects_invalid (λ s, s) "s9" (connection "s9" w_chat))
    as (_ & H2 & _).
  destruct (H3 (Some "bob") eq_refl eq_refl) as [H4 H5].
  unfold sendMessage, run.
  split; [by rewrite H1|]. split; [by rewrite H4|]. split.
  - rewrite H5; [reflexivity|].
    apply (blank_space (of_bytes [32]%nat)); [by repeat constructor|].
    apply (blank_space (of_bytes [194; 160]%nat)); [by repeat constructor|].
    apply (blank_space (of_bytes [226; 128; 137]%nat)); [by repeat constructor|].
    constructor.
  - rewrite H2; [reflexivity|]. by left.
Defined.

Lemma in_room_elem w room sid :
  sid ∈ in_room w room ↔ ∃ s, sockets w !! sid = Some s ∧ room ∈ rooms s.
Proof.
  unfold in_room. rewrite list_elem_of_fmap. split.
  - intros ([sid' s] & -> & Hin). apply list_elem_of_filter in Hin as [Hr Hin].
    apply elem_of_map_to_list in Hin. eauto.
  - intros (s & Hs & Hr). exists (sid, s). split; [done|].
    apply list_elem_of_filter. split; [done|]. by apply elem_of_map_to_list.
Qed.

(** Property X23. After a connected socket authenticates with a token
    that carries a user id, the registry maps the user to that socket, the
    socket is in the user's room, every connected socket was sent
    'userOnline', the database is untouched, and a delivery to the user
    reaches the socket. *)
Theorem authenticate_registers sid u s w :
  sockets w !! sid = Some s → u ≠ "" → sid ≠ "" →
  let w' := authenticate sid (validToken (Some u)) w in
  onlineUsers w' !! u = Some sid
  ∧ sockets w' !! sid = Some (mkSocket (Some u) ({[room_of u]} ∪ rooms s))
  ∧ db w' = db w
  ∧ (∀ sid', is_Some (sockets w !! sid') → (sid', userOnline u) ∈ outbox w')
  ∧ (∀ ev, (sid, ev) ∈ outbox (deliver u ev w').2).
Proof.
  intros Hs Hu Hsid w'.
  assert (Hw' : w' =
    set_outbox (outbox w ++ ((λ sid', (sid', userOnline u)) <$>
                   elements (dom (alter (λ s, mkSocket (socket_userId s)
                                                ({[room_of u]} ∪ rooms s)) sid
                                    (alter (λ s, mkSocket (Some u) (rooms s)) sid
                                       (sockets w))))))
      (set_sockets (alter (λ s, mkSocket (socket_userId s) ({[room_of u]} ∪ rooms s)) sid
                      (alter (λ s, mkSocket (Some u) (rooms s)) sid (sockets w)))
         (set_onlineUsers (<[u := sid]> (onlineUsers w)) w))).
  { subst w'. unfold authenticate, run, try_catch, jwt_verify.
    rewrite (bind_step _ _ w (Some u) w) by reflexivity.
    change (Js.falsy (Some u)) with (bool_decide (u = "")).
    rewrite bool_decide_eq_false_2 by done. reflexivity. }
  assert (Hsock : sockets w' !! sid = Some (mkSocket (Some u) ({[room_of u]} ∪ rooms s))).
  { rewrite Hw'. simpl. rewrite !lookup_alter_eq, Hs. reflexivity. }
  split; [by rewrite Hw'; simpl; rewrite lookup_insert_eq|].
  split; [exact Hsock|]. split; [by rewrite Hw'|]. split.
  - intros sid' Hin. rewrite Hw'. simpl. apply elem_of_app. right.
    apply list_elem_of_fmap. exists sid'. split; [done|].
    apply elem_of_elements, elem_of_dom.
    destruct (decide (sid = sid')) as [<-|Hne].
    + rewrite !lookup_alter_eq, Hs. eauto.
    + by rewrite !lookup_alter_ne.
  - intros ev. unfold deliver, mbind, M_bind, onlineUsers_get.
    replace (onlineUsers w' !! u) with (Some sid)
      by (rewrite Hw'; simpl; by rewrite lookup_insert_eq).
    change (Js.falsy (Some sid)) with (bool_decide (sid = "")).
    rewrite bool_decide_eq_false_2 by done.
    unfold io_to_emit, emit_to. simpl.
    apply elem_of_app. right. apply list_elem_of_fmap. exists sid.
    split; [done|]. apply in_room_elem. eexists. split; [exact Hsock|].
    simpl. set_solver.
Qed.

Lemma authenticate_registers_witness :
  onlineUsers (authenticate "c1" (validToken (Some "bob")) (connection "c1" w_chat))
    !! "bob" = Some "c1".
Proof.
  apply (authenticate_registers "c1" "bob" (mkSocket None {["c1"]})
           (connection "c1" w_chat));
    [reflexivity | discriminate | discriminate].
Defined.

(** Property X24. After the socket on which a user is authenticated
    disconnects, the socket is gone, the registry has no entry for the
    user, the sockets that remain were sent 'userOffline', the database is
    untouched, and a delivery to the user reaches nobody. *)
Theorem disconnect_unregisters sid u s w :
  sockets w !! sid = Some s → socket_userId s = Some u → u ≠ "" →
  let w' := run (disconnect sid) w in
  sockets w' !! sid = None
  ∧ onlineUsers w' !! u = None
  ∧ db w' = db w
  ∧ (∀ sid', sid' ≠ sid → is_Some (sockets w !! sid') →
       (sid', userOffline u) ∈ outbox w')
  ∧ (∀ ev, deliver u ev w' = (Ok tt, w')).
Proof.
  intros Hs Hu Hne w'.
  assert (Hw' : w' =
    set_outbox (outbox w ++ ((λ sid', (sid', userOffline u)) <$>
                   elements (dom (delete sid (sockets w)))))
      (set_onlineUsers (delete u (onlineUsers w))
         (set_sockets (delete sid (sockets w)) w))).
  { subst w'. unfold run, disconnect. rewrite Hs, Hu. unfold on_disconnect.
    change (Js.falsy (Some u)) with (bool_decide (u = "")).
    rewrite bool_decide_eq_false_2 by done. reflexivity. }
  assert (Ho : onlineUsers w' !! u = None)
    by (rewrite Hw'; simpl; apply lookup_delete_eq).
  split; [rewrite Hw'; simpl; apply lookup_delete_eq|].
  split; [exact Ho|]. split; [by rewrite Hw'|]. split.
  - intros sid' Hn Hin. rewrite Hw'. simpl. apply elem_of_app. right.
    apply list_elem_of_fmap. exists sid'. split; [done|].
    apply elem_of_elements, elem_of_dom. by rewrite lookup_delete_ne.
  - intros ev. by apply deliver_offline.
Qed.

Lemma disconnect_unregisters_witness :
  onlineUsers w_offline !! "bob" = None
  ∧ sockets w_offline !! "c1" = None.
Proof.
  destruct (disconnect_unregisters "c1" "bob"
              (mkSocket (Some "bob") ({[room_of "bob"]} ∪ {["c1"]})) w_online)
    as (H1 & H2 & _);
    [reflexivity | reflexivity | discriminate |].
  split; [exact H2 | exact H1].
Defined.

Lemma markAsRead_missing_witness :
  db (markAsRead "s3" "m9" w_carol) = db w_carol
  ∧ ("s3", error "Failed to update read status") ∈ outbox (markAsRead "s3" "m9" w_carol).
Proof. apply (markAsRead_missing "s3" "m9" w_carol). reflexivity. Defined.
End HubProperties.
Section SendMessage.
Import Store Socket Vocabulary2 Scenario.

Lemma prisma_not_outage {A} (q : DB → Res A * DB) w :
  head (faults w) ≠ Some true →
  prisma q w = ((q (db w)).1, set_db (q (db w)).2 (set_faults (tail (faults w)) w)).
Proof.
  intros Hf. unfold prisma. destruct (faults w) as [|[] fs] eqn:F.
  - destruct (q (db w)) as [r d]. simpl. do 2 f_equal.
    destruct w; simpl in *; by subst.
  - by destruct Hf.
  - by destruct (q (db w)).
Qed.

Lemma spread_keys_string s :
  Js.length s ≠ 0%nat → spread_keys (MetaString s) ≠ [].
Proof.
  intros H E. apply (f_equal List.length) in E. simpl in E.
  rewrite length_fmap, length_seq in E. done.
Qed.

(** With keys that are no columns the insert of a notification throws,
    store outage or not, and nothing changes but the script of the
    store. *)
Lemma notification_create_rejected n extra w :
  extra ≠ [] →
  ∃ e fs, notification_create n extra w = (Throw e, set_faults fs w).
Proof.
  intros He. unfold notification_create, prisma.
  destruct extra as [|k extra]; [done|].
  destruct (faults w) as [|[] fs] eqn:F.
  - exists PrismaValidationError, []. f_equal. destruct w; simpl in *; by subst.
  - by exists StoreUnavailable, fs.
  - exists PrismaValidationError, fs. reflexivity.
Qed.

(** Property X22. Every sendMessage that the store accepts ends in the
    error event. For an authenticated sender (an id of at least one
    character), a receiver that exists and a content that is more than
    white space, when the store takes the message: the message is stored
    under the new id with the trimmed content and unread; the receiver's
    room gets 'newMessage' when the registry has the receiver; the sender
    gets 'messageSent' and then 'Failed to send message'; and no
    notification is stored, because the sender id is spread into the
    notification row as keys that are no columns. *)
Theorem sendMessage_always_reports_failure
    (unicode_upper : string → string) sid u r content su ru w :
  sockets w !! sid ≫= socket_userId = Some u → Js.length u ≠ 0%nat → r ≠ "" →
  Js.trim content ≠ "" →
  head (faults w) ≠ Some true →
  messages (db w) !! pretty (nextId w) = None →
  users (db w) !! u = Some su → users (db w) !! r = Some ru →
  let mid := pretty (nextId w) in
  let row := mkMessage u r (Js.trim content) false in
  let w' := sendMessage unicode_upper sid
              (Some (mkSendMessageData (Some r) (Some content))) w in
  db w' = set_messages <[mid := row]> (db w)
  ∧ notifications (db w') = notifications (db w)
  ∧ outbox w'
    = outbox w
      ++ (if Js.falsy (onlineUsers w !! r) then []
          else (λ s, (s, newMessage mid row)) <$> in_room w (room_of r))
      ++ [(sid, messageSent mid row); (sid, error "Failed to send message")].
Proof.
  intros Hs Hlen Hr Hc Hf Hm Hsu Hru mid row w'. subst w'.
  assert (Hu : u ≠ "") by (intros ->; by apply Hlen).
  unfold sendMessage, sendMessage_handler, run.
  erewrite bind_step by reflexivity. rewrite Hs.
  cbn [d_receiverId d_content]. unfold Js.falsy, Js.empty.
  rewrite (bool_decide_eq_false_2 (u = "")), (bool_decide_eq_false_2 (r = "")),
    (bool_decide_eq_false_2 (Js.trim content = "")) by done.
  unfold try_catch. cbn [orb default]. cbv beta.
  set (w1 := set_db (set_messages <[mid := row]> (db w))
               (set_faults (tail (faults w)) (set_nextId (S (nextId w)) w))).
  assert (H1 : message_create row w = (Ok (mid, row, su, ru), w1)).
  { unfold message_create. erewrite bind_step by reflexivity.
    rewrite prisma_not_outage by done. simpl.
    rewrite Hm, Hsu, Hru. reflexivity. }
  erewrite bind_step by exact H1. cbv beta iota.
  set (delivered := if Js.falsy (onlineUsers w !! r) then []
                    else (λ s, (s, newMessage mid row)) <$> in_room w (room_of r)).
  set (w2 := set_outbox (outbox w ++ delivered) w1).
  assert (H2 : deliver r (newMessage mid row) w1 = (Ok tt, w2)).
  { unfold deliver, mbind, M_bind, onlineUsers_get, w2, delivered. simpl.
    destruct (Js.falsy (onlineUsers w !! r)).
    - rewrite app_nil_r. by destruct w.
    - reflexivity. }
  erewrite bind_step by exact H2.
  erewrite bind_step by reflexivity.
  set (w3 := (socket_emit sid (messageSent mid row) w2).2).
  destruct (notification_create_rejected
              (mkNotification r "message_received"
                 (toUpperCase unicode_upper (replace_underscore "message_received"))
                 ("New message from " +:+ name su) false)
              (spread_keys (MetaString u)) w3 (spread_keys_string u Hlen))
    as (e & fs & Hn).
  assert (H3 : createNotification unicode_upper r "message_received"
                 ("New message from " +:+ name su) (MetaString u) w3
               = (Throw e, set_faults fs w3)).
  { unfold createNotification, try_catch.
    erewrite bind_throw by exact Hn. reflexivity. }
  erewrite bind_throw by exact H3.
  simpl. split; [done|]. split; [done|]. by rewrite <- !app_assoc.
Qed.

Lemma sendMessage_always_reports_failure_witness :
  outbox (sendMessage (λ s, s) "s1"
            (Some (mkSendMessageData (Some "bob") (Some " hello "))) w_alice)
  = [("s1", messageSent "0" (mkMessage "alice" "bob" "hello" false));
     ("s1", error "Failed to send message")].
Proof.
  destruct (sendMessage_always_reports_failure (λ s, s) "s1" "alice" "bob" " hello "
              (mkUser "Alice" 80 0) (mkUser "Bob" 80 0) w_alice)
    as (_ & _ & H);
    [reflexivity | discriminate | discriminate | discriminate | discriminate
    | reflexivity | reflexivity | reflexivity |].
  rewrite H. reflexivity.
Defined.
End SendMessage.
(** ** The recommendation ranking *)

Section SortLemmas.
Import Ranking.
Context {A : Type} (after : A → A → bool).

Lemma sort_insert_Permutation x l : sort_insert after x l ≡ₚ x :: l.
Proof.
  induction l as [|y l IH]; simpl; [done|].
  destruct (after x y); [|done]. rewrite IH. apply Permutation_swap.
Qed.

Lemma sort_Permutation l : sort after l ≡ₚ l.
Proof.
  induction l as [|x l IH]; [done|].
  change (sort after (x :: l)) with (sort_insert after x (sort after l)).
  by rewrite sort_insert_Permutation, IH.
Qed.

Variable R : A → A → Prop.
Hypothesis R_trans : ∀ a b c, R a b → R b c → R a c.
Hypothesis R_before : ∀ a b, after a b = false → R a b.
Hypothesis R_after : ∀ a b, after a b = true → R b a.

Lemma sort_insert_sorted x l :
  StronglySorted R l → StronglySorted R (sort_insert after x l).
Proof.
  induction l as [|y l IH]; simpl; intros H.
  - repeat constructor.
  - apply StronglySorted_inv in H as [Hl Hy].
    destruct (after x y) eqn:E.
    + constructor; [by apply IH|].
      rewrite sort_insert_Permutation. constructor; [by apply R_after | done].
    + constructor; [by constructor|].
      constructor; [by apply R_before|].
      eapply Forall_impl; [exact Hy|]. intros z Hz.
      eapply R_trans; [|exact Hz]. by apply R_before.
Qed.

Lemma sort_sorted l : StronglySorted R (sort after l).
Proof.
  induction l as [|x l IH]; [constructor|].
  change (sort after (x :: l)) with (sort_insert after x (sort after l)).
  by apply sort_insert_sorted.
Qed.

Lemma sorted_take n l : StronglySorted R l → StronglySorted R (take n l).
Proof.
  intros H. revert n. induction H as [|x l Hl IH Hx]; intros [|n]; simpl;
    try constructor; [apply IH | by apply Forall_take].
Qed.

Lemma sorted_take_drop n l a b :
  StronglySorted R l → a ∈ take n l → b ∈ drop n l → R a b.
Proof.
  intros H. revert n. induction H as [|x l Hl IH Hx]; intros [|n]; simpl.
  - by intros ?%elem_of_nil.
  - by intros ?%elem_of_nil.
  - by intros ?%elem_of_nil.
  - intros [->|Ha]%elem_of_cons Hb.
    + rewrite Forall_forall in Hx. apply Hx.
      rewrite <- (take_drop n l). apply elem_of_app. by right.
    + by eapply IH.
Qed.
End SortLemmas.

Section RankingProperties.
Import Store Ranking.

Variable fl : Q → Q.

Lemma candidates_of_sorted_filter table cur :
  candidates_of table cur
  = take 100 (sort (λ a b, reputationScore a <? reputationScore b)
       (filter (λ u, id u ≠ cur ∧ isAvailable u = true ∧ 70 ≤ reputationScore u)
          table)).
Proof. reflexivity. Qed.

Lemma by_reputation_sorted (l : list Profile) :
  StronglySorted (λ a b, reputationScore b ≤ reputationScore a)
    (sort (λ a b, reputationScore a <? reputationScore b) l).
Proof.
  apply sort_sorted.
  - intros a b c ??. lia.
  - intros a b H%Z.ltb_ge. lia.
  - intros a b H%Z.ltb_lt. lia.
Qed.

Lemma by_ranking_sorted (l : list Scored) :
  StronglySorted (λ a b, (rankingScore b <= rankingScore a)%Q) (sort ranks_after l).
Proof.
  apply sort_sorted.
  - intros a b c H1 H2. eapply Qle_trans; eauto.
  - intros a b H. unfold ranks_after in H. apply negb_false_iff in H.
    by apply Qle_bool_iff.
  - intros a b H. unfold ranks_after in H. apply negb_true_iff in H.
    apply Qlt_le_weak, Qnot_le_lt. intros Hle%Qle_bool_iff. congruence.
Qed.

Lemma candidates_of_elem table cur p :
  p ∈ candidates_of table cur →
  p ∈ table ∧ id p ≠ cur ∧ isAvailable p = true ∧ 70 ≤ reputationScore p.
Proof.
  rewrite candidates_of_sorted_filter. intros H.
  assert (H' : p ∈ filter (λ u, id u ≠ cur ∧ isAvailable u = true
                                ∧ 70 ≤ reputationScore u) table).
  { rewrite <- (sort_Permutation (λ a b, reputationScore a <? reputationScore b)).
    rewrite <- (take_drop 100 (sort _ _)). apply elem_of_app. by left. }
  apply list_elem_of_filter in H'. tauto.
Qed.

(** Property X30. The candidate pool of the recommendation: at most 100
    rows; each is a row of the table that is not the requester, is
    available and has reputation 70 or more; the pool is in descending
    order of reputation; and the pool with the rows left out is the whole
    of the eligible rows, nothing is left out while the pool has room, and
    no row left out has a higher reputation than a row of the pool. *)
Theorem candidate_pool_keeps_highest_reputations table cur :
  let eligible :=
    filter (λ u, id u ≠ cur ∧ isAvailable u = true ∧ 70 ≤ reputationScore u) table in
  let pool := candidates_of table cur in
  (length pool ≤ 100)%nat
  ∧ (∀ p, p ∈ pool →
       p ∈ table ∧ id p ≠ cur ∧ isAvailable p = true ∧ 70 ≤ reputationScore p)
  ∧ StronglySorted (λ a b, reputationScore b ≤ reputationScore a) pool
  ∧ ∃ rest,
      pool ++ rest ≡ₚ eligible
      ∧ ((length pool < 100)%nat → rest = [])
      ∧ ∀ a b, a ∈ pool → b ∈ rest → reputationScore b ≤ reputationScore a.
Proof.
  intros eligible pool. subst pool. rewrite candidates_of_sorted_filter.
  fold eligible.
  set (sorted := sort (λ a b, reputationScore a <? reputationScore b) eligible).
  assert (Hs : StronglySorted (λ a b, reputationScore b ≤ reputationScore a) sorted)
    by apply by_reputation_sorted.
  split; [|split; [|split]].
  - rewrite length_take. lia.
  - intros p Hp. by apply candidates_of_elem.
  - apply sorted_take, Hs.
  - exists (drop 100 sorted). split; [|split].
    + rewrite take_drop. apply sort_Permutation.
    + rewrite length_take. intros H. apply drop_ge. lia.
    + intros a b Ha Hb.
      exact (sorted_take_drop (λ a b, reputationScore b ≤ reputationScore a)
               100 sorted a b Hs Ha Hb).
Qed.

(** Property X29. The recommendation of the matching service. It throws
    'Current user not found' exactly when no row of the user table has the
    requester's id. Otherwise it returns the 20 best of the scored
    candidate pool (all of them when the pool has fewer), in descending
    order of ranking score: no scored candidate left out ranks higher than
    one returned. Each entry is the score of a row that is not the
    requester, is available and has reputation 70 or more. *)
Theorem recommended_users_ranked table cur :
  match getRecommendedUsers fl table cur with
  | Throw e =>
      e = JsError "Current user not found" ∧ ∀ p, p ∈ table → id p ≠ cur
  | Ok l =>
      ∃ me, me ∈ table ∧ id me = cur
      ∧ let scored :=
          score fl (list_to_set (skills me)) (list_to_set (domains me))
            <$> candidates_of table cur in
        length l = (20 `min` length (candidates_of table cur))%nat
        ∧ StronglySorted (λ a b, (rankingScore b <= rankingScore a)%Q) l
        ∧ (∀ e, e ∈ l →
             s_id e ≠ cur ∧ s_isAvailable e = true ∧ 70 ≤ s_reputationScore e
             ∧ ∃ p, p ∈ table ∧ id p = s_id e
                    ∧ e = score fl (list_to_set (skills me))
                            (list_to_set (domains me)) p)
        ∧ ∃ rest,
            l ++ rest ≡ₚ scored
            ∧ ∀ a b, a ∈ l → b ∈ rest → (rankingScore a >= rankingScore b)%Q
  end.
Proof.
  unfold getRecommendedUsers.
  destruct (List.find _ table) as [me|] eqn:F.
  - apply find_some in F as [Hin Hid]. apply bool_decide_eq_true in Hid.
    exists me. split; [by apply list_elem_of_In|]. split; [done|].
    set (scored := score fl _ _ <$> candidates_of table cur).
    set (sorted := sort ranks_after scored).
    assert (Hs : StronglySorted (λ a b, (rankingScore b <= rankingScore a)%Q) sorted)
      by apply by_ranking_sorted.
    assert (Hp : sorted ≡ₚ scored) by apply sort_Permutation.
    split; [|split; [|split]].
    + rewrite length_take. rewrite Hp. unfold scored. by rewrite length_fmap.
    + apply sorted_take, Hs.
    + intros e He.
      assert (He' : e ∈ scored).
      { rewrite <- Hp, <- (take_drop 20 sorted). apply elem_of_app. by left. }
      apply list_elem_of_fmap in He' as (p & -> & Hp').
      apply candidates_of_elem in Hp' as (? & ? & ? & ?).
      simpl. repeat split; try done. by exists p.
    + exists (drop 20 sorted). split; [by rewrite take_drop|].
      intros a b Ha Hb.
      exact (sorted_take_drop (λ a b, (rankingScore b <= rankingScore a)%Q)
               20 sorted a b Hs Ha Hb).
  - split; [done|]. intros p Hp%list_elem_of_In E.
    pose proof (find_none _ _ F p Hp) as H. simpl in H.
    by apply bool_decide_eq_false in H.
Qed.
End RankingProperties.

Section MatchingProperties.
Import Matching Ranking Spec.

(** Property X26. The skill match is symmetric: the percentage of one
    user's skills against another's is that of the other's against the
    first's, whatever the rounding of the arithmetic. *)
Theorem skill_match_symmetric (fl : Q → Q) (S1 S2 : gset string) :
  calculateSkillMatchPercent fl S1 S2 = calculateSkillMatchPercent fl S2 S1.
Proof.
  unfold calculateSkillMatchPercent.
  rewrite !union_size, !intersection_length_size.
  assert (Ei : S2 ∩ S1 = S1 ∩ S2) by (apply set_eq; intros x; set_solver).
  assert (Eu : S2 ∪ S1 = S1 ∪ S2) by (apply set_eq; intros x; set_solver).
  by rewrite Ei, Eu.
Qed.

Lemma exact_arithmetic_proper x y :
  (x == y → exact_arithmetic x == exact_arithmetic y)%Q.
Proof. by intros H. Qed.

Lemma exact_arithmetic_integer (n : Z) :
  Z.abs n ≤ 2 ^ 53 → (exact_arithmetic (inject_Z n) == inject_Z n)%Q.
Proof. by intros _. Qed.

Lemma exact_arithmetic_error x :
  (1 # (2 ^ 64) <= Qabs x → Qabs x <= inject_Z (2 ^ 64) →
   Qabs (exact_arithmetic x - x) <= Qabs x * (1 # (2 ^ 53)))%Q.
Proof.
  intros _ _.
  assert (E : (exact_arithmetic x - x == 0)%Q) by (unfold exact_arithmetic; ring).
  rewrite E. apply Qmult_le_0_compat; [apply Qabs_nonneg | done].
Qed.

(** Property X27. With double arithmetic ([fl] respects equality, is exact
    on the integers up to 2^53 and has relative error at most 2^-53
    between 2^-64 and 2^64) and fewer than 2^40 ids in the union, the
    skill match is a percentage between 0 and 100; it is 0 for sets
    without a common id; and the domain match is the same function of the
    domain ids. *)
Theorem match_percent_range (fl : Q → Q) (S1 S2 : gset string) :
  (∀ x y, x == y → fl x == fl y)%Q →
  (∀ n : Z, Z.abs n ≤ 2 ^ 53 → (fl (inject_Z n) == inject_Z n)%Q) →
  (∀ x, 1 # (2 ^ 64) <= Qabs x → Qabs x <= inject_Z (2 ^ 64) →
        Qabs (fl x - x) <= Qabs x * (1 # (2 ^ 53)))%Q →
  Z.of_nat (size (S1 ∪ S2)) < 2 ^ 40 →
  let r := calculateSkillMatchPercent fl S1 S2 in
  0 ≤ r ≤ 100
  ∧ (S1 ## S2 → r = 0)
  ∧ calculateDomainMatchPercent fl S1 S2 = r.
Proof.
  intros H1 H2 H3 Hu r.
  set (i := Z.of_nat (size (S1 ∩ S2))).
  set (u := Z.of_nat (size (S1 ∪ S2))) in *.
  assert (Hr : r = if 0 <? u
                   then Math_round (fl (fl (inject_Z i / inject_Z u) * 100))%Q
                   else 0).
  { unfold r, calculateSkillMatchPercent, js_mul, js_div.
    rewrite union_size, intersection_length_size. reflexivity. }
  assert (Hiu : 0 ≤ i ≤ u).
  { subst i u. split; [lia|]. apply inj_le, subseteq_size. set_solver. }
  split; [|split].
  - rewrite Hr. destruct (Z.ltb_spec 0 u); [|lia].
    pose proof (round_percent_bounds fl H1 H2 H3 i u Hiu ltac:(lia)) as Hb.
    simpl in Hb. nia.
  - intros Hd. rewrite Hr. destruct (Z.ltb_spec 0 u); [|done].
    assert (Hi : i = 0).
    { unfold i. replace (S1 ∩ S2) with (∅ : gset string) by set_solver.
      reflexivity. }
    rewrite Hi. by apply round_percent_zero.
  - reflexivity.
Qed.

Lemma match_percent_range_witness :
  let S1 : gset string := {["js"; "sql"]} in
  let S2 : gset string := {["sql"; "go"]} in
  0 ≤ calculateSkillMatchPercent exact_arithmetic S1 S2 ≤ 100.
Proof.
  intros S1 S2.
  pose proof (match_percent_range exact_arithmetic S1 S2
                exact_arithmetic_proper exact_arithmetic_integer
                exact_arithmetic_error) as H.
  apply H. vm_compute. reflexivity.
Defined.

(** Property X28. The recent-activity score is never negative; for a
    count that is not negative it is at most 100; it never grows with the
    count; it is 0 from three active projects on; and within the cap of
    two it is 100, 60 or 20. *)
Theorem recent_activity_score_range (n : Z) :
  let s := calculateRecentActivityScore n in
  0 ≤ s
  ∧ (0 ≤ n → s ≤ 100)
  ∧ (∀ m, n ≤ m → calculateRecentActivityScore m ≤ s)
  ∧ (3 ≤ n → s = 0)
  ∧ (0 ≤ n ≤ 2 → s = 100 - 40 * n).
Proof.
  unfold calculateRecentActivityScore. repeat split; intros; lia.
Qed.
End MatchingProperties.

Section RankingExample.
Import Store Ranking Spec Scenario2.

(** The recommendation on the table [profiles] with exact arithmetic:
    the unavailable row and the row below 70 are left out, and the
    candidate with fewer active projects and a common skill comes
    first. *)
Example recommended_on_profiles :
  match getRecommendedUsers exact_arithmetic profiles "me" with
  | Ok l => map (λ e, (s_id e, skillMatchPercent e, recentActivityScore e,
                       Qred (rankingScore e))) l
  | Throw _ => []
  end = [("p2", 25, 100, (135 # 2)%Q); ("p1", 0, 20, (44 # 1)%Q)]
  ∧ getRecommendedUsers exact_arithmetic profiles "nobody"
    = Throw (JsError "Current user not found").
Proof. split; vm_compute; reflexivity. Qed.
End RankingExample.
